(** * Serenity.IO.TemporaryFileHelper: purge, delete and mark-and-sweep

    A shallow embedding of [TemporaryFileHelper] (C#).  The helper is
    written against the [ITemporaryFileSystem] interface; here the
    interface is a type class over a state type, the helper's methods are
    programs in a state-and-exception monad over that state, and an
    in-memory file system instance gives the interface a semantics in
    which every operation of the helper can be run. *)

From Stdlib Require Import ZArith Ascii String DecimalString DecimalPos DecimalZ.
From stdpp Require Import base tactics option list strings sorting.

Local Open Scope string_scope.
Local Open Scope list_scope.
Local Open Scope Z_scope.

(** ** Exceptions and the state-and-exception monad *)

Inductive Exn : Type :=
  | IOException
  | FileNotFoundException
  | DirectoryNotFoundException
  | UnauthorizedAccessException
  | ArgumentOutOfRangeException
  | IndexOutOfRangeException.

Inductive Outcome (A : Type) : Type :=
  | Returned (a : A)
  | Raised (e : Exn).
Arguments Returned {A} a.
Arguments Raised {A} e.

(** A method body: runs on a file-system state, returns or raises, and
    leaves a state behind in both cases (effects before a [throw] stay). *)
Definition M (FS A : Type) : Type := FS -> Outcome A * FS.

Definition ret {FS A} (a : A) : M FS A := fun s => (Returned a, s).

Definition raise {FS A} (e : Exn) : M FS A := fun s => (Raised e, s).

Definition bind {FS A B} (m : M FS A) (k : A -> M FS B) : M FS B :=
  fun s =>
    match m s with
    | (Returned a, s') => k a s'
    | (Raised e, s') => (Raised e, s')
    end.

(** [try { m } catch { }] *)
Definition try_catch {FS} (m : M FS unit) : M FS unit :=
  fun s =>
    match m s with
    | (Returned _, s') => (Returned tt, s')
    | (Raised _, s') => (Returned tt, s')
    end.

(** a query of the state that neither changes it nor raises *)
Definition gets {FS A} (f : FS -> A) : M FS A := fun s => (Returned (f s), s).

(** lift of a pure partial computation *)
Definition lift {FS A} (o : Outcome A) : M FS A := fun s => (o, s).

Declare Scope fs_scope.
Delimit Scope fs_scope with fs.
Notation "x <- m ;; k" := (bind m (fun x => k))
  (at level 100, m at next level, right associativity) : fs_scope.
Notation "m ;; k" := (bind m (fun _ => k))
  (at level 100, right associativity) : fs_scope.
Local Open Scope fs_scope.

(** [if (c) body] without an else branch *)
Definition when {FS} (c : bool) (body : M FS unit) : M FS unit :=
  if c then body else ret tt.

(** [foreach (var x in l) body] over an already materialised sequence *)
Fixpoint foreach {FS A} (l : list A) (body : A -> M FS unit) : M FS unit :=
  match l with
  | [] => ret tt
  | x :: l' => body x ;; foreach l' body
  end.

(** [for (int i = lo; i < lo + n; i++) body] *)
Fixpoint for_loop {FS} (n : nat) (i : Z) (body : Z -> M FS unit) : M FS unit :=
  match n with
  | O => ret tt
  | S n' => body i ;; for_loop n' (i + 1) body
  end.

(** ** Strings as the helper uses them *)

(** white space, within ASCII *)
Definition is_white (c : ascii) : bool :=
  let n := nat_of_ascii c in
  (Nat.eqb n 32 || (Nat.leb 9 n && Nat.leb n 13))%bool.

Fixpoint TrimStart (s : string) : string :=
  match s with
  | EmptyString => EmptyString
  | String c r => if is_white c then TrimStart r else s
  end.

Fixpoint TrimEnd (s : string) : string :=
  match s with
  | EmptyString => EmptyString
  | String c r =>
      match TrimEnd r with
      | EmptyString => if is_white c then EmptyString else String c EmptyString
      | r' => String c r'
      end
  end.

(** [s.Trim()] *)
Definition Trim (s : string) : string := TrimEnd (TrimStart s).

(** upper case, within ASCII *)
Definition to_upper (c : ascii) : ascii :=
  let n := nat_of_ascii c in
  if (Nat.leb 97 n && Nat.leb n 122)%bool then ascii_of_nat (n - 32) else c.

Fixpoint upper (s : string) : string :=
  match s with
  | EmptyString => EmptyString
  | String c r => String (to_upper c) (upper r)
  end.

(** [a.Equals(b, StringComparison.OrdinalIgnoreCase)] *)
Definition EqualsIgnoreCase (a b : string) : bool :=
  String.eqb (upper a) (upper b).

(** [name[0..^7]]: the range raises when the string is shorter than 7 *)
Definition DropLast7 (name : string) : Outcome string :=
  if Nat.ltb (String.length name) 7 then Raised ArgumentOutOfRangeException
  else Returned (substring 0 (String.length name - 7) name).

(** ** Times and tokens *)

(** [DateTime] and [TimeSpan] as a number of ticks *)
Definition DateTime : Type := Z.
Definition TimeSpan : Type := Z.

(** ticks of 1601-01-01, the origin of file times *)
Definition FileTimeOffset : Z := 504911232000000000.

(** [DateTime.MaxValue.Ticks] *)
Definition MaxTicks : Z := 3155378975999999999.

(** [d.Subtract(t)]: raises when the result is not a [DateTime] *)
Definition DateTime_Subtract (d : DateTime) (t : TimeSpan) : Outcome DateTime :=
  if ((d - t <? 0) || (MaxTicks <? d - t))%bool
  then Raised ArgumentOutOfRangeException
  else Returned (d - t).

(** [d.ToFileTimeUtc()]: raises for a date before 1601 *)
Definition ToFileTimeUtc (d : DateTime) : Outcome Z :=
  if d - FileTimeOffset <? 0 then Raised ArgumentOutOfRangeException
  else Returned (d - FileTimeOffset).

(** [value.ToInvariant()] of a long: its decimal digits *)
Definition ToInvariant (z : Z) : string := NilZero.string_of_int (Z.to_int z).

Definition in_long (z : Z) : bool :=
  ((-9223372036854775808 <=? z) && (z <=? 9223372036854775807))%bool.

Definition parse_digits (s : string) : option Z :=
  match NilZero.uint_of_string s with
  | Some d => Some (Z.of_uint d)
  | None => None
  end.

(** an optional sign followed by digits *)
Definition parse_signed (t : string) : option Z :=
  match t with
  | String "-"%char r =>
      match parse_digits r with Some z => Some (- z) | None => None end
  | String "+"%char r => parse_digits r
  | r => parse_digits r
  end.

(** [long.TryParse(s, out value)]: leading and trailing white space, an
    optional sign, at least one digit, and the value has to fit a long *)
Definition TryParse (s : string) : option Z :=
  match parse_signed (Trim s) with
  | Some z => if in_long z then Some z else None
  | None => None
  end.

(** ** The file system interface *)

(** Modelled from the spec: the declaration of [TemporaryFileInfo] is not
    part of the sources at hand; an entry of a directory scan has a base
    file name, a full path and a creation time. *)
Record TemporaryFileInfo : Type := mkInfo {
  Name : string;
  FullName : string;
  CreationTime : DateTime;
}.

(** Modelled from the spec: the declarations of [ITemporaryFileSystem] and
    of [IFileSystem], which it extends, are not part of the sources at
    hand.  The class has the members the helper calls, with the signatures
    of the calls.  Existence checks and path functions are queries; the
    other members may raise. *)
Class ITemporaryFileSystem (FS : Type) : Type := {
  FileExists : string -> FS -> bool;
  DirectoryExists : string -> FS -> bool;
  GetFileName : string -> string;
  Combine : string -> string -> string;
  DeleteFile : string -> M FS unit;
  GetTemporaryFileInfos : string -> M FS (list TemporaryFileInfo);
  GetFiles : string -> string -> M FS (list string);
  ReadAllText : string -> M FS string;
  WriteAllText : string -> string -> M FS unit;
  GetLastWriteTimeUtc : string -> M FS DateTime;
}.

(** Modelled from the spec: [Array.Sort(T[], Comparison<T>)] is part of the
    base class library and not of this repository.  The spec takes the call
    to be a stable ascending sort; it is modelled as the insertion sort the
    library applies to short arrays, which moves the next element [t] left
    past every key [k] with [comparison(t, k) < 0].  [rkeys] is the sorted
    prefix, last element first. *)
Fixpoint insert_sorted {A} (comparison : A -> A -> Z) (t : A) (rkeys : list A)
  : list A :=
  match rkeys with
  | [] => [t]
  | k :: rest =>
      if comparison t k <? 0 then k :: insert_sorted comparison t rest
      else t :: rkeys
  end.

Definition Array_Sort {A} (comparison : A -> A -> Z) (keys : list A) : list A :=
  reverse (fold_left (fun rkeys t => insert_sorted comparison t rkeys) keys []).

(** ** TemporaryFileHelper *)

Inductive DeleteType : Type :=
  | DeleteType_Delete
  | DeleteType_TryDelete
  | DeleteType_TryDeleteOrMark.

Section TemporaryFileHelper.
Context {FS : Type} `{ITemporaryFileSystem FS}.

Definition DefaultTemporaryCheckFile : string := ".temporary".
(** [TimeSpan.FromDays(1)] in ticks *)
Definition DefaultAutoExpireTime : TimeSpan := 864000000000.
Definition DefaultMaxFilesInDirectory : Z := 1000.

(** the comparison delegate of the count-based pass *)
Definition byCreationTime (x y : TemporaryFileInfo) : Z :=
  if CreationTime x <? CreationTime y then -1 else 1.

(** the body shared by both passes: skip the check file, otherwise
    [try { fileSystem.DeleteFile(fi.FullName); } catch { }] *)
Definition deleteUnlessCheckFile (checkFileName : string)
    (fi : TemporaryFileInfo) : M FS unit :=
  when (negb (EqualsIgnoreCase checkFileName (Name fi)))
    (try_catch (DeleteFile (FullName fi))).

(** [now] is what [DateTime.Now] reads during the call *)
Definition PurgeDirectory (directoryToClean : string)
    (autoExpireTime : TimeSpan) (maxFilesInDirectory : Z)
    (checkFileName : string) (now : DateTime) : M FS unit :=
  let checked := negb (Nat.eqb (String.length checkFileName) 0) in
  let checkFileName :=
    if checked then Trim (GetFileName checkFileName) else checkFileName in
  absent <- gets (fun s =>
    checked && negb (FileExists (Combine directoryToClean checkFileName) s))%bool ;;
  if absent then ret tt
  else
    when (negb (autoExpireTime =? 0) && negb (maxFilesInDirectory =? 0))%bool
      (autoExpireLimit <- lift (DateTime_Subtract now autoExpireTime) ;;
       infos <- GetTemporaryFileInfos directoryToClean ;;
       foreach (filter (fun fi => CreationTime fi < autoExpireLimit) infos)
         (deleteUnlessCheckFile checkFileName)) ;;
    when (0 <=? maxFilesInDirectory)
      (files <- GetTemporaryFileInfos directoryToClean ;;
       when (maxFilesInDirectory <? Z.of_nat (length files))
         (let files :=
            if negb (maxFilesInDirectory =? 0)
            then Array_Sort byCreationTime files else files in
          for_loop (Z.to_nat (Z.of_nat (length files) - maxFilesInDirectory)) 0
            (fun i =>
               match files !! Z.to_nat i with
               | Some fi => deleteUnlessCheckFile checkFileName fi
               | None => raise IndexOutOfRangeException
               end))).

Definition PurgeDirectoryDefault (directoryToClean : string) (now : DateTime)
  : M FS unit :=
  PurgeDirectory directoryToClean DefaultAutoExpireTime
    DefaultMaxFilesInDirectory DefaultTemporaryCheckFile now.

Definition Delete (filePath : string) : M FS unit :=
  present <- gets (FileExists filePath) ;;
  when present (DeleteFile filePath) ;;
  let filePath := filePath +:+ ".delete" in
  present <- gets (FileExists filePath) ;;
  when present (try_catch (DeleteFile filePath)).

Definition TryDelete (filePath : string) : M FS unit :=
  present <- gets (FileExists filePath) ;;
  when present (try_catch (Delete filePath)).

Definition TryDeleteOrMark (filePath : string) : M FS unit :=
  TryDelete filePath ;;
  present <- gets (FileExists filePath) ;;
  when present
    (try_catch
       (let deleteFile := filePath +:+ ".delete" in
        written <- GetLastWriteTimeUtc filePath ;;
        fileTime <- lift (ToFileTimeUtc written) ;;
        WriteAllText deleteFile (ToInvariant fileTime))).

(** the overload [Delete(filePath, type, fileSystem)] *)
Definition DeleteWith (filePath : string) (type : DeleteType) : M FS unit :=
  match type with
  | DeleteType_Delete => Delete filePath
  | DeleteType_TryDelete => TryDelete filePath
  | DeleteType_TryDeleteOrMark => TryDeleteOrMark filePath
  end.

(** the body of the sweep's loop, inside its [try { } catch { }] *)
Definition sweepMarker (name : string) : M FS unit :=
  try_catch
    (readLine <- ReadAllText name ;;
     actualFile <- lift (DropLast7 name) ;;
     present <- gets (FileExists actualFile) ;;
     if present then
       match TryParse readLine with
       | Some fileTime =>
           written <- GetLastWriteTimeUtc actualFile ;;
           current <- lift (ToFileTimeUtc written) ;;
           when (fileTime =? current) (TryDelete actualFile)
       | None => ret tt
       end ;;
       TryDelete name
     else TryDelete name).

Definition TryDeleteMarkedFiles (path : string) : M FS unit :=
  present <- gets (DirectoryExists path) ;;
  if negb present then ret tt
  else
    names <- GetFiles path "*.delete" ;;
    foreach names sweepMarker.

End TemporaryFileHelper.

(** ** An in-memory file system *)

(** Modelled from the spec: the implementation of [ITemporaryFileSystem]
    ([TemporaryPhysicalFileSystem]) is not part of the sources at hand.  The
    in-memory file system below provides the capability the spec lists
    (existence checks, enumeration with metadata, delete, small-text read
    and write, last-write time, path joining and file-name extraction); a
    file carries flags that make its deletion, reading or overwriting
    raise, and a directory may be missing or refuse to be listed. *)
Record FileData : Type := mkFile {
  Content : string;
  Created : DateTime;
  LastWrite : DateTime;
  DenyDelete : bool;
  DenyRead : bool;
  DenyWrite : bool;
}.

(** [Files] lists the files by full path, in enumeration order. *)
Record MemFS : Type := mkFS {
  Files : list (string * FileData);
  Dirs : list string;
  DenyList : list string;
  Clock : DateTime;
}.

Definition set_files (f : list (string * FileData) -> list (string * FileData))
    (s : MemFS) : MemFS :=
  mkFS (f (Files s)) (Dirs s) (DenyList s) (Clock s).

Fixpoint find_file (p : string) (l : list (string * FileData)) : option FileData :=
  match l with
  | [] => None
  | (q, f) :: l' => if decide (q = p) then Some f else find_file p l'
  end.

Definition remove_file (p : string) (l : list (string * FileData))
  : list (string * FileData) :=
  filter (fun e => e.1 <> p) l.

Definition replace_file (p : string) (f : FileData) (l : list (string * FileData))
  : list (string * FileData) :=
  (fun e => if decide (e.1 = p) then (p, f) else e) <$> l.

(** a path is split at its last ['/'] into directory and file name *)
Fixpoint split_path (p : string) : option string * string :=
  match p with
  | EmptyString => (None, EmptyString)
  | String c r =>
      match split_path r with
      | (Some d, n) => (Some (String c d), n)
      | (None, n) =>
          if Ascii.eqb c "/" then (Some EmptyString, n) else (None, String c n)
      end
  end.

(** [Path.GetFileName] *)
Definition mem_GetFileName (p : string) : string := (split_path p).2.

(** [Path.GetDirectoryName]; [None] where the path names no directory *)
Definition mem_GetDirectoryName (p : string) : option string := (split_path p).1.

(** [Path.Combine] of a directory and a name without separators *)
Definition mem_Combine (d n : string) : string :=
  match n with
  | EmptyString => d
  | _ => d +:+ "/" +:+ n
  end.

Fixpoint ends_with (suffix s : string) : bool :=
  (String.eqb s suffix ||
   match s with
   | EmptyString => false
   | String _ r => ends_with suffix r
   end)%bool.

(** search patterns: a leading ['*'] followed by a literal suffix, or a
    literal name *)
Definition matches (pattern name : string) : bool :=
  match pattern with
  | String "*"%char suffix => ends_with suffix name
  | _ => String.eqb pattern name
  end.

(** the file at path [p] lies directly in directory [d] *)
Definition in_directory (d : string) (p : string) : Prop :=
  mem_GetDirectoryName p = Some d.

Global Instance in_directory_dec d p : Decision (in_directory d p).
Proof. unfold in_directory. apply _. Defined.

(** the directory exists and lets itself be enumerated *)
Definition listable (d : string) (s : MemFS) : bool :=
  (bool_decide (d ∈ Dirs s) && negb (bool_decide (d ∈ DenyList s)))%bool.

Definition info_of (e : string * FileData) : TemporaryFileInfo :=
  mkInfo (mem_GetFileName e.1) e.1 (Created e.2).

Definition entries (d : string) (s : MemFS) : list TemporaryFileInfo :=
  info_of <$> filter (fun e => in_directory d e.1) (Files s).

Definition mem_FileExists (p : string) (s : MemFS) : bool :=
  match find_file p (Files s) with Some _ => true | None => false end.

(** deleting a file that is not there is not an error *)
Definition mem_DeleteFile (p : string) : M MemFS unit :=
  fun s =>
    match find_file p (Files s) with
    | None => (Returned tt, s)
    | Some f =>
        if DenyDelete f then (Raised UnauthorizedAccessException, s)
        else (Returned tt, set_files (remove_file p) s)
    end.

Definition mem_GetTemporaryFileInfos (d : string) : M MemFS (list TemporaryFileInfo) :=
  fun s =>
    if listable d s then (Returned (entries d s), s)
    else (Raised DirectoryNotFoundException, s).

Definition mem_GetFiles (d pattern : string) : M MemFS (list string) :=
  fun s =>
    if listable d s
    then (Returned (FullName <$>
                    filter (fun fi => matches pattern (Name fi) = true) (entries d s)), s)
    else (Raised DirectoryNotFoundException, s).

Definition mem_ReadAllText (p : string) : M MemFS string :=
  fun s =>
    match find_file p (Files s) with
    | None => (Raised FileNotFoundException, s)
    | Some f =>
        if DenyRead f then (Raised UnauthorizedAccessException, s)
        else (Returned (Content f), s)
    end.

(** overwrites the file at [p], or creates it at the end of the
    enumeration order when its directory exists *)
Definition mem_WriteAllText (p text : string) : M MemFS unit :=
  fun s =>
    match find_file p (Files s) with
    | Some f =>
        if DenyWrite f then (Raised UnauthorizedAccessException, s)
        else
          let f' := mkFile text (Created f) (Clock s)
                      (DenyDelete f) (DenyRead f) (DenyWrite f) in
          (Returned tt, set_files (replace_file p f') s)
    | None =>
        let parent :=
          match mem_GetDirectoryName p with
          | Some d => bool_decide (d ∈ Dirs s)
          | None => true
          end in
        if parent
        then (Returned tt,
              set_files (fun l => (l ++ [(p, mkFile text (Clock s) (Clock s) false false false)])%list) s)
        else (Raised DirectoryNotFoundException, s)
    end.

(** a missing file reports 1601-01-01 *)
Definition mem_GetLastWriteTimeUtc (p : string) : M MemFS DateTime :=
  fun s =>
    match find_file p (Files s) with
    | Some f => (Returned (LastWrite f), s)
    | None => (Returned FileTimeOffset, s)
    end.

Global Instance MemFS_fs : ITemporaryFileSystem MemFS := {|
  FileExists := mem_FileExists;
  DirectoryExists := fun d s => bool_decide (d ∈ Dirs s);
  GetFileName := mem_GetFileName;
  Combine := mem_Combine;
  DeleteFile := mem_DeleteFile;
  GetTemporaryFileInfos := mem_GetTemporaryFileInfos;
  GetFiles := mem_GetFiles;
  ReadAllText := mem_ReadAllText;
  WriteAllText := mem_WriteAllText;
  GetLastWriteTimeUtc := mem_GetLastWriteTimeUtc;
|}.

(** ** Lookup, removal and the state the delete primitives leave behind *)

(** deleting [p] would raise *)
Definition blocked (p : string) (s : MemFS) : bool :=
  match find_file p (Files s) with
  | Some f => DenyDelete f
  | None => false
  end.

(** [try { DeleteFile(p); } catch { }] as a function on states *)
Definition delete_quiet (p : string) (s : MemFS) : MemFS :=
  match find_file p (Files s) with
  | Some f => if DenyDelete f then s else set_files (remove_file p) s
  | None => s
  end.

(** [TryDelete(p)] as a function on states *)
Definition tryDelete_fs (p : string) (s : MemFS) : MemFS :=
  match find_file p (Files s) with
  | Some f =>
      if DenyDelete f then s
      else delete_quiet (p +:+ ".delete") (set_files (remove_file p) s)
  | None => s
  end.

(** ** Sample states *)

Definition plain (text : string) (created written : DateTime) : FileData :=
  mkFile text created written false false false.

(** like [plain], but the file cannot be deleted *)
Definition undeletable (text : string) (created written : DateTime) : FileData :=
  mkFile text created written true false false.

(** a directory without the check file *)
Definition fs_no_sentinel : MemFS :=
  mkFS [("d/a", plain "x" 1 1); ("d/b", plain "y" 2 2)] ["d"] [] 100.

(** a marker whose file is gone *)
Definition fs_orphan_marker : MemFS :=
  mkFS [("d/a.delete", plain "77" 1 1)] ["d"] [] 100.

(** a file that cannot be deleted, next to its marker *)
Definition fs_locked_file : MemFS :=
  mkFS [("d/a", undeletable "x" 1 1); ("d/a.delete", plain "77" 2 2)] ["d"] [] 100.

(** a file next to a marker that cannot be deleted *)
Definition fs_locked_marker : MemFS :=
  mkFS [("d/a", plain "x" 1 1); ("d/a.delete", undeletable "77" 2 2)] ["d"] [] 100.

(** a file next to its marker, both deletable *)
Definition fs_marked_file : MemFS :=
  mkFS [("d/a", plain "x" 1 1); ("d/a.delete", plain "77" 2 2)] ["d"] [] 100.

(** ** The passes of [PurgeDirectory] as functions on states *)

(** the paths a pass hands to [DeleteFile]: every entry but the check file *)
Definition candidates (checkFileName : string) (l : list TemporaryFileInfo)
  : list string :=
  FullName <$> filter (fun fi => EqualsIgnoreCase checkFileName (Name fi) = false) l.

(** the state after [try { DeleteFile(p); } catch { }] for each path in turn *)
Definition delete_each (ps : list string) (s : MemFS) : MemFS :=
  foldl (fun s p => delete_quiet p s) s ps.

(** the state without the files of [ps] whose deletion does not raise *)
Definition without (ps : list string) (s : MemFS) : MemFS :=
  set_files (filter (fun e => ~ (e.1 ∈ ps /\ blocked e.1 s = false))) s.

(** the sentinel check of [PurgeDirectory] lets the call through *)
Definition gate_open (directoryToClean checkFileName : string) (s : MemFS) : bool :=
  (Nat.eqb (String.length checkFileName) 0
   || FileExists (Combine directoryToClean (Trim (GetFileName checkFileName))) s)%bool.

(** the name the passes compare entries with *)
Definition check_name (checkFileName : string) : string :=
  if Nat.eqb (String.length checkFileName) 0 then checkFileName
  else Trim (mem_GetFileName checkFileName).

(** every file of the directory can be deleted *)
Definition all_deletable (d : string) (s : MemFS) : Prop :=
  forall p f, (p, f) ∈ Files s -> in_directory d p -> DenyDelete f = false.

(** the age-based pass as a function on states *)
Definition age_pass (d chk : string) (autoExpireTime : TimeSpan)
    (maxFilesInDirectory : Z) (now : DateTime) (s : MemFS) : MemFS :=
  if (negb (autoExpireTime =? 0) && negb (maxFilesInDirectory =? 0))%bool
  then delete_each
         (candidates chk
            (filter (fun fi => CreationTime fi < now - autoExpireTime) (entries d s))) s
  else s.

(** the entries the count-based pass walks through, oldest first *)
Definition count_pass_order (maxFilesInDirectory : Z) (files : list TemporaryFileInfo)
  : list TemporaryFileInfo :=
  if negb (maxFilesInDirectory =? 0) then Array_Sort byCreationTime files else files.

(** the count-based pass as a function on states *)
Definition count_pass (d chk : string) (maxFilesInDirectory : Z) (s : MemFS) : MemFS :=
  if ((0 <=? maxFilesInDirectory)
      && (maxFilesInDirectory <? Z.of_nat (length (entries d s))))%bool
  then delete_each
         (candidates chk
            (take (Z.to_nat (Z.of_nat (length (entries d s)) - maxFilesInDirectory))
               (count_pass_order maxFilesInDirectory (entries d s)))) s
  else s.

(** the age-based pass is not skipped *)
Definition age_enabled (autoExpireTime : TimeSpan) (maxFilesInDirectory : Z) : bool :=
  (negb (autoExpireTime =? 0) && negb (maxFilesInDirectory =? 0))%bool.

(** the age-based pass is entered and its expiry limit is not a [DateTime] *)
Definition expiry_fails (autoExpireTime : TimeSpan) (maxFilesInDirectory : Z)
    (now : DateTime) : bool :=
  (age_enabled autoExpireTime maxFilesInDirectory
   && match DateTime_Subtract now autoExpireTime with
      | Raised _ => true
      | Returned _ => false
      end)%bool.

(** [PurgeDirectory] gets as far as enumerating the directory: the
    sentinel check lets it through, the expiry limit (if one is needed)
    can be computed, and a pass is enabled *)
Definition enumerates (d checkFileName : string) (autoExpireTime : TimeSpan)
    (maxFilesInDirectory : Z) (now : DateTime) (s : MemFS) : bool :=
  (gate_open d checkFileName s
   && negb (expiry_fails autoExpireTime maxFilesInDirectory now)
   && (age_enabled autoExpireTime maxFilesInDirectory
       || (0 <=? maxFilesInDirectory)))%bool.

(** ** Auxiliary predicates on paths and listings *)

Fixpoint no_slash (s : string) : Prop :=
  match s with
  | EmptyString => True
  | String c r => c <> "/"%char /\ no_slash r
  end.

(** the entries come from a listing of directory [d] *)
Definition from_dir (d : string) (l : list TemporaryFileInfo) : Prop :=
  forall fi, fi ∈ l ->
    Name fi = mem_GetFileName (FullName fi) /\ in_directory d (FullName fi).

(** a temporary directory with its sentinel (the oldest file), two files,
    and a file of another directory *)
Definition fs_temp : MemFS :=
  mkFS [("d/.temporary", plain "" 0 0); ("d/a", plain "x" 10 10);
        ("e/keep", plain "z" 1 1); ("d/b", plain "y" 20 20)]
       ["d"; "e"] [] 100.

(** a temporary directory in which the oldest file cannot be deleted *)
Definition fs_stuck : MemFS :=
  mkFS [("d/.temporary", plain "" 0 0); ("d/a", undeletable "x" 10 10);
        ("d/b", plain "y" 12 12); ("d/c", plain "z" 90 90)]
       ["d"] [] 100.

(** ascending order of creation *)
Definition not_newer (x y : TemporaryFileInfo) : Prop :=
  CreationTime x <= CreationTime y.

(** the entries created at time [c], in the order of the listing *)
Definition created_at (c : DateTime) (l : list TemporaryFileInfo)
  : list TemporaryFileInfo :=
  filter (fun fi => CreationTime fi = c) l.

(** a temporary directory holding its sentinel and one younger file *)
Definition fs_two : MemFS :=
  mkFS [("d/.temporary", plain "" 0 0); ("d/a", plain "x" 10 10)] ["d"] [] 100.

Global Instance TemporaryFileInfo_eq_dec : EqDecision TemporaryFileInfo.
Proof. solve_decision. Defined.

Definition is_digit (c : ascii) : bool :=
  let n := nat_of_ascii c in (Nat.leb 48 n && Nat.leb n 57)%bool.

Fixpoint all_digits (s : string) : bool :=
  match s with
  | EmptyString => true
  | String c r => (is_digit c && all_digits r)%bool
  end.

(** ** The sweep as a function on states *)

(** the paths [GetFiles(d, "*.delete")] returns *)
Definition markers (d : string) (s : MemFS) : list string :=
  FullName <$> filter (fun fi => matches "*.delete" (Name fi) = true) (entries d s).

(** one turn of the loop of [TryDeleteMarkedFiles], [try] and [catch]
    included *)
Definition sweep_fs (name : string) (s : MemFS) : MemFS :=
  match find_file name (Files s) with
  | None => s
  | Some marker =>
      if DenyRead marker then s
      else
        match DropLast7 name with
        | Raised _ => s
        | Returned actualFile =>
            match find_file actualFile (Files s) with
            | Some actual =>
                match TryParse (Content marker) with
                | Some fileTime =>
                    match ToFileTimeUtc (LastWrite actual) with
                    | Raised _ => s
                    | Returned current =>
                        tryDelete_fs name
                          (if fileTime =? current then tryDelete_fs actualFile s
                           else s)
                    end
                | None => tryDelete_fs name s
                end
            | None => tryDelete_fs name s
            end
        end
  end.

Definition sweep_all (names : list string) (s : MemFS) : MemFS :=
  foldl (fun s name => sweep_fs name s) s names.

(** the state without the files at the paths of [D] *)
Definition drop_keys (D : list string) (s : MemFS) : MemFS :=
  set_files (filter (fun e => e.1 ∉ D)) s.

(** ** What may happen to a file between two calls *)

Definition modify (p : string) (g : FileData -> FileData) (s : MemFS) : MemFS :=
  set_files (fmap (fun e => if decide (e.1 = p) then (p, g e.2) else e)) s.

(** whoever held the file lets go of it: it can be deleted again *)
Definition released (f : FileData) : FileData :=
  mkFile (Content f) (Created f) (LastWrite f) false (DenyRead f) (DenyWrite f).

Definition release (p : string) : MemFS -> MemFS := modify p released.

(** the file is written again at time [t] *)
Definition touched (t : DateTime) (f : FileData) : FileData :=
  mkFile (Content f) (Created f) t (DenyDelete f) (DenyRead f) (DenyWrite f).

Definition touch (p : string) (t : DateTime) : MemFS -> MemFS :=
  modify p (touched t).

(** ** A file, its marker, and what the sweep makes of them *)

(** what the sweep leaves of a file whose marker holds [token]: nothing
    when the token is the file's current file time and the deletion
    succeeds, the file otherwise *)
Definition sweep_expected (token : Z) (actual : FileData) : option FileData :=
  if ((token =? LastWrite actual - FileTimeOffset) && negb (DenyDelete actual))%bool
  then None else Some actual.

(** file and marker are there, the marker has no marker of its own *)
Definition marker_pending (p : string) (actual marker : FileData) (u : MemFS)
  : Prop :=
  find_file p (Files u) = Some actual /\
  find_file (p +:+ ".delete") (Files u) = Some marker /\
  find_file ((p +:+ ".delete") +:+ ".delete") (Files u) = None.

(** the marker has been dealt with *)
Definition marker_settled (p : string) (token : Z) (actual : FileData) (u : MemFS)
  : Prop :=
  find_file p (Files u) = sweep_expected token actual /\
  find_file (p +:+ ".delete") (Files u) = None /\
  find_file ((p +:+ ".delete") +:+ ".delete") (Files u) = None.

(** the marker [TryDeleteOrMark] writes for a file last written at [written] *)
Definition marker_of (written now : DateTime) : FileData :=
  mkFile (ToInvariant (written - FileTimeOffset)) now now false false false.

Definition mark (p : string) (written : DateTime) (s : MemFS) : MemFS :=
  set_files (fun l => l ++ [(p +:+ ".delete", marker_of written (Clock s))]) s.

(** a file held by another process: its deletion fails *)
Definition fs_held : MemFS :=
  mkFS [("d/a", undeletable "x" (FileTimeOffset + 5) (FileTimeOffset + 77))]
       ["d"] [] (FileTimeOffset + 100).

(** every file has a last write time that is a file time (1601 or later) *)
Definition valid_times (s : MemFS) : Prop :=
  forall p f, (p, f) ∈ Files s -> FileTimeOffset <= LastWrite f.

(** [u'] is [u] with some files gone *)
Definition shrinks (u u' : MemFS) : Prop := exists D, u' = drop_keys D u.

(** a marked file whose marker, last written before 1601, has a marker of
    its own that is listed first *)
Definition fs_chain : MemFS :=
  mkFS [("d/x.delete.delete", plain "0" (FileTimeOffset + 9) (FileTimeOffset + 9));
        ("d/x.delete", plain "77" (FileTimeOffset + 8) 0);
        ("d/x", plain "data" (FileTimeOffset + 5) (FileTimeOffset + 77))]
       ["d"] [] (FileTimeOffset + 100).

(** a marked file whose marker cannot be deleted *)
Definition fs_stuck_marker : MemFS :=
  mkFS [("d/a", plain "x" (FileTimeOffset + 1) (FileTimeOffset + 3));
        ("d/a.delete", undeletable "3" (FileTimeOffset + 2) (FileTimeOffset + 4))]
       ["d"] [] (FileTimeOffset + 100).

(** ** [TryDeleteOrMark] as a function on states *)

(** the state after the attempt to write the marker of the file at [p],
    which is there; what the attempt raises is swallowed *)
Definition write_marker_fs (p : string) (s : MemFS) : MemFS :=
  match find_file p (Files s) with
  | Some f =>
      match ToFileTimeUtc (LastWrite f) with
      | Returned fileTime =>
          (mem_WriteAllText (p +:+ ".delete") (ToInvariant fileTime) s).2
      | Raised _ => s
      end
  | None => s
  end.

Definition tryDeleteOrMark_fs (p : string) (s : MemFS) : MemFS :=
  let s1 := tryDelete_fs p s in
  if mem_FileExists p s1 then write_marker_fs p s1 else s1.

(** ** A stale marker through the sweep *)

(** relative to the state [s] the sweep starts from: the file at [p] is
    as at the start and its marker has not been replaced *)
Definition stale_pending (s : MemFS) (p : string) (marker : FileData) (u : MemFS)
  : Prop :=
  find_file p (Files u) = find_file p (Files s) /\
  (find_file (p +:+ ".delete") (Files u) = Some marker \/
   find_file (p +:+ ".delete") (Files u) = None).

(** the file at [p] is as at the start and its marker is gone *)
Definition stale_settled (s : MemFS) (p : string) (u : MemFS) : Prop :=
  find_file p (Files u) = find_file p (Files s) /\
  find_file (p +:+ ".delete") (Files u) = None.

(** ** RandomFileCode *)

(** [(byte)] of an [int], unchecked *)
Definition to_byte (z : Z) : Z := z mod 256.

(** [array[i] = b] on a byte array held as the state *)
Definition set_byte (i : nat) (b : Z) : M (list Z) unit :=
  fun array =>
    if decide (i < length array)%nat then (Returned tt, <[i := b]> array)
    else (Raised IndexOutOfRangeException, array).

(** the loop of [RandomFileCode], run on the array [eightBytes] *)
Definition foldGuidBytes (guidBytes : list Z) : M (list Z) unit :=
  for_loop 8 0
    (fun i =>
       match guidBytes !! Z.to_nat i with
       | Some low =>
           match guidBytes !! Z.to_nat (i + 8) with
           | Some high => set_byte (Z.to_nat i) (to_byte (Z.lxor low high))
           | None => raise IndexOutOfRangeException
           end
       | None => raise IndexOutOfRangeException
       end).

Section RandomFileCode.
(** [Base32.Encode] is not part of the sources at hand: the code is taken
    relative to an arbitrary encoder of byte arrays. *)
Variable Base32_Encode : list Z -> string.

(** [guidBytes] is what [Guid.NewGuid().ToByteArray()] returns *)
Definition RandomFileCode (guidBytes : list Z) : Outcome string :=
  match foldGuidBytes guidBytes (replicate 8 0) with
  | (Returned _, eightBytes) => Returned (Base32_Encode eightBytes)
  | (Raised e, _) => Raised e
  end.

End RandomFileCode.

(** * Properties *)

(** ** Lookup and removal in the in-memory file system *)

Lemma find_file_remove p q l :
  find_file q (remove_file p l) = if decide (q = p) then None else find_file q l.
Proof.
  unfold remove_file. induction l as [|[k f] l IH]; simpl.
  - by case_decide.
  - rewrite filter_cons. simpl.
    destruct (decide (k <> p)) as [Hk|Hk]; simpl.
    + destruct (decide (k = q)) as [->|Hq].
      * by rewrite decide_False.
      * apply IH.
    + apply dec_stable in Hk. subst k. rewrite IH.
      destruct (decide (q = p)) as [->|Hq]; [done|].
      by rewrite decide_False.
Qed.

Lemma find_file_remove_eq p l : find_file p (remove_file p l) = None.
Proof. rewrite find_file_remove. by rewrite decide_True. Qed.

Lemma find_file_remove_ne p q l :
  q <> p -> find_file q (remove_file p l) = find_file q l.
Proof. intros. rewrite find_file_remove. by rewrite decide_False. Qed.

Lemma find_file_Some_elem p f l : find_file p l = Some f -> (p, f) ∈ l.
Proof.
  induction l as [|[k g] l IH]; simpl; [done|].
  case_decide; intros Hf.
  - simplify_eq. apply list_elem_of_here.
  - apply list_elem_of_further. auto.
Qed.

Lemma find_file_None p l : find_file p l = None <-> p ∉ l.*1.
Proof.
  induction l as [|[k g] l IH]; simpl.
  - split; [intros _; apply not_elem_of_nil|done].
  - rewrite not_elem_of_cons. case_decide.
    + split; [done|]. intros [? _]. congruence.
    + rewrite IH. split; [intros ?; split; [congruence|done]|by intros [_ ?]].
Qed.

Lemma append_marker_ne p : p +:+ ".delete" <> p.
Proof.
  induction p as [|c p IH]; simpl; [done|].
  intros [= Hp]. by apply IH.
Qed.

Lemma mem_DeleteFile_eq p s :
  mem_DeleteFile p s =
    if blocked p s then (Raised UnauthorizedAccessException, s)
    else (Returned tt, delete_quiet p s).
Proof.
  unfold mem_DeleteFile, blocked, delete_quiet.
  destruct (find_file p (Files s)) as [f|]; [|done]. by destruct (DenyDelete f).
Qed.

Lemma try_DeleteFile_mem p s :
  try_catch (DeleteFile p) s = (Returned tt, delete_quiet p s).
Proof.
  unfold try_catch. simpl. rewrite mem_DeleteFile_eq.
  unfold blocked, delete_quiet.
  destruct (find_file p (Files s)) as [f|]; [|done]. by destruct (DenyDelete f).
Qed.

Lemma Delete_mem p s :
  Delete p s =
    if blocked p s then (Raised UnauthorizedAccessException, s)
    else (Returned tt, delete_quiet (p +:+ ".delete") (delete_quiet p s)).
Proof.
  assert (Hmarker : forall m s1,
    (if mem_FileExists m s1 then try_catch (mem_DeleteFile m) else ret tt) s1
    = (Returned tt, delete_quiet m s1)).
  { intros m s1. unfold mem_FileExists.
    destruct (find_file m (Files s1)) as [g|] eqn:Hm.
    - apply try_DeleteFile_mem.
    - unfold delete_quiet. by rewrite Hm. }
  unfold Delete, bind, gets, when. simpl.
  unfold mem_FileExists at 1. unfold blocked.
  destruct (find_file p (Files s)) as [f|] eqn:Hp.
  - rewrite mem_DeleteFile_eq. unfold blocked. rewrite Hp.
    destruct (DenyDelete f) eqn:Hd; [done|]. apply Hmarker.
  - unfold ret at 1. unfold delete_quiet at 2. rewrite Hp. apply Hmarker.
Qed.

Lemma TryDelete_mem p s : TryDelete p s = (Returned tt, tryDelete_fs p s).
Proof.
  unfold TryDelete, bind, gets, when, tryDelete_fs. simpl. unfold mem_FileExists.
  destruct (find_file p (Files s)) as [f|] eqn:Hp; [|done].
  unfold try_catch. rewrite Delete_mem. unfold blocked, delete_quiet at 2.
  rewrite Hp. by destruct (DenyDelete f).
Qed.

Lemma FileExists_delete_quiet p q s :
  FileExists q (delete_quiet p s) =
    if decide (q = p) then (FileExists p s && blocked p s)%bool else FileExists q s.
Proof.
  simpl. unfold mem_FileExists, delete_quiet, blocked.
  destruct (find_file p (Files s)) as [f|] eqn:Hp.
  - destruct (DenyDelete f) eqn:Hd.
    + case_decide; [subst; by rewrite Hp|done].
    + simpl. rewrite find_file_remove. by case_decide.
  - case_decide; [subst; by rewrite Hp|done].
Qed.

Lemma find_file_delete_quiet_ne p q s :
  q <> p -> find_file q (Files (delete_quiet p s)) = find_file q (Files s).
Proof.
  intros Hq. unfold delete_quiet.
  destruct (find_file p (Files s)) as [f|]; [|done].
  destruct (DenyDelete f); [done|]. simpl. by apply find_file_remove_ne.
Qed.

Lemma delete_quiet_blocked p s : blocked p s = true -> delete_quiet p s = s.
Proof.
  unfold blocked, delete_quiet.
  destruct (find_file p (Files s)) as [f|]; [|done]. by intros ->.
Qed.

(** ** The safety sentinel *)

(** C1. Whatever the file system implementation, when a non-empty
    [checkFileName] is configured and the sentinel (the trimmed base name
    of [checkFileName], joined to the directory) does not exist,
    [PurgeDirectory] returns normally and leaves the state it was given:
    nothing is enumerated, nothing is deleted and nothing is raised. *)
Theorem PurgeDirectory_sentinel_absent :
  forall (FS : Type) (I : ITemporaryFileSystem FS)
         (directoryToClean : string) (autoExpireTime : TimeSpan)
         (maxFilesInDirectory : Z) (checkFileName : string) (now : DateTime)
         (s : FS),
    checkFileName <> "" ->
    FileExists (Combine directoryToClean (Trim (GetFileName checkFileName))) s = false ->
    PurgeDirectory directoryToClean autoExpireTime maxFilesInDirectory
      checkFileName now s = (Returned tt, s).
Proof.
  intros FS I dir aet maxf chk now s Hne Habsent.
  unfold PurgeDirectory, bind, gets.
  destruct chk as [|c chk]; [done|]. simpl.
  by rewrite Habsent.
Qed.

Lemma PurgeDirectory_sentinel_absent_witness :
  ".temporary" <> "" /\
  FileExists (Combine "d" (Trim (GetFileName ".temporary"))) fs_no_sentinel = false /\
  PurgeDirectory "d" 5 0 ".temporary" 100 fs_no_sentinel
    = (Returned tt, fs_no_sentinel).
Proof.
  split; [discriminate|]. split; [reflexivity|].
  apply PurgeDirectory_sentinel_absent; [discriminate|reflexivity].
Defined.

(** ** Delete and TryDelete *)

(** C4, as the claim states it, fails for [Delete]: the path ["d/a"] does
    not exist, yet [Delete] removes the marker ["d/a.delete"]. *)
Lemma Delete_missing_path_removes_marker :
  FileExists "d/a" fs_orphan_marker = false /\
  FileExists "d/a.delete" fs_orphan_marker = true /\
  Delete "d/a" fs_orphan_marker = (Returned tt, mkFS [] ["d"] [] 100) /\
  Delete "d/a" fs_orphan_marker <> (Returned tt, fs_orphan_marker).
Proof. vm_compute. repeat split; discriminate. Qed.

(** C4 (amended). On a path that does not exist, [TryDelete] returns and
    leaves the state unchanged; [Delete] returns as well, and changes at
    most the companion marker [path + ".delete"]: the marker is removed
    when it exists and its deletion succeeds, and the state is unchanged
    otherwise. *)
Theorem TryDelete_Delete_missing_path (s : MemFS) (p : string) :
  FileExists p s = false ->
  TryDelete p s = (Returned tt, s) /\
  Delete p s =
    (Returned tt,
     if (FileExists (p +:+ ".delete") s && negb (blocked (p +:+ ".delete") s))%bool
     then set_files (remove_file (p +:+ ".delete")) s
     else s).
Proof.
  intros Hp. simpl in Hp. unfold mem_FileExists in Hp.
  destruct (find_file p (Files s)) as [f|] eqn:Hf; [done|].
  split.
  - rewrite TryDelete_mem. unfold tryDelete_fs. by rewrite Hf.
  - rewrite Delete_mem. unfold blocked at 1. rewrite Hf.
    unfold delete_quiet at 2. rewrite Hf.
    simpl. unfold mem_FileExists, delete_quiet, blocked.
    destruct (find_file (p +:+ ".delete") (Files s)) as [g|]; [|done].
    by destruct (DenyDelete g).
Qed.

Lemma TryDelete_Delete_missing_path_witness :
  FileExists "d/a" fs_orphan_marker = false /\
  TryDelete "d/a" fs_orphan_marker = (Returned tt, fs_orphan_marker) /\
  Delete "d/a" fs_orphan_marker = (Returned tt, mkFS [] ["d"] [] 100).
Proof.
  split; [reflexivity|].
  exact (TryDelete_Delete_missing_path fs_orphan_marker "d/a" eq_refl).
Defined.

(** C3, as the claim states it, fails: when the primary deletion raises,
    [Delete] propagates the error and the marker is still there. *)
Lemma Delete_raises_keeps_marker :
  FileExists "d/a.delete" fs_locked_file = true /\
  Delete "d/a" fs_locked_file = (Raised UnauthorizedAccessException, fs_locked_file).
Proof. vm_compute. split; reflexivity. Qed.

(** what [Delete] does to the path and to its marker *)
Lemma Delete_mem_marker_post (s : MemFS) (p : string) :
  (blocked p s = true ->
   Delete p s = (Raised UnauthorizedAccessException, s)) /\
  (blocked p s = false ->
   exists s',
     Delete p s = (Returned tt, s') /\
     FileExists p s' = false /\
     (blocked (p +:+ ".delete") s = false -> FileExists (p +:+ ".delete") s' = false) /\
     (blocked (p +:+ ".delete") s = true ->
      find_file (p +:+ ".delete") (Files s') = find_file (p +:+ ".delete") (Files s))).
Proof.
  pose proof (append_marker_ne p) as Hne.
  split; intros Hb; rewrite Delete_mem, Hb; [done|].
  eexists; split; [done|].
  assert (Hm : blocked (p +:+ ".delete") (delete_quiet p s)
               = blocked (p +:+ ".delete") s).
  { unfold blocked. by rewrite find_file_delete_quiet_ne. }
  split; [|split].
  - rewrite FileExists_delete_quiet, decide_False by done.
    rewrite FileExists_delete_quiet, decide_True by done.
    rewrite Hb. apply andb_false_r.
  - intros Hmb. rewrite FileExists_delete_quiet, decide_True by done.
    rewrite Hm, Hmb. apply andb_false_r.
  - intros Hmb. rewrite delete_quiet_blocked by (by rewrite Hm).
    by apply find_file_delete_quiet_ne.
Qed.

(** C3 (amended). When the primary deletion raises, [Delete] raises and
    leaves the state, the marker included, as it was.  When it does not
    raise (the path was deleted, or did not exist), [Delete] returns, the
    path is gone, and the companion marker has been dealt with: it is gone
    if its deletion succeeds, and kept as it was, without an error, if its
    deletion fails. *)
Theorem Delete_companion_marker (s : MemFS) (p : string) :
  (blocked p s = true ->
   Delete p s = (Raised UnauthorizedAccessException, s)) /\
  (blocked p s = false ->
   exists s',
     Delete p s = (Returned tt, s') /\
     FileExists p s' = false /\
     (blocked (p +:+ ".delete") s = false -> FileExists (p +:+ ".delete") s' = false) /\
     (blocked (p +:+ ".delete") s = true ->
      find_file (p +:+ ".delete") (Files s') = find_file (p +:+ ".delete") (Files s))).
Proof. apply Delete_mem_marker_post. Qed.

Lemma Delete_companion_marker_witness :
  blocked "d/a" fs_marked_file = false /\
  exists s',
    Delete "d/a" fs_marked_file = (Returned tt, s') /\
    FileExists "d/a" s' = false /\
    (blocked "d/a.delete" fs_marked_file = false -> FileExists "d/a.delete" s' = false) /\
    (blocked "d/a.delete" fs_marked_file = true ->
     find_file "d/a.delete" (Files s') = find_file "d/a.delete" (Files fs_marked_file)).
Proof.
  split; [reflexivity|].
  exact (proj2 (Delete_companion_marker fs_marked_file "d/a") eq_refl).
Defined.

(** C10, as the claim states it, fails: the primary deletion succeeds, the
    deletion of the marker fails and is swallowed, and the marker stays. *)
Lemma TryDelete_leaves_undeletable_marker :
  FileExists "d/a" fs_locked_marker = true /\
  TryDelete "d/a" fs_locked_marker
    = (Returned tt, mkFS [("d/a.delete", undeletable "77" 2 2)] ["d"] [] 100).
Proof. vm_compute. split; reflexivity. Qed.

(** C10 (amended). For an existing path whose deletion succeeds,
    [TryDelete] returns, the path is gone, and through [Delete] the
    companion marker is gone as well whenever its own deletion succeeds;
    a marker whose deletion fails is kept as it was, without an error. *)
Theorem TryDelete_removes_marker (s : MemFS) (p : string) :
  FileExists p s = true ->
  blocked p s = false ->
  exists s',
    TryDelete p s = (Returned tt, s') /\
    FileExists p s' = false /\
    (blocked (p +:+ ".delete") s = false -> FileExists (p +:+ ".delete") s' = false) /\
    (blocked (p +:+ ".delete") s = true ->
     find_file (p +:+ ".delete") (Files s') = find_file (p +:+ ".delete") (Files s)).
Proof.
  intros Hex Hb.
  destruct (proj2 (Delete_mem_marker_post s p) Hb) as (s' & HD & Hpost).
  exists s'. split; [|done].
  unfold TryDelete, bind, gets, when. rewrite Hex.
  unfold try_catch. by rewrite HD.
Qed.

Lemma TryDelete_removes_marker_witness :
  FileExists "d/a" fs_marked_file = true /\
  blocked "d/a" fs_marked_file = false /\
  exists s',
    TryDelete "d/a" fs_marked_file = (Returned tt, s') /\
    FileExists "d/a" s' = false /\
    (blocked "d/a.delete" fs_marked_file = false -> FileExists "d/a.delete" s' = false) /\
    (blocked "d/a.delete" fs_marked_file = true ->
     find_file "d/a.delete" (Files s') = find_file "d/a.delete" (Files fs_marked_file)).
Proof.
  split; [reflexivity|]. split; [reflexivity|].
  exact (TryDelete_removes_marker fs_marked_file "d/a" eq_refl eq_refl).
Defined.

(** ** Loops *)

Lemma for_loop_foreach {FS} (files : list TemporaryFileInfo)
    (g : TemporaryFileInfo -> M FS unit) (n k : nat) (s : FS) :
  (k + n <= length files)%nat ->
  for_loop n (Z.of_nat k)
    (fun i => match files !! Z.to_nat i with
              | Some fi => g fi
              | None => raise IndexOutOfRangeException
              end) s
  = foreach (take n (drop k files)) g s.
Proof.
  revert k s. induction n as [|n IH]; intros k s Hlen; simpl.
  - done.
  - destruct (lookup_lt_is_Some_2 files k) as [fi Hfi]; [lia|].
    rewrite (drop_S _ _ _ Hfi). simpl.
    unfold bind. rewrite Nat2Z.id, Hfi.
    destruct (g fi s) as [[[]|e] s']; [|done].
    replace (Z.of_nat k + 1) with (Z.of_nat (S k)) by lia.
    apply IH. lia.
Qed.

(** whatever the file system does, a failing deletion does not leave the
    body of the passes, and the loop goes on to the end *)
Lemma deleteUnlessCheckFile_returns {FS} `{ITemporaryFileSystem FS} chk fi (s : FS) :
  exists s', deleteUnlessCheckFile chk fi s = (Returned tt, s').
Proof.
  unfold deleteUnlessCheckFile, when, try_catch.
  destruct (negb (EqualsIgnoreCase chk (Name fi))); [|by eexists].
  destruct (DeleteFile (FullName fi) s) as [[[]|e] s']; by eexists.
Qed.

Lemma foreach_deleteUnlessCheckFile_returns {FS} `{ITemporaryFileSystem FS} chk
    (l : list TemporaryFileInfo) (s : FS) :
  exists s', foreach l (deleteUnlessCheckFile chk) s = (Returned tt, s').
Proof.
  revert s. induction l as [|fi l IH]; intros s; [by eexists|].
  simpl. unfold bind.
  destruct (deleteUnlessCheckFile_returns chk fi s) as [s1 ->]. apply IH.
Qed.

(** an error of the age-based pass comes from the expiry limit or from the
    enumeration *)
Lemma age_pass_raises {FS} `{ITemporaryFileSystem FS} d chk aet maxf now
    (s s' : FS) e :
  when (negb (aet =? 0) && negb (maxf =? 0))%bool
    (autoExpireLimit <- lift (DateTime_Subtract now aet) ;;
     infos <- GetTemporaryFileInfos d ;;
     foreach (filter (fun fi => CreationTime fi < autoExpireLimit) infos)
       (deleteUnlessCheckFile chk)) s = (Raised e, s') ->
  DateTime_Subtract now aet = Raised e \/
  GetTemporaryFileInfos d s = (Raised e, s').
Proof.
  unfold when. destruct (_ && _)%bool; [|done]. unfold bind at 1. unfold lift.
  destruct (DateTime_Subtract now aet) as [limit|e0]; [|intros [= -> ->]; by left].
  unfold bind. intros Hrun. right.
  destruct (GetTemporaryFileInfos d s) as [[infos|e1] s1];
    [|by injection Hrun as -> ->].
  by destruct (foreach_deleteUnlessCheckFile_returns chk
                 (filter (fun fi => CreationTime fi < limit) infos) s1)
    as [s2 Hs2]; rewrite Hs2 in Hrun.
Qed.

(** an error of the count-based pass is an error of its enumeration: the
    loop stays within the array *)
Lemma count_pass_raises {FS} `{ITemporaryFileSystem FS} d chk maxf (s s' : FS) e :
  when (0 <=? maxf)
    (files <- GetTemporaryFileInfos d ;;
     when (maxf <? Z.of_nat (length files))
       (for_loop
          (Z.to_nat
             (Z.of_nat
                (length (if negb (maxf =? 0)
                         then Array_Sort byCreationTime files else files))
              - maxf)) 0
          (fun i =>
             match (if negb (maxf =? 0)
                    then Array_Sort byCreationTime files else files)
                   !! Z.to_nat i with
             | Some fi => deleteUnlessCheckFile chk fi
             | None => raise IndexOutOfRangeException
             end))) s = (Raised e, s') ->
  GetTemporaryFileInfos d s = (Raised e, s').
Proof.
  unfold when at 1. destruct (0 <=? maxf) eqn:Hmax; [|done]. unfold bind.
  destruct (GetTemporaryFileInfos d s) as [[files|e0] s1];
    [|by intros [= -> ->]].
  unfold when. destruct (maxf <? _) eqn:Hcount; [|done].
  set (sorted := if negb (maxf =? 0) then _ else _).
  rewrite (for_loop_foreach sorted (deleteUnlessCheckFile chk) _ 0); [|lia].
  by destruct (foreach_deleteUnlessCheckFile_returns chk
                 (take (Z.to_nat (Z.of_nat (length sorted) - maxf)) (drop 0 sorted)) s1)
    as [s2 ->].
Qed.

(** whatever the file system, an error of [PurgeDirectory] is the error of
    the expiry limit or an error raised by [GetTemporaryFileInfos] *)
Lemma PurgeDirectory_raises_enumeration {FS} `{ITemporaryFileSystem FS}
    d aet maxf chk now (s s' : FS) e :
  PurgeDirectory d aet maxf chk now s = (Raised e, s') ->
  DateTime_Subtract now aet = Raised e \/
  exists s0, GetTemporaryFileInfos d s0 = (Raised e, s').
Proof.
  unfold PurgeDirectory. unfold bind at 1. unfold gets.
  destruct (_ && _)%bool; [done|].
  unfold bind at 1.
  destruct (when (negb (aet =? 0) && negb (maxf =? 0))%bool _ s)
    as [[[]|e0] s1] eqn:Hage.
  - intros Hcount. right. exists s1. by apply count_pass_raises in Hcount.
  - intros [= -> ->]. apply age_pass_raises in Hage as [?|?]; [by left|].
    right. by exists s.
Qed.

Lemma foreach_deleteUnlessCheckFile chk (l : list TemporaryFileInfo) (s : MemFS) :
  foreach l (deleteUnlessCheckFile chk) s
  = (Returned tt, delete_each (candidates chk l) s).
Proof.
  revert s. induction l as [|fi l IH]; intros s; [done|].
  simpl. unfold bind, deleteUnlessCheckFile at 1, when, candidates.
  rewrite filter_cons.
  destruct (EqualsIgnoreCase chk (Name fi)) eqn:Hc; simpl.
  - apply IH.
  - rewrite try_DeleteFile_mem. apply IH.
Qed.

(** ** Deleting a list of paths *)

Lemma set_files_id s : set_files (fun l => l) s = s.
Proof. by destruct s. Qed.

Lemma filter_true_id {A} (P : A -> Prop) `{forall x, Decision (P x)} (l : list A) :
  (forall x, x ∈ l -> P x) -> filter P l = l.
Proof.
  induction l as [|x l IH]; intros HP; [done|].
  rewrite filter_cons, decide_True by (apply HP, list_elem_of_here).
  f_equal. apply IH. intros y Hy. apply HP. by apply list_elem_of_further.
Qed.

Lemma filter_ext_in {A} (P Q : A -> Prop) `{forall x, Decision (P x)}
    `{forall x, Decision (Q x)} (l : list A) :
  (forall x, x ∈ l -> P x <-> Q x) -> filter P l = filter Q l.
Proof.
  induction l as [|x l IH]; intros HPQ; [done|].
  rewrite !filter_cons.
  assert (Hx : P x <-> Q x) by apply HPQ, list_elem_of_here.
  assert (Hl : filter P l = filter Q l).
  { apply IH. intros y Hy. apply HPQ. by apply list_elem_of_further. }
  destruct (decide (P x)), (decide (Q x)); rewrite ?Hl; tauto.
Qed.

Lemma blocked_remove_ne p q s :
  q <> p -> blocked q (set_files (remove_file p) s) = blocked q s.
Proof. intros. unfold blocked. simpl. by rewrite find_file_remove_ne. Qed.

Lemma delete_quiet_without p s : delete_quiet p s = without [p] s.
Proof.
  unfold delete_quiet, without.
  destruct (find_file p (Files s)) as [f|] eqn:Hp.
  - destruct (DenyDelete f) eqn:Hd.
    + rewrite <- (set_files_id s) at 1. destruct s as [fl ds dl cl].
      unfold set_files; simpl in *. f_equal. symmetry. apply filter_true_id.
      intros [q g] Hq [Hin Hb]. simpl in *.
      apply list_elem_of_singleton in Hin. subst q.
      unfold blocked in Hb. simpl in Hb. rewrite Hp in Hb. congruence.
    + destruct s as [fl ds dl cl]. unfold set_files; simpl in *. f_equal.
      unfold remove_file. apply filter_ext_in. intros [q g] Hq. simpl.
      rewrite list_elem_of_singleton. unfold blocked. simpl.
      split.
      * intros Hne [-> _]. done.
      * intros Hn ->. apply Hn. split; [done|]. by rewrite Hp.
  - rewrite <- (set_files_id s) at 1. destruct s as [fl ds dl cl].
    unfold set_files; simpl in *. f_equal. symmetry. apply filter_true_id.
    intros [q g] Hq [Hin Hb]. simpl in *.
    apply list_elem_of_singleton in Hin. subst q.
    apply find_file_None in Hp. apply Hp.
    apply list_elem_of_fmap. by exists (p, g).
Qed.

Lemma blocked_without q ps s :
  ~ (q ∈ ps /\ blocked q s = false) -> blocked q (without ps s) = blocked q s.
Proof.
  intros Hq. unfold blocked, without. simpl.
  induction (Files s) as [|[k f] l IH]; [done|].
  rewrite filter_cons. simpl.
  destruct (decide (k = q)) as [->|Hk].
  - rewrite decide_True by done. simpl. by rewrite decide_True.
  - case_decide; simpl; [by rewrite decide_False|done].
Qed.

Lemma without_without p ps s :
  without ps (without [p] s) = without (p :: ps) s.
Proof.
  unfold without at 1 3. unfold set_files. simpl. f_equal.
  rewrite list_filter_filter. apply filter_ext_in.
  intros [q g] Hq. simpl. rewrite list_elem_of_singleton, elem_of_cons.
  split.
  - intros [H1 H2] [[->|Hin] Hb]; [tauto|].
    apply H1. split; [done|]. rewrite blocked_without; [done|].
    rewrite list_elem_of_singleton. tauto.
  - intros Hn. split.
    + intros [Hin Hb].
      destruct (blocked q s) eqn:Hbq; [|apply Hn; split; [by right|done]].
      rewrite blocked_without in Hb; [congruence|].
      intros [_ ?]. congruence.
    + intros [-> Hb]. apply Hn. by split; [left|].
Qed.

Lemma without_nil s : without [] s = s.
Proof.
  rewrite <- (set_files_id s) at 2. destruct s as [fl ds dl cl].
  unfold without, set_files; simpl. f_equal. apply filter_true_id.
  intros e _ [Hin _]. by apply not_elem_of_nil in Hin.
Qed.

Lemma delete_each_without ps s : delete_each ps s = without ps s.
Proof.
  revert s. induction ps as [|p ps IH]; intros s; simpl.
  - by rewrite without_nil.
  - change (delete_each ps (delete_quiet p s) = without (p :: ps) s).
    rewrite IH, delete_quiet_without. apply without_without.
Qed.

Lemma find_file_filter_keys (Q : string -> Prop) `{forall x, Decision (Q x)} q l :
  find_file q (filter (fun e => Q e.1) l) = if decide (Q q) then find_file q l else None.
Proof.
  induction l as [|[k f] l IH]; simpl; [by case_decide|].
  rewrite filter_cons. simpl.
  destruct (decide (k = q)) as [->|Hk].
  - destruct (decide (Q q)); simpl; [by rewrite decide_True|done].
  - destruct (decide (Q k)); simpl; [by rewrite decide_False|done].
Qed.

Lemma find_file_without q ps s :
  find_file q (Files (without ps s)) =
    if decide (q ∈ ps /\ blocked q s = false) then None else find_file q (Files s).
Proof.
  unfold without. simpl.
  pose proof (find_file_filter_keys
                (fun k => ~ (k ∈ ps /\ blocked k s = false)) q (Files s)) as Hf.
  simpl in Hf. rewrite Hf. clear Hf.
  destruct (decide (q ∈ ps /\ blocked q s = false)).
  - by rewrite decide_False by tauto.
  - by rewrite decide_True.
Qed.

Lemma entries_filter_keys (Q : string -> Prop) `{forall x, Decision (Q x)} d
    (l : list (string * FileData)) :
  info_of <$> filter (fun e => in_directory d e.1) (filter (fun e => Q e.1) l)
  = filter (fun fi => Q (FullName fi))
      (info_of <$> filter (fun e => in_directory d e.1) l).
Proof.
  induction l as [|e l IH]; [done|].
  rewrite !filter_cons.
  destruct (decide (Q e.1)) as [Hk|Hk].
  - rewrite filter_cons. destruct (decide (in_directory d e.1)); [|done].
    csimpl. rewrite filter_cons. simpl. rewrite decide_True by done.
    f_equal. exact IH.
  - destruct (decide (in_directory d e.1)); [|done].
    csimpl. rewrite filter_cons. simpl. by rewrite decide_False.
Qed.

Lemma entries_without d ps s :
  entries d (without ps s) =
    filter (fun fi => ~ (FullName fi ∈ ps /\ blocked (FullName fi) s = false))
      (entries d s).
Proof.
  unfold entries, without. simpl.
  exact (entries_filter_keys
           (fun k => ~ (k ∈ ps /\ blocked k s = false)) d (Files s)).
Qed.

Lemma listable_without d ps s : listable d (without ps s) = listable d s.
Proof. done. Qed.

Lemma elem_of_candidates chk l p :
  p ∈ candidates chk l <->
  exists fi, fi ∈ l /\ FullName fi = p /\ EqualsIgnoreCase chk (Name fi) = false.
Proof.
  unfold candidates. rewrite list_elem_of_fmap.
  split.
  - intros (fi & -> & Hfi). apply list_elem_of_filter in Hfi as [Hc Hfi]. eauto.
  - intros (fi & Hfi & <- & Hc). exists fi. split; [done|].
    by apply list_elem_of_filter.
Qed.

Lemma elem_of_entries d s fi :
  fi ∈ entries d s <->
  exists p f, (p, f) ∈ Files s /\ in_directory d p /\ fi = info_of (p, f).
Proof.
  unfold entries. rewrite list_elem_of_fmap. split.
  - intros ([p f] & -> & He). apply list_elem_of_filter in He as [Hd He]. eauto.
  - intros (p & f & He & Hd & ->). exists (p, f). split; [done|].
    by apply list_elem_of_filter.
Qed.

(** ** Array.Sort with the comparison of the count-based pass *)

Lemma insert_sorted_perm {A} (cmp : A -> A -> Z) t r :
  insert_sorted cmp t r ≡ₚ t :: r.
Proof.
  induction r as [|k r IH]; simpl; [done|].
  destruct (cmp t k <? 0); [|done]. rewrite IH. apply Permutation_swap.
Qed.

Lemma fold_insert_perm {A} (cmp : A -> A -> Z) l acc :
  fold_left (fun rkeys t => insert_sorted cmp t rkeys) l acc ≡ₚ l ++ acc.
Proof.
  revert acc. induction l as [|x l IH]; intros acc; simpl; [done|].
  rewrite IH, insert_sorted_perm. by rewrite Permutation_middle.
Qed.

Lemma Array_Sort_perm {A} (cmp : A -> A -> Z) l : Array_Sort cmp l ≡ₚ l.
Proof.
  unfold Array_Sort. rewrite reverse_Permutation, fold_insert_perm.
  by rewrite app_nil_r.
Qed.

Lemma Array_Sort_length {A} (cmp : A -> A -> Z) l :
  length (Array_Sort cmp l) = length l.
Proof. apply Permutation_length, Array_Sort_perm. Qed.

(** ** PurgeDirectory on the in-memory file system *)

Lemma listable_delete_each d ps s : listable d (delete_each ps s) = listable d s.
Proof. by rewrite delete_each_without. Qed.

Lemma DateTime_Subtract_valid now aet :
  0 <= now - aet <= MaxTicks -> DateTime_Subtract now aet = Returned (now - aet).
Proof.
  intros Hr. unfold DateTime_Subtract.
  destruct (Z.ltb_spec (now - aet) 0); [lia|].
  destruct (Z.ltb_spec MaxTicks (now - aet)); [lia|done].
Qed.

Lemma DateTime_Subtract_Returned now aet limit :
  DateTime_Subtract now aet = Returned limit -> limit = now - aet.
Proof.
  unfold DateTime_Subtract. destruct (_ || _)%bool; [done|]. by intros [= <-].
Qed.

Lemma age_pass_run d chk aet maxf now (s : MemFS) :
  when (negb (aet =? 0) && negb (maxf =? 0))%bool
    (autoExpireLimit <- lift (DateTime_Subtract now aet) ;;
     infos <- GetTemporaryFileInfos d ;;
     foreach (filter (fun fi => CreationTime fi < autoExpireLimit) infos)
       (deleteUnlessCheckFile chk)) s
  = if expiry_fails aet maxf now
    then (Raised ArgumentOutOfRangeException, s)
    else if (age_enabled aet maxf && negb (listable d s))%bool
         then (Raised DirectoryNotFoundException, s)
         else (Returned tt, age_pass d chk aet maxf now s).
Proof.
  unfold when, age_pass, expiry_fails, age_enabled.
  destruct (negb (aet =? 0) && negb (maxf =? 0))%bool; [|done].
  cbn [andb]. unfold bind at 1. unfold lift.
  destruct (DateTime_Subtract now aet) as [limit|e0] eqn:Hlimit.
  - apply DateTime_Subtract_Returned in Hlimit as ->.
    simpl. unfold bind, mem_GetTemporaryFileInfos.
    destruct (listable d s); [|done]. simpl.
    apply foreach_deleteUnlessCheckFile.
  - unfold DateTime_Subtract in Hlimit.
    destruct (_ || _)%bool; [by injection Hlimit as <-|done].
Qed.

Lemma count_pass_run d chk maxf (s : MemFS) :
  when (0 <=? maxf)
    (files <- GetTemporaryFileInfos d ;;
     when (maxf <? Z.of_nat (length files))
       (for_loop
          (Z.to_nat
             (Z.of_nat
                (length (if negb (maxf =? 0)
                         then Array_Sort byCreationTime files else files))
              - maxf)) 0
          (fun i =>
             match (if negb (maxf =? 0)
                    then Array_Sort byCreationTime files else files)
                   !! Z.to_nat i with
             | Some fi => deleteUnlessCheckFile chk fi
             | None => raise IndexOutOfRangeException
             end))) s
  = if ((0 <=? maxf) && negb (listable d s))%bool
    then (Raised DirectoryNotFoundException, s)
    else (Returned tt, count_pass d chk maxf s).
Proof.
  unfold count_pass. unfold when at 1.
  destruct (0 <=? maxf) eqn:Hmax; [|done].
  simpl. unfold bind, mem_GetTemporaryFileInfos.
  destruct (listable d s); [|done]. simpl.
  unfold when. destruct (maxf <? _) eqn:Hcount; [|done].
  set (files := if negb (maxf =? 0) then _ else _).
  assert (Hlen : length files = length (entries d s)).
  { subst files. destruct (negb (maxf =? 0)); [apply Array_Sort_length|done]. }
  rewrite Hlen.
  rewrite (for_loop_foreach files (deleteUnlessCheckFile chk) _ 0); [|lia].
  rewrite drop_0. apply foreach_deleteUnlessCheckFile.
Qed.

(** the call in closed form: it returns with the state untouched when the
    sentinel check fails or no pass is enabled, raises when the expiry
    limit is not a date or the directory cannot be enumerated, and
    otherwise runs the two passes *)
Lemma PurgeDirectory_mem d aet maxf chk now (s : MemFS) :
  PurgeDirectory d aet maxf chk now s =
    if (gate_open d chk s && expiry_fails aet maxf now)%bool
    then (Raised ArgumentOutOfRangeException, s)
    else if negb (enumerates d chk aet maxf now s) then (Returned tt, s)
    else if listable d s
         then (Returned tt,
               count_pass d (check_name chk) maxf
                 (age_pass d (check_name chk) aet maxf now s))
         else (Raised DirectoryNotFoundException, s).
Proof.
  unfold PurgeDirectory, enumerates, gate_open.
  unfold bind at 1. unfold gets.
  change (@GetFileName MemFS MemFS_fs chk) with (mem_GetFileName chk).
  replace (if negb (Nat.eqb (String.length chk) 0)
           then Trim (mem_GetFileName chk) else chk)
    with (check_name chk) by (unfold check_name; by destruct (Nat.eqb _ 0)).
  assert (Hgate :
    (negb (Nat.eqb (String.length chk) 0)
     && negb (FileExists (Combine d (check_name chk)) s))%bool
    = negb (Nat.eqb (String.length chk) 0
            || FileExists (Combine d (Trim (mem_GetFileName chk))) s)%bool).
  { unfold check_name. by destruct (Nat.eqb _ 0). }
  rewrite Hgate. clear Hgate.
  destruct (Nat.eqb (String.length chk) 0 || _)%bool; [|done].
  cbn [negb andb]. unfold bind at 1. rewrite age_pass_run.
  destruct (expiry_fails aet maxf now) eqn:Hexp; [done|]. cbn [negb andb].
  unfold age_enabled.
  destruct (negb (aet =? 0) && negb (maxf =? 0))%bool eqn:Hage; cbn [andb orb negb].
  - destruct (listable d s) eqn:Hl; cbn [negb]; [|done].
    rewrite count_pass_run. unfold age_pass at 1. rewrite Hage.
    by rewrite listable_delete_each, Hl, andb_false_r.
  - rewrite count_pass_run. unfold age_pass. rewrite Hage.
    destruct (0 <=? maxf) eqn:Hmax; cbn [andb negb]; [by destruct (listable d s)|].
    unfold count_pass. by rewrite Hmax.
Qed.

(** ** Paths *)

Lemma split_path_no_slash n : no_slash n -> split_path n = (None, n).
Proof.
  induction n as [|c n IH]; simpl; [done|].
  intros [Hc Hn]. rewrite (IH Hn).
  destruct (Ascii.eqb_spec c "/"); [done|done].
Qed.

Lemma split_path_join d n :
  no_slash n -> split_path (d +:+ String "/" n) = (Some d, n).
Proof.
  intros Hn. induction d as [|c d IH]; simpl.
  - by rewrite (split_path_no_slash n Hn).
  - by rewrite IH.
Qed.

Lemma split_path_name_no_slash p : no_slash (split_path p).2.
Proof.
  induction p as [|c p IH]; simpl; [done|].
  destruct (split_path p) as [[d|] n]; simpl in *; [done|].
  destruct (Ascii.eqb_spec c "/"); simpl; [done|]. by split.
Qed.

Lemma split_path_dir_shorter p d :
  (split_path p).1 = Some d -> (String.length d < String.length p)%nat.
Proof.
  revert d. induction p as [|c p IH]; intros d; simpl; [done|].
  destruct (split_path p) as [[d'|] n]; simpl in *.
  - intros [= <-]. simpl. specialize (IH d' eq_refl). lia.
  - destruct (Ascii.eqb c "/"); simpl; [|done]. intros [= <-]. simpl. lia.
Qed.

Lemma no_slash_TrimStart s : no_slash s -> no_slash (TrimStart s).
Proof.
  induction s as [|c s IH]; simpl; [done|].
  intros [Hc Hs]. destruct (is_white c); [by apply IH|by split].
Qed.

Lemma no_slash_TrimEnd s : no_slash s -> no_slash (TrimEnd s).
Proof.
  induction s as [|c s IH]; simpl; [done|].
  intros [Hc Hs]. specialize (IH Hs).
  destruct (TrimEnd s); [destruct (is_white c)|]; simpl; auto.
Qed.

Lemma no_slash_check_name chk : no_slash (Trim (mem_GetFileName chk)).
Proof.
  apply no_slash_TrimEnd, no_slash_TrimStart, split_path_name_no_slash.
Qed.

Lemma EqualsIgnoreCase_refl a : EqualsIgnoreCase a a = true.
Proof. apply String.eqb_refl. Qed.

Lemma in_directory_Combine d n :
  no_slash n -> n <> "" ->
  in_directory d (mem_Combine d n) /\ mem_GetFileName (mem_Combine d n) = n.
Proof.
  intros Hn Hne. unfold in_directory, mem_GetDirectoryName, mem_GetFileName.
  destruct n as [|c n]; [done|].
  change (mem_Combine d (String c n)) with (d +:+ String "/" (String c n)).
  by rewrite split_path_join.
Qed.

(** ** What a pass may try to delete *)

Lemma from_dir_entries d s : from_dir d (entries d s).
Proof.
  intros fi Hfi. apply elem_of_entries in Hfi as (p & f & _ & Hd & ->). done.
Qed.

Lemma from_dir_subseteq d l1 l2 : l1 ⊆ l2 -> from_dir d l2 -> from_dir d l1.
Proof. intros Hsub Hl fi Hfi. apply Hl, Hsub, Hfi. Qed.

Lemma candidates_in_directory d chk l p :
  from_dir d l -> p ∈ candidates chk l ->
  in_directory d p /\ EqualsIgnoreCase chk (mem_GetFileName p) = false.
Proof.
  intros Hl Hp. apply elem_of_candidates in Hp as (fi & Hfi & <- & Hc).
  destruct (Hl fi Hfi) as [Hn Hd]. split; [done|]. by rewrite <- Hn.
Qed.

(** the sentinel file itself is never handed to [DeleteFile] *)
Lemma sentinel_not_candidate d chk l :
  from_dir d l ->
  mem_Combine d (Trim (mem_GetFileName chk))
    ∉ candidates (Trim (mem_GetFileName chk)) l.
Proof.
  intros Hl Hp. apply (candidates_in_directory d) in Hp as [Hd Hc]; [|done].
  destruct (Trim (mem_GetFileName chk)) as [|c n] eqn:Hn.
  - simpl in Hd. apply split_path_dir_shorter in Hd. lia.
  - destruct (in_directory_Combine d (String c n)) as [_ Hname]; [|done|].
    + rewrite <- Hn. apply no_slash_check_name.
    + rewrite Hname, EqualsIgnoreCase_refl in Hc. done.
Qed.

Lemma blocked_all_deletable d s p :
  all_deletable d s -> in_directory d p -> blocked p s = false.
Proof.
  intros Hall Hd. unfold blocked.
  destruct (find_file p (Files s)) as [f|] eqn:Hf; [|done].
  apply (Hall p f); [by apply find_file_Some_elem|done].
Qed.

(** with every deletion succeeding, a pass leaves exactly the files it
    did not hand to [DeleteFile] *)
Lemma without_all_deletable d chk l s :
  all_deletable d s -> from_dir d l ->
  without (candidates chk l) s
  = set_files (filter (fun e => e.1 ∉ candidates chk l)) s.
Proof.
  intros Hall Hl. unfold without, set_files. f_equal.
  apply filter_ext_in. intros [p f] Hp. simpl.
  split.
  - intros Hn Hin. apply Hn. split; [done|].
    apply (blocked_all_deletable d); [done|].
    by apply (candidates_in_directory d chk l).
  - intros Hn [Hin _]. done.
Qed.

Lemma elem_of_candidates_entries d chk s p f :
  (p, f) ∈ Files s ->
  p ∈ candidates chk (entries d s) <->
  in_directory d p /\ EqualsIgnoreCase chk (mem_GetFileName p) = false.
Proof.
  intros Hp. split.
  - apply candidates_in_directory, from_dir_entries.
  - intros [Hd Hc]. apply elem_of_candidates. exists (info_of (p, f)).
    split; [|done]. apply elem_of_entries. eauto.
Qed.

Lemma check_name_nonempty chk :
  chk <> "" -> check_name chk = Trim (mem_GetFileName chk).
Proof. unfold check_name. by destruct chk. Qed.

Lemma gate_open_true d chk (s : MemFS) :
  FileExists (Combine d (Trim (GetFileName chk))) s = true -> gate_open d chk s = true.
Proof. intros Hex. unfold gate_open. rewrite Hex. apply orb_true_r. Qed.

(** the call in closed form when the sentinel is there, the expiry limit
    (if needed) is a date and the directory can be enumerated *)
Lemma PurgeDirectory_mem_runs d aet maxf chk now (s : MemFS) :
  chk <> "" ->
  FileExists (Combine d (Trim (GetFileName chk))) s = true ->
  expiry_fails aet maxf now = false ->
  listable d s = true ->
  PurgeDirectory d aet maxf chk now s =
    (Returned tt,
     count_pass d (Trim (mem_GetFileName chk)) maxf
       (age_pass d (Trim (mem_GetFileName chk)) aet maxf now s)).
Proof.
  intros Hne Hex Hexp Hl.
  rewrite PurgeDirectory_mem. unfold enumerates.
  rewrite (gate_open_true d chk s Hex), Hexp, Hl, check_name_nonempty by done.
  cbn [andb negb].
  destruct (age_enabled aet maxf || (0 <=? maxf))%bool eqn:Hpass; [done|].
  cbn [negb]. apply orb_false_iff in Hpass as [Hage Hmax].
  unfold age_pass, count_pass. unfold age_enabled in Hage. by rewrite Hage, Hmax.
Qed.

Lemma FileExists_find p (s : MemFS) :
  FileExists p s = true -> exists f, find_file p (Files s) = Some f.
Proof.
  simpl. unfold mem_FileExists.
  destruct (find_file p (Files s)) as [f|]; [eauto|done].
Qed.

(** ** The count-based pass with a cap of zero *)

(** C8. With the sentinel present and [maxFilesInDirectory = 0] (the
    directory can be enumerated and every deletion succeeds),
    [PurgeDirectory] does the same for every [autoExpireTime] and clock as
    for [autoExpireTime = 0], where there is no age-based pass, and what it
    leaves is exactly the files outside the directory and the files of the
    directory whose name equals the sentinel name ignoring case: the
    sentinel file is still there and every remaining entry of the
    directory bears the sentinel name. *)
Theorem PurgeDirectory_max_zero (s : MemFS) (d : string) (aet : TimeSpan)
    (chk : string) (now : DateTime) :
  chk <> "" ->
  FileExists (Combine d (Trim (GetFileName chk))) s = true ->
  listable d s = true ->
  all_deletable d s ->
  let sentinel := Trim (mem_GetFileName chk) in
  let s' :=
    set_files
      (filter (fun e => ~ in_directory d e.1 \/
                        EqualsIgnoreCase sentinel (mem_GetFileName e.1) = true)) s in
  PurgeDirectory d aet 0 chk now s = (Returned tt, s') /\
  PurgeDirectory d aet 0 chk now s = PurgeDirectory d 0 0 chk 0 s /\
  FileExists (Combine d sentinel) s' = true /\
  (forall fi, fi ∈ entries d s' -> EqualsIgnoreCase sentinel (Name fi) = true).
Proof.
  intros Hne Hex Hl Hall sentinel s'.
  assert (Hrun : forall aet' now',
    PurgeDirectory d aet' 0 chk now' s = (Returned tt, s')).
  { intros aet' now'. rewrite PurgeDirectory_mem_runs; try done;
      [|unfold expiry_fails, age_enabled; by rewrite andb_false_r].
    f_equal. fold sentinel. unfold age_pass. rewrite andb_false_r.
    assert (Hall' : without (candidates sentinel (entries d s)) s = s').
    { rewrite (without_all_deletable d) by (done || apply from_dir_entries).
      unfold s', set_files. f_equal. apply filter_ext_in. intros [p f] Hp. simpl.
      rewrite (elem_of_candidates_entries d sentinel s p f Hp).
      destruct (EqualsIgnoreCase sentinel (mem_GetFileName p));
        destruct (decide (in_directory d p)); intuition congruence. }
    unfold count_pass, count_pass_order. simpl (0 <=? 0). cbn [andb negb].
    destruct (0 <? Z.of_nat (length (entries d s))) eqn:Hcount.
    - rewrite Z.sub_0_r, Nat2Z.id, firstn_all, delete_each_without. done.
    - rewrite <- Hall'. apply Z.ltb_ge in Hcount.
      destruct (entries d s); [|cbn [length] in Hcount; lia].
      by rewrite without_nil. }
  split; [apply Hrun|]. split; [by rewrite !Hrun|]. split.
  - simpl. unfold mem_FileExists, s'. simpl.
    pose proof (find_file_filter_keys
      (fun k => ~ in_directory d k \/
                EqualsIgnoreCase sentinel (mem_GetFileName k) = true)
      (mem_Combine d sentinel) (Files s)) as Hf. simpl in Hf. rewrite Hf.
    rewrite decide_True; [exact Hex|].
    destruct (decide (in_directory d (mem_Combine d sentinel))) as [Hd|Hd]; [|by left].
    right. destruct (EqualsIgnoreCase sentinel _) eqn:Hc; [done|].
    exfalso. apply (sentinel_not_candidate d chk (entries d s)).
    + apply from_dir_entries.
    + fold sentinel.
      destruct (FileExists_find _ _ Hex) as [f Hfind].
      apply (elem_of_candidates_entries d sentinel s _ f).
      * by apply find_file_Some_elem.
      * done.
  - intros fi Hfi. apply elem_of_entries in Hfi as (p & f & Hp & Hd & ->).
    unfold s' in Hp. simpl in Hp. apply list_elem_of_filter in Hp as [[Hn|Hc] _]; done.
Qed.

Lemma PurgeDirectory_max_zero_witness :
  PurgeDirectory "d" 7 0 ".temporary" 100 fs_temp
  = (Returned tt,
     mkFS [("d/.temporary", plain "" 0 0); ("e/keep", plain "z" 1 1)]
          ["d"; "e"] [] 100).
Proof.
  refine (proj1 (PurgeDirectory_max_zero fs_temp "d" 7 ".temporary" 100 _ _ _ _)).
  - discriminate.
  - reflexivity.
  - reflexivity.
  - intros p f Hp _. vm_compute in Hp.
    repeat (apply elem_of_cons in Hp as [Hp|Hp]; [by inversion Hp|]).
    by apply not_elem_of_nil in Hp.
Defined.

(** ** The age-based pass *)

Lemma find_file_without_None p ps s :
  find_file p (Files s) = None -> find_file p (Files (without ps s)) = None.
Proof. intros Hp. rewrite find_file_without. by case_decide. Qed.

Lemma find_file_without_keep p ps s :
  p ∉ ps -> find_file p (Files (without ps s)) = find_file p (Files s).
Proof. intros Hp. rewrite find_file_without. rewrite decide_False; [done|tauto]. Qed.

Lemma from_dir_count_pass_order d maxf l :
  from_dir d l -> from_dir d (count_pass_order maxf l).
Proof.
  unfold count_pass_order. destruct (negb (maxf =? 0)); [|done].
  intros Hl fi Hfi. apply Hl. by rewrite <- (Array_Sort_perm byCreationTime l).
Qed.

Lemma from_dir_take d n l : from_dir d l -> from_dir d (take n l).
Proof. apply from_dir_subseteq, subseteq_take. Qed.

Lemma from_dir_filter d (P : TemporaryFileInfo -> Prop) `{forall x, Decision (P x)} l :
  from_dir d l -> from_dir d (filter P l).
Proof.
  apply from_dir_subseteq. intros fi Hfi.
  by apply list_elem_of_filter in Hfi as [_ ?].
Qed.

(** each pass amounts to deleting some entries of the directory *)
Lemma count_pass_without d chk maxf s :
  exists l, from_dir d l /\ count_pass d chk maxf s = without (candidates chk l) s.
Proof.
  unfold count_pass. destruct (_ && _)%bool.
  - eexists. split; [|apply delete_each_without].
    apply from_dir_take, from_dir_count_pass_order, from_dir_entries.
  - exists []. split; [|by rewrite without_nil].
    intros fi Hfi. by apply not_elem_of_nil in Hfi.
Qed.

Lemma age_pass_without d chk aet maxf now s :
  exists l, from_dir d l /\ age_pass d chk aet maxf now s = without (candidates chk l) s.
Proof.
  unfold age_pass. destruct (_ && _)%bool.
  - eexists. split; [|apply delete_each_without].
    apply from_dir_filter, from_dir_entries.
  - exists []. split; [|by rewrite without_nil].
    intros fi Hfi. by apply not_elem_of_nil in Hfi.
Qed.

(** what no pass touches: the files of other directories, the files
    bearing the name of the check file, and the sentinel itself *)
Lemma without_candidates_frame d chk l s p :
  from_dir d l ->
  ~ in_directory d p \/ EqualsIgnoreCase chk (mem_GetFileName p) = true ->
  find_file p (Files (without (candidates chk l) s)) = find_file p (Files s).
Proof.
  intros Hl Hp. apply find_file_without_keep. intros Hin.
  apply (candidates_in_directory d) in Hin as [Hd Hc]; [|done].
  destruct Hp; [done|congruence].
Qed.

Lemma passes_frame d chk aet maxf now s p :
  ~ in_directory d p \/ EqualsIgnoreCase chk (mem_GetFileName p) = true ->
  find_file p (Files (count_pass d chk maxf (age_pass d chk aet maxf now s)))
  = find_file p (Files s).
Proof.
  intros Hp.
  destruct (age_pass_without d chk aet maxf now s) as (l1 & Hl1 & ->).
  destruct (count_pass_without d chk maxf (without (candidates chk l1) s))
    as (l2 & Hl2 & ->).
  by rewrite !(without_candidates_frame d).
Qed.

Lemma passes_sentinel d chk aet maxf now s :
  let sentinel := Trim (mem_GetFileName chk) in
  find_file (mem_Combine d sentinel)
    (Files (count_pass d sentinel maxf (age_pass d sentinel aet maxf now s)))
  = find_file (mem_Combine d sentinel) (Files s).
Proof.
  intros sentinel.
  destruct (age_pass_without d sentinel aet maxf now s) as (l1 & Hl1 & ->).
  destruct (count_pass_without d sentinel maxf (without (candidates sentinel l1) s))
    as (l2 & Hl2 & ->).
  rewrite !find_file_without_keep; [done| |]; by apply sentinel_not_candidate.
Qed.

(** an expired entry that is not the check file and whose deletion does
    not raise is gone after the age-based pass, whatever else fails *)
Lemma age_pass_deletes d chk aet maxf now s p f :
  aet <> 0 -> maxf <> 0 ->
  (p, f) ∈ Files s -> in_directory d p -> Created f < now - aet ->
  EqualsIgnoreCase chk (mem_GetFileName p) = false ->
  blocked p s = false ->
  find_file p (Files (age_pass d chk aet maxf now s)) = None.
Proof.
  intros Haet Hmax Hp Hd Hold Hc Hb. unfold age_pass.
  apply Z.eqb_neq in Haet, Hmax. rewrite Haet, Hmax. cbn [negb andb].
  rewrite delete_each_without, find_file_without, decide_True; [done|].
  split; [|done]. apply elem_of_candidates. exists (info_of (p, f)).
  split; [|done]. apply list_elem_of_filter. split; [done|].
  apply elem_of_entries. eauto.
Qed.

Lemma count_pass_keeps_None d chk maxf s p :
  find_file p (Files s) = None -> find_file p (Files (count_pass d chk maxf s)) = None.
Proof.
  intros Hp. destruct (count_pass_without d chk maxf s) as (l & _ & ->).
  by apply find_file_without_None.
Qed.

Lemma find_None_FileExists p (s : MemFS) :
  find_file p (Files s) = None -> FileExists p s = false.
Proof. simpl. unfold mem_FileExists. by intros ->. Qed.

Lemma FileExists_eq_find p (s1 s2 : MemFS) :
  find_file p (Files s1) = find_file p (Files s2) ->
  FileExists p s1 = FileExists p s2.
Proof. simpl. unfold mem_FileExists. by intros ->. Qed.

(** C6. With the sentinel present, [autoExpireTime] and
    [maxFilesInDirectory] both non-zero, the directory enumerable and
    every deletion succeeding, let [limit] be the date
    [DateTime.Now.Subtract(autoExpireTime)].  Then [PurgeDirectory] returns
    and every file of the directory created before [limit] is gone, except
    the files whose name equals the sentinel name ignoring case: these are
    kept as they were, whatever their age, and the sentinel file itself is
    still there. *)
Theorem PurgeDirectory_expired (s : MemFS) (d : string) (aet : TimeSpan)
    (maxf : Z) (chk : string) (now limit : DateTime) :
  chk <> "" ->
  FileExists (Combine d (Trim (GetFileName chk))) s = true ->
  aet <> 0 -> maxf <> 0 ->
  DateTime_Subtract now aet = Returned limit ->
  listable d s = true ->
  all_deletable d s ->
  let sentinel := Trim (mem_GetFileName chk) in
  exists s',
    PurgeDirectory d aet maxf chk now s = (Returned tt, s') /\
    (forall p f, (p, f) ∈ Files s -> in_directory d p ->
                 Created f < limit ->
                 EqualsIgnoreCase sentinel (mem_GetFileName p) = false ->
                 FileExists p s' = false) /\
    (forall p, EqualsIgnoreCase sentinel (mem_GetFileName p) = true ->
               find_file p (Files s') = find_file p (Files s)) /\
    FileExists (Combine d sentinel) s' = true.
Proof.
  intros Hne Hex Haet Hmax Hlimit Hl Hall sentinel.
  eexists. split; [|split; [|split]].
  - apply PurgeDirectory_mem_runs; try done.
    unfold expiry_fails. by rewrite Hlimit, andb_false_r.
  - apply DateTime_Subtract_Returned in Hlimit as ->.
    intros p f Hp Hd Hold Hc. apply find_None_FileExists, count_pass_keeps_None.
    apply (age_pass_deletes d sentinel aet maxf now s p f); try done.
    by apply (blocked_all_deletable d).
  - intros p Hc. apply passes_frame. by right.
  - rewrite <- Hex. apply FileExists_eq_find, passes_sentinel.
Qed.

Lemma PurgeDirectory_expired_witness :
  exists s',
    PurgeDirectory "d" 85 5 ".temporary" 100 fs_temp = (Returned tt, s') /\
    FileExists "d/a" s' = false /\
    FileExists "d/.temporary" s' = true.
Proof.
  destruct (PurgeDirectory_expired fs_temp "d" 85 5 ".temporary" 100 15)
    as (s' & Hrun & Hgone & _ & Hkept).
  - discriminate.
  - reflexivity.
  - discriminate.
  - discriminate.
  - reflexivity.
  - reflexivity.
  - intros p f Hp _. vm_compute in Hp.
    repeat (apply elem_of_cons in Hp as [Hp|Hp]; [by inversion Hp|]).
    by apply not_elem_of_nil in Hp.
  - exists s'. split; [exact Hrun|]. split; [|exact Hkept].
    apply (Hgone "d/a" (plain "x" 10 10)).
    + vm_compute. apply list_elem_of_further, list_elem_of_here.
    + reflexivity.
    + reflexivity.
    + reflexivity.
Defined.

(** ** Which failures reach the caller *)

Lemma count_pass_deletes d chk maxf s fi :
  fi ∈ take (Z.to_nat (Z.of_nat (length (entries d s)) - maxf))
         (count_pass_order maxf (entries d s)) ->
  0 <= maxf ->
  EqualsIgnoreCase chk (Name fi) = false ->
  blocked (FullName fi) s = false ->
  find_file (FullName fi) (Files (count_pass d chk maxf s)) = None.
Proof.
  intros Hfi Hmax Hc Hb. unfold count_pass.
  destruct (0 <=? maxf) eqn:H0; [|lia]. cbn [andb].
  destruct (maxf <? Z.of_nat (length (entries d s))) eqn:Hcount.
  - rewrite delete_each_without, find_file_without, decide_True; [done|].
    split; [|done]. apply elem_of_candidates. eauto.
  - apply Z.ltb_ge in Hcount.
    replace (Z.to_nat _) with 0%nat in Hfi by lia.
    rewrite take_0 in Hfi. by apply not_elem_of_nil in Hfi.
Qed.

Lemma expiry_fails_iff aet maxf now e :
  age_enabled aet maxf = true /\ DateTime_Subtract now aet = Raised e <->
  expiry_fails aet maxf now = true /\ e = ArgumentOutOfRangeException.
Proof.
  unfold expiry_fails, DateTime_Subtract.
  destruct (age_enabled aet maxf); cbn [andb]; [|by intuition].
  destruct (_ || _)%bool; split.
  - by intros [_ [= <-]].
  - by intros [_ ->].
  - by intros [_ ?].
  - by intros [? _].
Qed.

(** C9, as the claim states it, fails: with [autoExpireTime] at
    [TimeSpan.MaxValue] the expiry limit [DateTime.Now.Subtract
    (autoExpireTime)] is not a date, and [PurgeDirectory] raises although
    the directory can be enumerated. *)
Lemma PurgeDirectory_raises_on_expiry_limit :
  GetTemporaryFileInfos "d" fs_temp = (Returned (entries "d" fs_temp), fs_temp) /\
  PurgeDirectory "d" 9223372036854775807 5 ".temporary" 638000000000000000 fs_temp
    = (Raised ArgumentOutOfRangeException, fs_temp).
Proof. split; reflexivity. Qed.

(** C9 (amended). Whatever the file system implementation, an error that
    leaves [PurgeDirectory] is the error of computing the expiry limit
    [now - autoExpireTime] or an error raised by [GetTemporaryFileInfos],
    and the loop over the entries returns whatever [DeleteFile] does.  On
    the in-memory file system: [PurgeDirectory] raises exactly when the
    sentinel check lets it through and either the age-based pass is
    enabled and its expiry limit is not a date, or it gets as far as
    enumerating the directory and that enumeration raises; the error is
    the one of the step that failed.  When the limit is a date and the
    enumeration succeeds the call returns although deletions may raise, and
    each pass goes on past a failing deletion: every entry a pass selects
    that is not the check file and whose own deletion does not raise is
    gone afterwards. *)
Theorem PurgeDirectory_raises_iff :
  (forall (FS : Type) (I : ITemporaryFileSystem FS) d aet maxf chk now
          (s s' : FS) e,
     PurgeDirectory d aet maxf chk now s = (Raised e, s') ->
     DateTime_Subtract now aet = Raised e \/
     exists s0, GetTemporaryFileInfos d s0 = (Raised e, s')) /\
  (forall (FS : Type) (I : ITemporaryFileSystem FS) chk
          (l : list TemporaryFileInfo) (s : FS),
     exists s', foreach l (deleteUnlessCheckFile chk) s = (Returned tt, s')) /\
  forall (s : MemFS) (d : string) (aet : TimeSpan) (maxf : Z) (chk : string)
         (now : DateTime),
  (forall e,
     (PurgeDirectory d aet maxf chk now s).1 = Raised e <->
     (gate_open d chk s = true /\ age_enabled aet maxf = true /\
      DateTime_Subtract now aet = Raised e) \/
     (enumerates d chk aet maxf now s = true /\
      (GetTemporaryFileInfos d s).1 = Raised e)) /\
  (expiry_fails aet maxf now = false ->
   (GetTemporaryFileInfos d s).1 = Returned (entries d s) ->
   exists s',
     PurgeDirectory d aet maxf chk now s = (Returned tt, s') /\
     (gate_open d chk s = true -> aet <> 0 -> maxf <> 0 ->
      forall p f,
        (p, f) ∈ Files s -> in_directory d p -> Created f < now - aet ->
        EqualsIgnoreCase (check_name chk) (mem_GetFileName p) = false ->
        blocked p s = false ->
        FileExists p s' = false) /\
     (gate_open d chk s = true -> aet = 0 \/ maxf = 0 -> 0 <= maxf ->
      forall fi,
        fi ∈ take (Z.to_nat (Z.of_nat (length (entries d s)) - maxf))
               (count_pass_order maxf (entries d s)) ->
        EqualsIgnoreCase (check_name chk) (Name fi) = false ->
        blocked (FullName fi) s = false ->
        FileExists (FullName fi) s' = false)).
Proof.
  split; [intros FS I; apply PurgeDirectory_raises_enumeration|].
  split; [intros FS I; apply foreach_deleteUnlessCheckFile_returns|].
  intros s d aet maxf chk now. split.
  - intros e. rewrite PurgeDirectory_mem. unfold enumerates.
    pose proof (expiry_fails_iff aet maxf now e) as Hexp.
    simpl. unfold mem_GetTemporaryFileInfos.
    destruct (gate_open d chk s); cbn [andb negb].
    + destruct (expiry_fails aet maxf now); cbn [andb negb fst].
      * split.
        -- intros [= <-]. left. split; [done|]. by apply Hexp.
        -- intros [(_ & Hage & Hsub)|[? _]]; [|done].
           destruct (proj1 Hexp (conj Hage Hsub)) as [_ ->]. done.
      * destruct (age_enabled aet maxf || (0 <=? maxf))%bool; cbn [negb fst].
        -- destruct (listable d s); cbn [fst].
           ++ split; [done|]. intros [(_ & Hage & Hsub)|[_ ?]]; [|done].
              by destruct (proj1 Hexp (conj Hage Hsub)).
           ++ split; [intros [= <-]; by right|].
              intros [(_ & Hage & Hsub)|[_ [= <-]]]; [|done].
              by destruct (proj1 Hexp (conj Hage Hsub)).
        -- split; [done|]. intros [(_ & Hage & Hsub)|[? _]]; [|done].
           by destruct (proj1 Hexp (conj Hage Hsub)).
    + split; [done|]. by intros [(? & _)|[? _]].
  - intros Hexp. simpl. unfold mem_GetTemporaryFileInfos.
    destruct (listable d s) eqn:Hl; simpl; [intros _|done].
    exists (if enumerates d chk aet maxf now s
            then count_pass d (check_name chk) maxf
                   (age_pass d (check_name chk) aet maxf now s)
            else s).
    split; [|split].
    + rewrite PurgeDirectory_mem, Hl, Hexp, andb_false_r.
      by destruct (enumerates d chk aet maxf now s).
    + intros Hgate Haet Hmax p f Hp Hd Hold Hc Hb.
      unfold enumerates, age_enabled. rewrite Hgate, Hexp.
      pose proof Haet as Haet'. pose proof Hmax as Hmax'.
      apply Z.eqb_neq in Haet', Hmax'. rewrite Haet', Hmax'. cbn [negb andb orb].
      apply find_None_FileExists, count_pass_keeps_None.
      by apply (age_pass_deletes d (check_name chk) aet maxf now s p f).
    + intros Hgate Hage Hmax fi Hfi Hc Hb.
      unfold enumerates. rewrite Hgate, Hexp.
      apply Z.leb_le in Hmax as Hmax'. rewrite Hmax', orb_true_r. cbn [andb negb].
      assert (Hskip : age_pass d (check_name chk) aet maxf now s = s).
      { unfold age_pass. destruct Hage as [-> | ->]; simpl; [done|].
        by rewrite andb_false_r. }
      rewrite Hskip. apply find_None_FileExists.
      by apply count_pass_deletes.
Qed.

Lemma PurgeDirectory_raises_iff_witness :
  PurgeDirectory "gone" 0 0 "" 100 fs_stuck
    = (Raised DirectoryNotFoundException, fs_stuck) /\
  exists s',
    PurgeDirectory "d" 50 (-1) ".temporary" 100 fs_stuck = (Returned tt, s') /\
    FileExists "d/a" s' = true /\
    FileExists "d/b" s' = false.
Proof.
  pose proof (proj2 (proj2 PurgeDirectory_raises_iff)) as Hmem.
  split.
  - pose proof (proj2 (proj1 (Hmem fs_stuck "gone" 0 0 "" 100)
                         DirectoryNotFoundException)
        (or_intror (conj eq_refl eq_refl))) as Hr.
    destruct (PurgeDirectory "gone" 0 0 "" 100 fs_stuck) as [o s1] eqn:Hrun.
    vm_compute in Hrun. by inversion Hrun.
  - destruct (proj2 (Hmem fs_stuck "d" 50 (-1) ".temporary" 100) eq_refl eq_refl)
      as (s' & Hrun & Hage & _).
    exists s'. split; [exact Hrun|]. split.
    + vm_compute in Hrun. by inversion Hrun.
    + apply (Hage eq_refl) with (f := plain "y" 12 12); try done.
      vm_compute. do 2 apply list_elem_of_further. apply list_elem_of_here.
Defined.

(** ** The sort is a stable ascending sort by creation time *)

Lemma insert_sorted_desc t r :
  StronglySorted (flip not_newer) r ->
  StronglySorted (flip not_newer) (insert_sorted byCreationTime t r).
Proof.
  induction 1 as [|k r Hr IH Hk]; simpl.
  - repeat constructor.
  - unfold byCreationTime at 1.
    destruct (CreationTime t <? CreationTime k) eqn:Hlt; simpl.
    + apply Z.ltb_lt in Hlt. constructor; [done|].
      rewrite insert_sorted_perm. constructor; [|done].
      unfold flip, not_newer. lia.
    + apply Z.ltb_ge in Hlt. constructor; [by constructor|].
      constructor; [done|].
      eapply Forall_impl; [exact Hk|]. unfold flip, not_newer. intros; lia.
Qed.

Lemma fold_insert_desc l acc :
  StronglySorted (flip not_newer) acc ->
  StronglySorted (flip not_newer)
    (fold_left (fun rkeys t => insert_sorted byCreationTime t rkeys) l acc).
Proof.
  revert acc. induction l as [|x l IH]; intros acc Hacc; simpl; [done|].
  by apply IH, insert_sorted_desc.
Qed.

Lemma StronglySorted_reverse_flip {A} (R : relation A) l :
  StronglySorted (flip R) l -> StronglySorted R (reverse l).
Proof.
  induction 1 as [|x l Hl IH Hx]; [rewrite reverse_nil; constructor|].
  rewrite reverse_cons. apply StronglySorted_app_2; [|done|repeat constructor].
  intros y z Hy Hz. apply list_elem_of_singleton in Hz. subst z.
  rewrite elem_of_reverse in Hy. rewrite Forall_forall in Hx. by apply Hx.
Qed.

Lemma Array_Sort_sorted l : StronglySorted not_newer (Array_Sort byCreationTime l).
Proof.
  apply StronglySorted_reverse_flip, fold_insert_desc. constructor.
Qed.

Lemma created_at_insert c t r :
  created_at c (insert_sorted byCreationTime t r) = created_at c (t :: r).
Proof.
  unfold created_at. induction r as [|k r IH]; simpl; [done|].
  unfold byCreationTime at 1.
  destruct (CreationTime t <? CreationTime k) eqn:Hlt; simpl; [|done].
  apply Z.ltb_lt in Hlt. rewrite (filter_cons _ k), IH, !filter_cons.
  destruct (decide (CreationTime k = c)), (decide (CreationTime t = c));
    try done. lia.
Qed.

Lemma created_at_fold c l acc :
  created_at c (fold_left (fun rkeys t => insert_sorted byCreationTime t rkeys) l acc)
  = reverse (created_at c l) ++ created_at c acc.
Proof.
  revert acc. induction l as [|x l IH]; intros acc; simpl; [done|].
  rewrite IH, created_at_insert. unfold created_at. rewrite !filter_cons.
  destruct (decide (CreationTime x = c)); [|done].
  by rewrite reverse_cons, <- app_assoc.
Qed.

(** entries created at the same time keep the order of the listing *)
Lemma Array_Sort_stable c l :
  created_at c (Array_Sort byCreationTime l) = created_at c l.
Proof.
  unfold Array_Sort. unfold created_at at 1. rewrite filter_reverse.
  fold (created_at c (fold_left
    (fun rkeys t => insert_sorted byCreationTime t rkeys) l [])).
  rewrite created_at_fold. unfold created_at at 2. rewrite filter_nil, app_nil_r.
  apply reverse_involutive.
Qed.

(** ** The count-based pass with a positive cap *)

Lemma NoDup_entries d s :
  NoDup (Files s).*1 -> NoDup (FullName <$> entries d s).
Proof.
  intros Hnd. unfold entries. rewrite <- list_fmap_compose.
  apply (sublist_NoDup _ ((Files s).*1)); [done|].
  apply fmap_sublist, sublist_filter.
Qed.

Lemma NoDup_fmap_inj_in {A B} (f : A -> B) (l : list A) x y :
  NoDup (f <$> l) -> x ∈ l -> y ∈ l -> f x = f y -> x = y.
Proof.
  induction l as [|a l IH]; intros Hnd Hx Hy Hf.
  - by apply not_elem_of_nil in Hx.
  - rewrite fmap_cons in Hnd. apply NoDup_cons in Hnd as [Ha Hnd].
    apply elem_of_cons in Hx as [->|Hx], Hy as [->|Hy]; [done| | |by apply IH].
    + exfalso. apply Ha. rewrite Hf. by apply list_elem_of_fmap_2.
    + exfalso. apply Ha. rewrite <- Hf. by apply list_elem_of_fmap_2.
Qed.

(** among the entries of a listing without repeated paths, the ones handed
    to [DeleteFile] are those of the walked prefix that are not the check
    file *)
Lemma candidates_prefix chk (E oldest newest : list TemporaryFileInfo) fi :
  NoDup (FullName <$> E) -> oldest ++ newest ≡ₚ E -> fi ∈ E ->
  FullName fi ∈ candidates chk oldest <->
  ~ (fi ∈ newest \/ EqualsIgnoreCase chk (Name fi) = true).
Proof.
  intros Hnd Hperm Hfi.
  assert (Hsplit : NoDup (oldest ++ newest)).
  { rewrite Hperm. by apply NoDup_fmap_1 in Hnd. }
  apply NoDup_app in Hsplit as (_ & Hdisj & _).
  rewrite elem_of_candidates. split.
  - intros (fj & Hfj & Hname & Hc).
    assert (fj = fi) as ->.
    { apply (NoDup_fmap_inj_in FullName E); [done| |done|done].
      rewrite <- Hperm. apply elem_of_app. by left. }
    intros [Hnew|Hs]; [by apply (Hdisj fi)|congruence].
  - intros Hn. exists fi. split; [|split; [done|]].
    + rewrite <- Hperm in Hfi. apply elem_of_app in Hfi as [?|?]; [done|].
      exfalso. apply Hn. by left.
    + destruct (EqualsIgnoreCase chk (Name fi)); [|done].
      exfalso. apply Hn. by right.
Qed.

Lemma length_kept chk (E oldest newest : list TemporaryFileInfo) :
  NoDup E -> oldest ++ newest ≡ₚ E ->
  length (filter (fun fi => fi ∈ newest \/ EqualsIgnoreCase chk (Name fi) = true) E)
  = (length newest
     + length (filter (fun fi => EqualsIgnoreCase chk (Name fi) = true) oldest))%nat.
Proof.
  intros Hnd Hperm.
  assert (Hsplit : NoDup (oldest ++ newest)) by by rewrite Hperm.
  apply NoDup_app in Hsplit as (_ & Hdisj & _).
  rewrite <- Hperm, filter_app, length_app.
  rewrite (filter_true_id _ newest) by (intros; by left).
  rewrite (filter_ext_in _ (fun fi => EqualsIgnoreCase chk (Name fi) = true) oldest).
  - lia.
  - intros fi Hfi. split; [|by right]. intros [Hnew|?]; [|done].
    by destruct (Hdisj fi Hfi).
Qed.

(** C5, as the claim states it, fails: with [K = 1] and two files, the
    older of which is the sentinel, the only deletion candidate is the
    sentinel, which is skipped, and two files remain. *)
Lemma PurgeDirectory_cap_exceeded_by_sentinel :
  length (entries "d" fs_two) = (1 + 1)%nat /\
  FileExists (Combine "d" (Trim (GetFileName ".temporary"))) fs_two = true /\
  all_deletable "d" fs_two /\
  PurgeDirectory "d" 0 1 ".temporary" 100 fs_two = (Returned tt, fs_two) /\
  Nat.lt 1 (length (entries "d" (PurgeDirectory "d" 0 1 ".temporary" 100 fs_two).2)).
Proof.
  split; [reflexivity|]. split; [reflexivity|]. split.
  - intros p f Hp _. unfold fs_two in Hp. simpl in Hp.
    repeat (apply elem_of_cons in Hp as [Hp|Hp]; [by inversion Hp|]).
    by apply not_elem_of_nil in Hp.
  - split; [reflexivity|]. vm_compute. lia.
Qed.

(** C5 (amended). A directory lists [K + M] files ([K > 0], [M > 0], no
    path listed twice), the sentinel is present, [autoExpireTime] is zero,
    [maxFilesInDirectory = K], the directory can be enumerated and every
    deletion succeeds.  Sort the listing by [Array.Sort] with the
    comparison of the pass: the result is a permutation of the listing in
    ascending order of creation in which entries created at the same time
    keep the order of the listing.  Then [PurgeDirectory] returns and the
    entries left in the directory are the last [K] of the sorted listing
    (the [K] most recently created) together with the entries among the
    first [M] whose name equals the sentinel name ignoring case: [K] plus
    the number of those sentinel-named entries, so more than [K] when the
    sentinel is among the [M] oldest.  Files outside the directory are
    untouched. *)
Theorem PurgeDirectory_count_cap (s : MemFS) (d chk : string) (now : DateTime)
    (K M : nat) :
  chk <> "" ->
  FileExists (Combine d (Trim (GetFileName chk))) s = true ->
  listable d s = true ->
  all_deletable d s ->
  NoDup (Files s).*1 ->
  (0 < K)%nat -> (0 < M)%nat ->
  length (entries d s) = (K + M)%nat ->
  let sentinel := Trim (mem_GetFileName chk) in
  let sorted := Array_Sort byCreationTime (entries d s) in
  let oldest := take M sorted in
  let newest := drop M sorted in
  sorted ≡ₚ entries d s /\
  StronglySorted not_newer sorted /\
  (forall c, created_at c sorted = created_at c (entries d s)) /\
  length newest = K /\
  exists s',
    PurgeDirectory d 0 (Z.of_nat K) chk now s = (Returned tt, s') /\
    entries d s' =
      filter (fun fi => fi ∈ newest \/ EqualsIgnoreCase sentinel (Name fi) = true)
        (entries d s) /\
    length (entries d s') =
      (K + length (filter (fun fi => EqualsIgnoreCase sentinel (Name fi) = true)
                     oldest))%nat /\
    (forall p, ~ in_directory d p -> find_file p (Files s') = find_file p (Files s)).
Proof.
  intros Hne Hex Hl Hall Hnd HK HM Hlen sentinel sorted oldest newest.
  assert (Hperm : sorted ≡ₚ entries d s) by apply Array_Sort_perm.
  assert (Hsplit : oldest ++ newest ≡ₚ entries d s).
  { unfold oldest, newest. by rewrite take_drop. }
  assert (Hnew : length newest = K).
  { unfold newest. rewrite length_drop. unfold sorted.
    rewrite Array_Sort_length, Hlen. lia. }
  split; [done|]. split; [apply Array_Sort_sorted|].
  split; [intros c; apply Array_Sort_stable|]. split; [done|].
  assert (Hrun : PurgeDirectory d 0 (Z.of_nat K) chk now s
                 = (Returned tt, without (candidates sentinel oldest) s)).
  { rewrite PurgeDirectory_mem_runs by done.
    assert (H0 : (0 <=? Z.of_nat K) = true) by (apply Z.leb_le; lia).
    assert (HK0 : (Z.of_nat K =? 0) = false) by (apply Z.eqb_neq; lia).
    f_equal. fold sentinel.
    unfold age_pass. simpl (0 =? 0). cbn [negb andb].
    unfold count_pass, count_pass_order. rewrite H0, HK0, Hlen. cbn [negb andb].
    assert (Hlt : (Z.of_nat K <? Z.of_nat (K + M)) = true) by (apply Z.ltb_lt; lia).
    rewrite Hlt.
    replace (Z.to_nat (Z.of_nat (K + M) - Z.of_nat K)) with M by lia.
    apply delete_each_without. }
  assert (Hentries : entries d (without (candidates sentinel oldest) s)
    = filter (fun fi => fi ∈ newest \/ EqualsIgnoreCase sentinel (Name fi) = true)
        (entries d s)).
  { rewrite entries_without. apply filter_ext_in. intros fi Hfi.
    rewrite (candidates_prefix sentinel (entries d s) oldest newest fi)
      by (done || by apply NoDup_entries).
    assert (Hb : blocked (FullName fi) s = false).
    { apply (blocked_all_deletable d); [done|].
      by destruct (from_dir_entries d s fi Hfi). }
    rewrite Hb.
    destruct (decide (fi ∈ newest \/ EqualsIgnoreCase sentinel (Name fi) = true));
      intuition. }
  eexists. split; [exact Hrun|]. split; [exact Hentries|]. split.
  - rewrite Hentries, (length_kept sentinel (entries d s) oldest newest), Hnew;
      [done| |done].
    eapply NoDup_fmap_1, NoDup_entries, Hnd.
  - intros p Hp. apply (without_candidates_frame d); [|by left].
    apply from_dir_take. unfold sorted.
    intros fi Hfi. apply (from_dir_entries d s). by rewrite <- Hperm.
Qed.

Lemma PurgeDirectory_count_cap_witness :
  exists s',
    PurgeDirectory "d" 0 1 ".temporary" 100 fs_temp = (Returned tt, s') /\
    FullName <$> entries "d" s' = ["d/.temporary"; "d/b"].
Proof.
  destruct (PurgeDirectory_count_cap fs_temp "d" ".temporary" 100 1 2)
    as (_ & _ & _ & _ & s' & Hrun & Hentries & _).
  - discriminate.
  - reflexivity.
  - reflexivity.
  - intros p f Hp _. vm_compute in Hp.
    repeat (apply elem_of_cons in Hp as [Hp|Hp]; [by inversion Hp|]).
    by apply not_elem_of_nil in Hp.
  - apply (bool_decide_unpack _). vm_compute. exact I.
  - lia.
  - lia.
  - reflexivity.
  - exists s'. split; [exact Hrun|]. rewrite Hentries. vm_compute. reflexivity.
Defined.

(** ** Suffixes, markers and their files *)

Lemma append_nil (b : string) : "" +:+ b = b.
Proof. done. Qed.

Lemma append_cons c (a b : string) : String c a +:+ b = String c (a +:+ b).
Proof. done. Qed.

Lemma append_assoc_s (a b c : string) : (a +:+ b) +:+ c = a +:+ (b +:+ c).
Proof.
  induction a as [|x a IH]; [done|]. rewrite !append_cons. by rewrite IH.
Qed.

Lemma length_append_s (a b : string) :
  String.length (a +:+ b) = (String.length a + String.length b)%nat.
Proof.
  induction a as [|x a IH]; [done|]. rewrite append_cons. simpl. by rewrite IH.
Qed.

Lemma append_inj_l (a b x : string) : a +:+ x = b +:+ x -> a = b.
Proof.
  revert b. induction a as [|c a IH]; intros [|c' b] Heq.
  - done.
  - apply (f_equal String.length) in Heq.
    rewrite append_nil, append_cons in Heq. simpl in Heq.
    rewrite length_append_s in Heq. lia.
  - apply (f_equal String.length) in Heq.
    rewrite append_nil, append_cons in Heq. simpl in Heq.
    rewrite length_append_s in Heq. lia.
  - rewrite !append_cons in Heq. injection Heq as -> Heq. f_equal. by apply IH.
Qed.

Lemma ends_with_unfold suffix s :
  ends_with suffix s =
    (String.eqb s suffix ||
     match s with EmptyString => false | String _ r => ends_with suffix r end)%bool.
Proof. by destruct s. Qed.

Lemma ends_with_iff suffix s :
  ends_with suffix s = true <-> exists pre, s = pre +:+ suffix.
Proof.
  induction s as [|c s IH]; rewrite ends_with_unfold, orb_true_iff, String.eqb_eq.
  - split.
    + intros [Heq|?]; [|done]. exists "". by subst.
    + intros [[|c pre] Heq]; [by left|]. by rewrite append_cons in Heq.
  - rewrite IH. split.
    + intros [Heq|[pre ->]].
      * exists "". by subst.
      * by exists (String c pre).
    + intros [[|c' pre] Heq].
      * left. by rewrite append_nil in Heq.
      * rewrite append_cons in Heq. injection Heq as -> ->. right. by exists pre.
Qed.

Lemma ends_with_append suffix pre : ends_with suffix (pre +:+ suffix) = true.
Proof. apply ends_with_iff. by exists pre. Qed.

Lemma substring_prefix (a b : string) : substring 0 (String.length a) (a +:+ b) = a.
Proof.
  induction a as [|c a IH]; simpl.
  - by destruct b.
  - by rewrite IH.
Qed.

Lemma DropLast7_marker p : DropLast7 (p +:+ ".delete") = Returned p.
Proof.
  unfold DropLast7. rewrite length_append_s. simpl String.length.
  destruct (Nat.ltb_spec (String.length p + 7) 7) as [?|_]; [lia|].
  replace (String.length p + 7 - 7)%nat with (String.length p) by lia.
  by rewrite substring_prefix.
Qed.

(** a listed marker is the path of its file followed by [".delete"] *)
Lemma DropLast7_ends_with y a :
  ends_with ".delete" y = true -> DropLast7 y = Returned a -> y = a +:+ ".delete".
Proof.
  intros Hy Ha. apply ends_with_iff in Hy as [pre ->].
  rewrite DropLast7_marker in Ha. by injection Ha as ->.
Qed.

Lemma ends_with_DropLast7 y :
  ends_with ".delete" y = true -> exists a, y = a +:+ ".delete" /\ DropLast7 y = Returned a.
Proof.
  intros Hy. apply ends_with_iff in Hy as [pre ->]. exists pre.
  by rewrite DropLast7_marker.
Qed.

Lemma split_path_append p suffix :
  no_slash suffix ->
  split_path (p +:+ suffix) = ((split_path p).1, (split_path p).2 +:+ suffix).
Proof.
  intros Hs. induction p as [|c p IH]; simpl.
  - by rewrite split_path_no_slash.
  - rewrite IH. destruct (split_path p) as [[d|] n]; simpl; [done|].
    by destruct (Ascii.eqb c "/").
Qed.

Lemma no_slash_delete : no_slash ".delete".
Proof. simpl. repeat split; discriminate. Qed.

Lemma in_directory_marker d p : in_directory d (p +:+ ".delete") <-> in_directory d p.
Proof.
  unfold in_directory, mem_GetDirectoryName.
  by rewrite split_path_append by apply no_slash_delete.
Qed.

Lemma GetFileName_marker p :
  mem_GetFileName (p +:+ ".delete") = mem_GetFileName p +:+ ".delete".
Proof.
  unfold mem_GetFileName. by rewrite split_path_append by apply no_slash_delete.
Qed.

Lemma split_path_None p : (split_path p).1 = None -> (split_path p).2 = p.
Proof.
  induction p as [|c p IH]; simpl; [done|].
  destruct (split_path p) as [[d|] n]; simpl in *; [done|].
  destruct (Ascii.eqb c "/"); simpl; [done|]. intros _. f_equal. by apply IH.
Qed.

Lemma split_path_name_suffix p : exists pre, p = pre +:+ (split_path p).2.
Proof.
  induction p as [|c p [pre IH]]; simpl; [by exists ""|].
  pose proof (split_path_None p) as Hnone.
  destruct (split_path p) as [[d|] n]; simpl in *.
  - exists (String c pre). rewrite append_cons. by f_equal.
  - destruct (Ascii.eqb c "/"); simpl.
    + exists (String c pre). rewrite append_cons. by f_equal.
    + exists "". rewrite append_nil. f_equal. symmetry. by apply Hnone.
Qed.

Lemma matches_marker_ends_with y :
  matches "*.delete" (mem_GetFileName y) = true -> ends_with ".delete" y = true.
Proof.
  unfold matches, mem_GetFileName. intros Hn.
  apply ends_with_iff in Hn as [pre Hn].
  destruct (split_path_name_suffix y) as [pre' Hy].
  apply ends_with_iff. exists (pre' +:+ pre).
  by rewrite append_assoc_s, <- Hn.
Qed.

(** ** The token survives being written and parsed *)

Lemma all_digits_string_of_uint d : all_digits (NilEmpty.string_of_uint d) = true.
Proof. induction d; simpl; auto. Qed.

Lemma is_digit_not_white c : is_digit c = true -> is_white c = false.
Proof.
  unfold is_digit, is_white. cbv zeta.
  destruct (Nat.leb_spec 48 (nat_of_ascii c)); [|done].
  intros _.
  destruct (Nat.eqb_spec (nat_of_ascii c) 32); [lia|].
  destruct (Nat.leb_spec (nat_of_ascii c) 13); [lia|].
  by rewrite andb_false_r.
Qed.

Lemma TrimEnd_all_digits s : all_digits s = true -> TrimEnd s = s.
Proof.
  induction s as [|c s IH]; simpl; [done|].
  intros [Hc Hs]%andb_true_iff. rewrite (IH Hs).
  destruct s; [|done]. by rewrite (is_digit_not_white c Hc).
Qed.

Lemma Trim_all_digits s : all_digits s = true -> Trim s = s.
Proof.
  intros Hs. unfold Trim.
  assert (TrimStart s = s) as ->.
  { destruct s as [|c s]; [done|]. simpl in *.
    apply andb_true_iff in Hs as [Hc _]. by rewrite (is_digit_not_white c Hc). }
  by apply TrimEnd_all_digits.
Qed.

Lemma parse_signed_digit c r :
  is_digit c = true -> parse_signed (String c r) = parse_digits (String c r).
Proof.
  destruct c as [[] [] [] [] [] [] [] []]; intros Hc; vm_compute in Hc;
    try discriminate; reflexivity.
Qed.

Lemma TryParse_ToInvariant z :
  0 <= z <= 9223372036854775807 -> TryParse (ToInvariant z) = Some z.
Proof.
  intros Hz. unfold TryParse, ToInvariant.
  destruct z as [|p|p]; [done| |lia]. simpl Z.to_int. simpl NilZero.string_of_int.
  assert (Hnil : Pos.to_uint p <> Decimal.Nil).
  { intros Hnil. pose proof (DecimalPos.Unsigned.of_to p) as Hp.
    rewrite Hnil in Hp. discriminate. }
  assert (Hstr : NilZero.string_of_uint (Pos.to_uint p)
                 = NilEmpty.string_of_uint (Pos.to_uint p)).
  { by destruct (Pos.to_uint p). }
  assert (Hdigits : all_digits (NilZero.string_of_uint (Pos.to_uint p)) = true).
  { rewrite Hstr. apply all_digits_string_of_uint. }
  rewrite Trim_all_digits by done.
  assert (Hparse : parse_digits (NilZero.string_of_uint (Pos.to_uint p))
                   = Some (Z.pos p)).
  { unfold parse_digits. rewrite NilZero.usu by done.
    unfold Z.of_uint. by rewrite DecimalPos.Unsigned.of_to. }
  destruct (NilZero.string_of_uint (Pos.to_uint p)) as [|c r] eqn:Hs.
  - unfold parse_digits in Hparse. simpl in Hparse. discriminate.
  - simpl in Hdigits. apply andb_true_iff in Hdigits as [Hc _].
    rewrite parse_signed_digit, Hparse by done.
    unfold in_long.
    destruct (Z.leb_spec (-9223372036854775808) (Z.pos p)); [|lia].
    destruct (Z.leb_spec (Z.pos p) 9223372036854775807); [done|lia].
Qed.

(** ** TryDeleteMarkedFiles on the in-memory file system *)

Lemma sweepMarker_mem name (s : MemFS) :
  sweepMarker name s = (Returned tt, sweep_fs name s).
Proof.
  unfold sweepMarker, sweep_fs, try_catch, bind, lift, gets. simpl.
  unfold mem_ReadAllText, mem_FileExists, mem_GetLastWriteTimeUtc.
  destruct (find_file name (Files s)) as [marker|]; [|done].
  destruct (DenyRead marker); [done|].
  destruct (DropLast7 name) as [actualFile|]; [|done].
  destruct (find_file actualFile (Files s)) as [actual|] eqn:Ha.
  - destruct (TryParse (Content marker)) as [fileTime|].
    + rewrite Ha. destruct (ToFileTimeUtc (LastWrite actual)) as [current|]; [|done].
      unfold when. destruct (fileTime =? current).
      * by rewrite !TryDelete_mem.
      * unfold ret. by rewrite TryDelete_mem.
    + unfold ret. by rewrite TryDelete_mem.
  - by rewrite TryDelete_mem.
Qed.

Lemma foreach_sweepMarker names (s : MemFS) :
  foreach names sweepMarker s = (Returned tt, sweep_all names s).
Proof.
  revert s. induction names as [|name names IH]; intros s; [done|].
  simpl. unfold bind. rewrite sweepMarker_mem. apply IH.
Qed.

Lemma TryDeleteMarkedFiles_mem d (s : MemFS) :
  TryDeleteMarkedFiles d s =
    if negb (bool_decide (d ∈ Dirs s)) then (Returned tt, s)
    else if listable d s then (Returned tt, sweep_all (markers d s) s)
         else (Raised DirectoryNotFoundException, s).
Proof.
  unfold TryDeleteMarkedFiles, bind, gets. simpl.
  destruct (bool_decide (d ∈ Dirs s)); [|done]. simpl.
  unfold mem_GetFiles. destruct (listable d s); [|done].
  apply foreach_sweepMarker.
Qed.

(** ** States that only lose files *)

(** membership in an explicit list, from membership in explicit lists *)
Ltac solve_elem :=
  repeat match goal with
         | H : _ ∈ _ :: _ |- _ => apply elem_of_cons in H as [H|H]
         | H : _ ∈ [] |- _ => by apply not_elem_of_nil in H
         end;
  subst; rewrite ?elem_of_cons; auto 10.

Lemma drop_keys_nil s : drop_keys [] s = s.
Proof.
  rewrite <- (set_files_id s) at 2. destruct s as [fl ds dl cl].
  unfold drop_keys, set_files; simpl. f_equal. apply filter_true_id.
  intros e _. apply not_elem_of_nil.
Qed.

Lemma drop_keys_drop_keys D1 D2 s :
  drop_keys D2 (drop_keys D1 s) = drop_keys (D1 ++ D2) s.
Proof.
  unfold drop_keys, set_files. simpl. f_equal.
  rewrite list_filter_filter. apply filter_ext_in. intros e _.
  rewrite elem_of_app. tauto.
Qed.

Lemma find_file_drop_keys q D s :
  find_file q (Files (drop_keys D s)) =
    if decide (q ∈ D) then None else find_file q (Files s).
Proof.
  unfold drop_keys. simpl.
  pose proof (find_file_filter_keys (fun k => k ∉ D) q (Files s)) as Hf.
  simpl in Hf. rewrite Hf. clear Hf.
  destruct (decide (q ∈ D)); [by rewrite decide_False by tauto|by rewrite decide_True].
Qed.

Lemma remove_file_drop_keys p s : set_files (remove_file p) s = drop_keys [p] s.
Proof.
  unfold drop_keys, set_files, remove_file. f_equal.
  apply filter_ext_in. intros e _. by rewrite list_elem_of_singleton.
Qed.

Lemma delete_quiet_drop_keys p s :
  exists D, D ⊆ [p] /\ delete_quiet p s = drop_keys D s.
Proof.
  unfold delete_quiet. destruct (find_file p (Files s)) as [f|].
  - destruct (DenyDelete f).
    + exists []. split; [apply list_subseteq_nil|by rewrite drop_keys_nil].
    + exists [p]. split; [done|apply remove_file_drop_keys].
  - exists []. split; [apply list_subseteq_nil|by rewrite drop_keys_nil].
Qed.

Lemma tryDelete_fs_drop_keys p s :
  exists D, D ⊆ [p; p +:+ ".delete"] /\ tryDelete_fs p s = drop_keys D s.
Proof.
  unfold tryDelete_fs. destruct (find_file p (Files s)) as [f|].
  - destruct (DenyDelete f).
    + exists []. split; [apply list_subseteq_nil|by rewrite drop_keys_nil].
    + destruct (delete_quiet_drop_keys (p +:+ ".delete") (set_files (remove_file p) s))
        as (D & HD & ->).
      exists ([p] ++ D). split.
      * intros q Hq. apply elem_of_app in Hq as [Hq|Hq]; [|apply HD in Hq];
          solve_elem.
      * by rewrite remove_file_drop_keys, drop_keys_drop_keys.
  - exists []. split; [apply list_subseteq_nil|by rewrite drop_keys_nil].
Qed.

(** a turn of the sweep for the marker [a + ".delete"] removes nothing but
    the file [a], the marker and the marker's own marker *)
Lemma sweep_fs_drop_keys a s :
  exists D,
    D ⊆ [a; a +:+ ".delete"; (a +:+ ".delete") +:+ ".delete"] /\
    sweep_fs (a +:+ ".delete") s = drop_keys D s.
Proof.
  set (y := a +:+ ".delete").
  assert (Hnone : exists D, D ⊆ [a; y; y +:+ ".delete"] /\ s = drop_keys D s).
  { exists []. split; [apply list_subseteq_nil|by rewrite drop_keys_nil]. }
  assert (Hy : forall s0, (exists D0, D0 ⊆ [a; y] /\ s0 = drop_keys D0 s) ->
    exists D, D ⊆ [a; y; y +:+ ".delete"] /\ tryDelete_fs y s0 = drop_keys D s).
  { intros s0 (D0 & HD0 & ->).
    destruct (tryDelete_fs_drop_keys y (drop_keys D0 s)) as (D & HD & ->).
    exists (D0 ++ D). split; [|by rewrite drop_keys_drop_keys].
    intros q Hq. apply elem_of_app in Hq as [Hq|Hq];
      [apply HD0 in Hq|apply HD in Hq]; solve_elem. }
  assert (Hs : exists D0, D0 ⊆ [a; y] /\ s = drop_keys D0 s).
  { exists []. split; [apply list_subseteq_nil|by rewrite drop_keys_nil]. }
  unfold sweep_fs. fold y.
  destruct (find_file y (Files s)) as [marker|]; [|done].
  destruct (DenyRead marker); [done|].
  rewrite (DropLast7_marker a : DropLast7 y = Returned a).
  destruct (find_file a (Files s)) as [actual|]; [|by apply Hy].
  destruct (TryParse (Content marker)) as [fileTime|]; [|by apply Hy].
  destruct (ToFileTimeUtc (LastWrite actual)) as [current|]; [|done].
  apply Hy. destruct (fileTime =? current); [|done].
  apply tryDelete_fs_drop_keys.
Qed.

(** ** The markers of a directory *)

Lemma elem_of_markers d s y :
  y ∈ markers d s <->
  (exists f, (y, f) ∈ Files s) /\ in_directory d y /\
  matches "*.delete" (mem_GetFileName y) = true.
Proof.
  unfold markers. rewrite list_elem_of_fmap. split.
  - intros (fi & -> & Hfi). apply list_elem_of_filter in Hfi as [Hm Hfi].
    apply elem_of_entries in Hfi as (p & f & Hp & Hd & ->). simpl in *. eauto.
  - intros ((f & Hy) & Hd & Hm). exists (info_of (y, f)). split; [done|].
    apply list_elem_of_filter. split; [done|]. apply elem_of_entries. eauto.
Qed.

Lemma elem_Files_find y f (l : list (string * FileData)) :
  (y, f) ∈ l -> find_file y l <> None.
Proof.
  intros Hy Hnone. apply find_file_None in Hnone. apply Hnone.
  apply list_elem_of_fmap. by exists (y, f).
Qed.

Lemma markers_spec d s y :
  y ∈ markers d s ->
  ends_with ".delete" y = true /\ find_file y (Files s) <> None.
Proof.
  intros ((f & Hy) & _ & Hm)%elem_of_markers. split.
  - by apply matches_marker_ends_with.
  - by apply (elem_Files_find y f).
Qed.

(** ** One marker through the sweep *)

Lemma not_marker_ne p a :
  ends_with ".delete" p = false -> p <> a +:+ ".delete".
Proof. intros Hp ->. by rewrite ends_with_append in Hp. Qed.

Lemma tryDelete_fs_present p f s :
  find_file p (Files s) = Some f -> DenyDelete f = false ->
  find_file (p +:+ ".delete") (Files s) = None ->
  tryDelete_fs p s = drop_keys [p] s.
Proof.
  intros Hp Hd Hm. unfold tryDelete_fs. rewrite Hp, Hd.
  unfold delete_quiet. simpl. rewrite find_file_remove_ne by apply append_marker_ne.
  rewrite Hm. apply remove_file_drop_keys.
Qed.

Lemma tryDelete_fs_absent p s :
  find_file p (Files s) = None -> tryDelete_fs p s = s.
Proof. intros Hp. unfold tryDelete_fs. by rewrite Hp. Qed.

Lemma tryDelete_fs_blocked p f s :
  find_file p (Files s) = Some f -> DenyDelete f = true -> tryDelete_fs p s = s.
Proof. intros Hp Hd. unfold tryDelete_fs. by rewrite Hp, Hd. Qed.

Lemma tryDelete_fs_both p f g s :
  find_file p (Files s) = Some f -> DenyDelete f = false ->
  find_file (p +:+ ".delete") (Files s) = Some g -> DenyDelete g = false ->
  tryDelete_fs p s = drop_keys [p; p +:+ ".delete"] s.
Proof.
  intros Hp Hd Hm Hdm. unfold tryDelete_fs. rewrite Hp, Hd.
  unfold delete_quiet. simpl. rewrite find_file_remove_ne by apply append_marker_ne.
  rewrite Hm, Hdm.
  change (set_files (remove_file (p +:+ ".delete")) (set_files (remove_file p) s)
          = drop_keys ([p] ++ [p +:+ ".delete"]) s).
  by rewrite <- drop_keys_drop_keys, !remove_file_drop_keys.
Qed.

(** the turn of the loop for the marker of [p] *)
Lemma sweep_own_marker_state p token actual marker u :
  DenyRead marker = false -> DenyDelete marker = false ->
  TryParse (Content marker) = Some token ->
  FileTimeOffset <= LastWrite actual ->
  marker_pending p actual marker u ->
  sweep_fs (p +:+ ".delete") u
  = drop_keys (match sweep_expected token actual with
               | None => [p; p +:+ ".delete"]
               | Some _ => [p +:+ ".delete"]
               end) u.
Proof.
  intros Hread Hdel Hparse Hvalid (Hp & Hm & Hmm).
  unfold sweep_fs. rewrite Hm, Hread, DropLast7_marker, Hp, Hparse.
  unfold ToFileTimeUtc.
  destruct (Z.ltb_spec (LastWrite actual - FileTimeOffset) 0); [lia|].
  unfold sweep_expected.
  destruct (token =? LastWrite actual - FileTimeOffset); cbn [andb].
  - destruct (DenyDelete actual) eqn:Hda; cbn [negb].
    + rewrite (tryDelete_fs_blocked p actual) by done.
      by apply (tryDelete_fs_present _ marker).
    + rewrite (tryDelete_fs_both p actual marker) by done.
      apply tryDelete_fs_absent. rewrite find_file_drop_keys.
      rewrite decide_True; [done|]. apply list_elem_of_further, list_elem_of_here.
  - by apply (tryDelete_fs_present _ marker).
Qed.

Lemma sweep_own_marker p token actual marker u :
  DenyRead marker = false -> DenyDelete marker = false ->
  TryParse (Content marker) = Some token ->
  FileTimeOffset <= LastWrite actual ->
  marker_pending p actual marker u ->
  marker_settled p token actual (sweep_fs (p +:+ ".delete") u).
Proof.
  intros Hread Hdel Hparse Hvalid Hu.
  rewrite (sweep_own_marker_state p token actual marker) by done.
  destruct Hu as (Hp & Hm & Hmm).
  pose proof (append_marker_ne p) as Hne.
  pose proof (append_marker_ne (p +:+ ".delete")) as Hne'.
  assert (Hne'' : (p +:+ ".delete") +:+ ".delete" <> p).
  { intros Heq. apply (f_equal String.length) in Heq.
    rewrite !length_append_s in Heq. simpl in Heq. lia. }
  unfold marker_settled. rewrite !find_file_drop_keys, Hmm.
  destruct (sweep_expected token actual) as [kept|] eqn:Hexp.
  - split; [|split; [|by case_decide]].
    + rewrite decide_False by (intros Hin; solve_elem).
      rewrite Hp. unfold sweep_expected in Hexp.
      by destruct (_ && _)%bool; simplify_eq.
    + rewrite decide_True; [done|]. apply list_elem_of_here.
  - split; [|split; [|by case_decide]].
    + rewrite decide_True; [done|]. apply list_elem_of_here.
    + rewrite decide_True; [done|]. apply list_elem_of_further, list_elem_of_here.
Qed.

Lemma sweep_other_marker_pending p actual marker a u :
  ends_with ".delete" p = false ->
  a +:+ ".delete" <> p +:+ ".delete" ->
  a +:+ ".delete" <> (p +:+ ".delete") +:+ ".delete" ->
  marker_pending p actual marker u ->
  marker_pending p actual marker (sweep_fs (a +:+ ".delete") u).
Proof.
  intros Hp Hy Hyy (Hfp & Hfm & Hfmm).
  destruct (sweep_fs_drop_keys a u) as (D & HD & ->).
  unfold marker_pending. rewrite !find_file_drop_keys.
  rewrite Hfmm. split; [|split; [|by case_decide]].
  - rewrite decide_False; [done|]. intros Hin. apply HD in Hin.
    assert (a <> p) by congruence.
    pose proof (not_marker_ne p a Hp).
    pose proof (not_marker_ne p (a +:+ ".delete") Hp).
    apply elem_of_cons in Hin as [?|Hin]; [done|].
    apply elem_of_cons in Hin as [?|Hin]; [done|].
    apply list_elem_of_singleton in Hin. done.
  - rewrite decide_False; [done|]. intros Hin. apply HD in Hin.
    assert (a +:+ ".delete" <> p).
    { intros <-. by rewrite ends_with_append in Hp. }
    apply elem_of_cons in Hin as [Heq|Hin]; [by rewrite <- Heq in Hyy|].
    apply elem_of_cons in Hin as [Heq|Hin]; [done|].
    apply list_elem_of_singleton in Hin. by apply append_inj_l in Hin.
Qed.

Lemma sweep_other_marker_settled p token actual y u :
  ends_with ".delete" p = false ->
  ends_with ".delete" y = true ->
  marker_settled p token actual u ->
  marker_settled p token actual (sweep_fs y u).
Proof.
  intros Hp Hy (Hfp & Hfm & Hfmm).
  apply ends_with_DropLast7 in Hy as (a & -> & _).
  destruct (decide (a = p)) as [->|Ha].
  { unfold sweep_fs. by rewrite Hfm. }
  destruct (sweep_fs_drop_keys a u) as (D & HD & ->).
  unfold marker_settled. rewrite !find_file_drop_keys.
  rewrite Hfm, Hfmm. split; [|split; by case_decide].
  rewrite decide_False; [done|]. intros Hin. apply HD in Hin.
  pose proof (not_marker_ne p a Hp).
  pose proof (not_marker_ne p (a +:+ ".delete") Hp).
  apply elem_of_cons in Hin as [?|Hin]; [done|].
  apply elem_of_cons in Hin as [?|Hin]; [done|].
  apply list_elem_of_singleton in Hin. done.
Qed.

Lemma settled_sweep_all p token actual L u :
  ends_with ".delete" p = false ->
  (forall y, y ∈ L -> ends_with ".delete" y = true) ->
  marker_settled p token actual u ->
  marker_settled p token actual (sweep_all L u).
Proof.
  intros Hp. revert u. induction L as [|y L IH]; intros u HL Hu; [done|].
  simpl. apply IH.
  - intros y' Hy'. apply HL. by apply list_elem_of_further.
  - apply sweep_other_marker_settled; [done| |done]. apply HL, list_elem_of_here.
Qed.

Lemma pending_sweep_all p token actual marker L u :
  ends_with ".delete" p = false ->
  DenyRead marker = false -> DenyDelete marker = false ->
  TryParse (Content marker) = Some token ->
  FileTimeOffset <= LastWrite actual ->
  (forall y, y ∈ L -> ends_with ".delete" y = true /\
                      y <> (p +:+ ".delete") +:+ ".delete") ->
  p +:+ ".delete" ∈ L ->
  marker_pending p actual marker u ->
  marker_settled p token actual (sweep_all L u).
Proof.
  intros Hp Hread Hdel Hparse Hvalid.
  revert u. induction L as [|y L IH]; intros u HL Hin Hu.
  - by apply not_elem_of_nil in Hin.
  - simpl. destruct (decide (y = p +:+ ".delete")) as [->|Hy].
    + apply settled_sweep_all; [done| |by apply (sweep_own_marker _ _ _ marker)].
      intros y' Hy'. apply HL. by apply list_elem_of_further.
    + apply IH.
      * intros y' Hy'. apply HL. by apply list_elem_of_further.
      * apply elem_of_cons in Hin as [?|?]; [congruence|done].
      * destruct (HL y) as [Hends Hyy]; [apply list_elem_of_here|].
        apply ends_with_DropLast7 in Hends as (a & -> & _).
        by apply sweep_other_marker_pending.
Qed.

(** the sweep of the directory of a marked file: the marker goes, and the
    file goes with it exactly when the token is its current file time and
    its deletion succeeds *)
Lemma sweep_marked_file d p token actual marker (w : MemFS) :
  ends_with ".delete" p = false ->
  in_directory d p -> listable d w = true ->
  DenyRead marker = false -> DenyDelete marker = false ->
  TryParse (Content marker) = Some token ->
  FileTimeOffset <= LastWrite actual ->
  marker_pending p actual marker w ->
  exists w',
    TryDeleteMarkedFiles d w = (Returned tt, w') /\
    marker_settled p token actual w'.
Proof.
  intros Hp Hd Hl Hread Hdel Hparse Hvalid Hw.
  exists (sweep_all (markers d w) w). split.
  - rewrite TryDeleteMarkedFiles_mem, Hl. unfold listable in Hl.
    apply andb_true_iff in Hl as [-> _]. done.
  - apply (pending_sweep_all p token actual marker); try done.
    + intros y Hy. apply markers_spec in Hy as [Hends Hfind].
      split; [done|]. intros ->. by destruct Hw as (_ & _ & ?).
    + apply elem_of_markers. destruct Hw as (_ & Hm & _). split; [|split].
      * exists marker. by apply find_file_Some_elem.
      * by apply in_directory_marker.
      * rewrite GetFileName_marker. apply ends_with_append.
Qed.

(** ** Marking a file *)

Lemma find_file_app_new q m g (l : list (string * FileData)) :
  find_file q (l ++ [(m, g)]) =
    match find_file q l with
    | Some x => Some x
    | None => if decide (m = q) then Some g else None
    end.
Proof.
  induction l as [|[k f] l IH]; simpl; [done|].
  destruct (decide (k = q)); [done|apply IH].
Qed.

Lemma find_file_mark_ne q p t s :
  q <> p +:+ ".delete" ->
  find_file q (Files (mark p t s)) = find_file q (Files s).
Proof.
  intros Hq. unfold mark. simpl. rewrite find_file_app_new.
  destruct (find_file q (Files s)); [done|]. by rewrite decide_False.
Qed.

Lemma find_file_mark_new p t s :
  find_file (p +:+ ".delete") (Files s) = None ->
  find_file (p +:+ ".delete") (Files (mark p t s)) = Some (marker_of t (Clock s)).
Proof.
  intros Hm. unfold mark. simpl. rewrite find_file_app_new, Hm.
  by rewrite decide_True.
Qed.

Lemma find_file_modify q p g s :
  find_file q (Files (modify p g s)) =
    if decide (q = p) then g <$> find_file p (Files s) else find_file q (Files s).
Proof.
  unfold modify. simpl. induction (Files s) as [|[k f] l IH].
  - by case_decide.
  - rewrite fmap_cons. cbn [fst snd find_file].
    destruct (decide (k = p)) as [->|Hk]; cbn [find_file].
    + destruct (decide (p = q)) as [->|Hq].
      * by rewrite !decide_True.
      * rewrite IH. by rewrite !decide_False by congruence.
    + destruct (decide (k = q)) as [->|Hq].
      * by rewrite !decide_False.
      * apply IH.
Qed.

(** marking a file whose deletion fails *)
Lemma TryDeleteOrMark_mem_held d p f (s : MemFS) :
  find_file p (Files s) = Some f ->
  DenyDelete f = true ->
  FileTimeOffset <= LastWrite f ->
  in_directory d p -> listable d s = true ->
  find_file (p +:+ ".delete") (Files s) = None ->
  TryDeleteOrMark p s = (Returned tt, mark p (LastWrite f) s).
Proof.
  intros Hp Hdeny Hvalid Hd Hl Hm.
  unfold TryDeleteOrMark. unfold bind at 1. rewrite TryDelete_mem.
  rewrite (tryDelete_fs_blocked p f) by done.
  unfold bind, gets, when. simpl. unfold mem_FileExists. rewrite Hp.
  unfold try_catch, lift, mem_GetLastWriteTimeUtc. rewrite Hp.
  unfold ToFileTimeUtc.
  destruct (Z.ltb_spec (LastWrite f - FileTimeOffset) 0); [lia|].
  unfold mem_WriteAllText. rewrite Hm.
  apply in_directory_marker in Hd. unfold in_directory in Hd. rewrite Hd.
  unfold listable in Hl. apply andb_true_iff in Hl as [-> _]. done.
Qed.

(** C2, as the claim states it, fails: the deletion of ["d/a"] fails, the
    marker is written with the token [77] of the file's last write, and the
    sweep, with the file unchanged and still held, removes the marker and
    leaves the file. *)
Lemma sweep_keeps_held_file :
  FileExists "d/a" fs_held = true /\
  DeleteFile "d/a" fs_held = (Raised UnauthorizedAccessException, fs_held) /\
  exists s1 s2,
    TryDeleteOrMark "d/a" fs_held = (Returned tt, s1) /\
    ReadAllText "d/a.delete" s1 = (Returned "77", s1) /\
    GetLastWriteTimeUtc "d/a" s1 = (Returned (FileTimeOffset + 77), s1) /\
    TryDeleteMarkedFiles "d" s1 = (Returned tt, s2) /\
    FileExists "d/a" s2 = true /\
    FileExists "d/a.delete" s2 = false.
Proof.
  split; [reflexivity|]. split; [reflexivity|].
  eexists. eexists.
  split; [vm_compute; reflexivity|].
  split; [vm_compute; reflexivity|].
  split; [vm_compute; reflexivity|].
  split; [vm_compute; reflexivity|].
  split; reflexivity.
Qed.

(** ** Mark, then sweep *)

Lemma marker_pending_mark p f s :
  find_file p (Files s) = Some f ->
  find_file (p +:+ ".delete") (Files s) = None ->
  find_file ((p +:+ ".delete") +:+ ".delete") (Files s) = None ->
  marker_pending p f (marker_of (LastWrite f) (Clock s)) (mark p (LastWrite f) s).
Proof.
  intros Hp Hm Hmm. split; [|split].
  - rewrite find_file_mark_ne; [done|]. intros Heq. by apply (append_marker_ne p).
  - by apply find_file_mark_new.
  - rewrite find_file_mark_ne; [done|]. apply append_marker_ne.
Qed.

Lemma marker_pending_modify p g actual marker u :
  marker_pending p actual marker u ->
  marker_pending p (g actual) marker (modify p g u).
Proof.
  intros (Hp & Hm & Hmm). unfold marker_pending. rewrite !find_file_modify.
  rewrite decide_True by done. rewrite Hp.
  rewrite decide_False by apply append_marker_ne.
  rewrite decide_False; [done|].
  intros Heq. apply (f_equal String.length) in Heq.
  rewrite !length_append_s in Heq. simpl in Heq. lia.
Qed.

Lemma TryParse_marker_of written now :
  FileTimeOffset <= written <= MaxTicks ->
  TryParse (Content (marker_of written now)) = Some (written - FileTimeOffset).
Proof.
  intros Hw. apply TryParse_ToInvariant. unfold FileTimeOffset, MaxTicks in *. lia.
Qed.

(** C2 (amended). A file exists, its deletion fails, its last write time
    is a valid date from 1601 on, it is not itself named [*.delete], its
    directory can be listed, and neither its marker nor a marker of its
    marker exists yet.  Then [TryDeleteOrMark] returns having written the
    marker [path + ".delete"] whose content is the decimal token of the
    file's last write time, the file being as it was.  A later
    [TryDeleteMarkedFiles] on the directory removes the marker in every
    case, and
    - removes the file as well when its last write time is unchanged and
      its deletion now succeeds (the file has been released);
    - leaves the file when its last write time is unchanged but its
      deletion still fails;
    - leaves the file untouched when its last write time has changed,
      whether or not it has been released. *)
Theorem TryDeleteOrMark_then_sweep (s : MemFS) (p d : string) (f : FileData) :
  find_file p (Files s) = Some f ->
  DenyDelete f = true ->
  FileTimeOffset <= LastWrite f <= MaxTicks ->
  ends_with ".delete" p = false ->
  in_directory d p -> listable d s = true ->
  find_file (p +:+ ".delete") (Files s) = None ->
  find_file ((p +:+ ".delete") +:+ ".delete") (Files s) = None ->
  exists s1,
    TryDeleteOrMark p s = (Returned tt, s1) /\
    find_file p (Files s1) = Some f /\
    ReadAllText (p +:+ ".delete") s1
      = (Returned (ToInvariant (LastWrite f - FileTimeOffset)), s1) /\
    (exists s2,
       TryDeleteMarkedFiles d (release p s1) = (Returned tt, s2) /\
       FileExists p s2 = false /\
       FileExists (p +:+ ".delete") s2 = false) /\
    (exists s2,
       TryDeleteMarkedFiles d s1 = (Returned tt, s2) /\
       find_file p (Files s2) = Some f /\
       FileExists (p +:+ ".delete") s2 = false) /\
    (forall (t' : DateTime) (freed : bool),
       FileTimeOffset <= t' -> t' <> LastWrite f ->
       let s1' := touch p t' (if freed then release p s1 else s1) in
       exists s2,
         TryDeleteMarkedFiles d s1' = (Returned tt, s2) /\
         find_file p (Files s2) = find_file p (Files s1') /\
         FileExists (p +:+ ".delete") s2 = false).
Proof.
  intros Hp Hdeny Hvalid Hnot Hd Hl Hm Hmm.
  set (marker := marker_of (LastWrite f) (Clock s)).
  set (token := LastWrite f - FileTimeOffset).
  pose proof (marker_pending_mark p f s Hp Hm Hmm) as Hpend. fold marker in Hpend.
  assert (Hparse : TryParse (Content marker) = Some token)
    by by apply TryParse_marker_of.
  assert (Hsweep : forall actual w,
    listable d w = true -> FileTimeOffset <= LastWrite actual ->
    marker_pending p actual marker w ->
    exists w', TryDeleteMarkedFiles d w = (Returned tt, w') /\
               marker_settled p token actual w').
  { intros actual w Hlw Hva Hw.
    by apply (sweep_marked_file d p token actual marker). }
  exists (mark p (LastWrite f) s). split; [|split; [|split; [|split; [|split]]]].
  - apply (TryDeleteOrMark_mem_held d); try done. lia.
  - by destruct Hpend.
  - destruct Hpend as (_ & Hfm & _). simpl. unfold mem_ReadAllText.
    by rewrite Hfm.
  - destruct (Hsweep (released f) (release p (mark p (LastWrite f) s)))
      as (w' & Hrun & Hfp & Hfm & _).
    + exact Hl.
    + simpl. lia.
    + apply (marker_pending_modify p released f marker), Hpend.
    + exists w'. split; [exact Hrun|].
      unfold sweep_expected in Hfp. simpl in Hfp. fold token in Hfp.
      rewrite Z.eqb_refl in Hfp. split; by apply find_None_FileExists.
  - destruct (Hsweep f (mark p (LastWrite f) s)) as (w' & Hrun & Hfp & Hfm & _);
      [exact Hl|lia|exact Hpend|].
    exists w'. split; [exact Hrun|].
    unfold sweep_expected in Hfp. rewrite Hdeny, andb_false_r in Hfp.
    split; [done|by apply find_None_FileExists].
  - intros t' freed Ht' Hchanged s1'.
    assert (Hpend' : exists actual,
      marker_pending p actual marker s1' /\ LastWrite actual = t').
    { destruct freed.
      - exists (touched t' (released f)). split; [|done].
        apply (marker_pending_modify p (touched t') (released f) marker).
        apply (marker_pending_modify p released f marker), Hpend.
      - exists (touched t' f). split; [|done].
        apply (marker_pending_modify p (touched t') f marker), Hpend. }
    destruct Hpend' as (actual & Hpend' & Hlw).
    destruct (Hsweep actual s1') as (w' & Hrun & Hfp & Hfm & _);
      [by destruct freed|lia|exact Hpend'|].
    exists w'. split; [exact Hrun|].
    split; [|by apply find_None_FileExists].
    destruct Hpend' as (-> & _). rewrite Hfp. unfold sweep_expected.
    rewrite Hlw. destruct (Z.eqb_spec token (t' - FileTimeOffset)) as [Heq|]; [|done].
    unfold token in Heq. lia.
Qed.

Lemma TryDeleteOrMark_then_sweep_witness :
  exists s1,
    TryDeleteOrMark "d/a" fs_held = (Returned tt, s1) /\
    ReadAllText "d/a.delete" s1 = (Returned "77", s1) /\
    exists s2,
      TryDeleteMarkedFiles "d" (release "d/a" s1) = (Returned tt, s2) /\
      FileExists "d/a" s2 = false /\
      FileExists "d/a.delete" s2 = false.
Proof.
  destruct (TryDeleteOrMark_then_sweep fs_held "d/a" "d"
              (undeletable "x" (FileTimeOffset + 5) (FileTimeOffset + 77)))
    as (s1 & Hrun & _ & Hread & Hfreed & _).
  - reflexivity.
  - reflexivity.
  - simpl. unfold FileTimeOffset, MaxTicks. lia.
  - reflexivity.
  - reflexivity.
  - reflexivity.
  - reflexivity.
  - reflexivity.
  - exists s1. split; [exact Hrun|]. split; [exact Hread|exact Hfreed].
Defined.

(** ** Sweeping twice *)

(** C7, as the claim states it, fails: the marker ["d/x.delete"] was last
    written before 1601, so the turn for its own marker
    ["d/x.delete.delete"] ends in the [catch] and leaves it; the next turn
    deletes ["d/x"] and, as its companion, ["d/x.delete"].  A second sweep
    finds ["d/x.delete.delete"] without its file and deletes it. *)
Lemma sweep_twice_differs :
  TryDeleteMarkedFiles "d" fs_chain
    = (Returned tt,
       mkFS [("d/x.delete.delete",
              plain "0" (FileTimeOffset + 9) (FileTimeOffset + 9))]
            ["d"] [] (FileTimeOffset + 100)) /\
  TryDeleteMarkedFiles "d" (TryDeleteMarkedFiles "d" fs_chain).2
    = (Returned tt, mkFS [] ["d"] [] (FileTimeOffset + 100)) /\
  (TryDeleteMarkedFiles "d" (TryDeleteMarkedFiles "d" fs_chain).2).2
    <> (TryDeleteMarkedFiles "d" fs_chain).2.
Proof. vm_compute. repeat split; discriminate. Qed.

Lemma shrinks_refl u : shrinks u u.
Proof. exists []. by rewrite drop_keys_nil. Qed.

Lemma shrinks_trans u v w : shrinks u v -> shrinks v w -> shrinks u w.
Proof.
  intros [D1 ->] [D2 ->]. exists (D1 ++ D2). apply drop_keys_drop_keys.
Qed.

Lemma shrinks_find_Some u u' q f :
  shrinks u u' -> find_file q (Files u') = Some f -> find_file q (Files u) = Some f.
Proof. intros [D ->]. rewrite find_file_drop_keys. by case_decide. Qed.

Lemma shrinks_find_None u u' q :
  shrinks u u' -> find_file q (Files u) = None -> find_file q (Files u') = None.
Proof. intros [D ->] Hq. rewrite find_file_drop_keys. by case_decide. Qed.

Lemma shrinks_tryDelete_fs p s : shrinks s (tryDelete_fs p s).
Proof. destruct (tryDelete_fs_drop_keys p s) as (D & _ & HD). by exists D. Qed.

Lemma shrinks_sweep_fs y s : shrinks s (sweep_fs y s).
Proof.
  unfold sweep_fs.
  destruct (find_file y (Files s)) as [marker|]; [|apply shrinks_refl].
  destruct (DenyRead marker); [apply shrinks_refl|].
  destruct (DropLast7 y) as [a|]; [|apply shrinks_refl].
  destruct (find_file a (Files s)) as [actual|]; [|apply shrinks_tryDelete_fs].
  destruct (TryParse (Content marker)) as [tok|]; [|apply shrinks_tryDelete_fs].
  destruct (ToFileTimeUtc (LastWrite actual)) as [cur|]; [|apply shrinks_refl].
  destruct (tok =? cur).
  - eapply shrinks_trans; apply shrinks_tryDelete_fs.
  - apply shrinks_tryDelete_fs.
Qed.

Lemma shrinks_sweep_all L s : shrinks s (sweep_all L s).
Proof.
  revert s. induction L as [|y L IH]; intros s; [apply shrinks_refl|].
  simpl. eapply shrinks_trans; [apply shrinks_sweep_fs|apply IH].
Qed.

Lemma shrinks_elem u u' e : shrinks u u' -> e ∈ Files u' -> e ∈ Files u.
Proof.
  intros [D ->] He. unfold drop_keys in He. simpl in He.
  by apply list_elem_of_filter in He as [_ ?].
Qed.

Lemma valid_times_shrinks u u' : shrinks u u' -> valid_times u -> valid_times u'.
Proof. intros Hs Hu p f Hp. apply (Hu p f). by apply (shrinks_elem u u'). Qed.

Lemma shrinks_markers d u u' y : shrinks u u' -> y ∈ markers d u' -> y ∈ markers d u.
Proof.
  intros Hs ((f & Hy) & Hd & Hm)%elem_of_markers. apply elem_of_markers.
  split; [|done]. exists f. by apply (shrinks_elem u u').
Qed.

(** a file that is still there after [TryDelete] cannot be deleted *)
Lemma tryDelete_fs_survivor p f s :
  find_file p (Files (tryDelete_fs p s)) = Some f -> DenyDelete f = true.
Proof.
  intros Hf.
  pose proof (shrinks_find_Some _ _ _ _ (shrinks_tryDelete_fs p s) Hf) as Hp.
  unfold tryDelete_fs in Hf. rewrite Hp in Hf.
  destruct (DenyDelete f) eqn:Hd; [done|].
  destruct (delete_quiet_drop_keys (p +:+ ".delete") (set_files (remove_file p) s))
    as (D & _ & HD).
  rewrite HD, find_file_drop_keys in Hf. simpl in Hf.
  rewrite find_file_remove_eq in Hf. by case_decide.
Qed.

(** once its turn is over, a marker that is still there stays, and so does
    everything else, when its turn comes again *)
Lemma sweep_fs_stuck a u u' marker :
  valid_times u ->
  shrinks (sweep_fs (a +:+ ".delete") u) u' ->
  find_file (a +:+ ".delete") (Files u') = Some marker ->
  sweep_fs (a +:+ ".delete") u' = u' /\
  (DenyRead marker = true \/ DenyDelete marker = true).
Proof.
  set (y := a +:+ ".delete"). intros Hvalid Hshrink Hy'.
  pose proof (shrinks_find_Some _ _ _ _ Hshrink Hy') as Hy1.
  pose proof (shrinks_find_Some _ _ _ _ (shrinks_sweep_fs y u) Hy1) as Hy.
  assert (Hblocked : DenyDelete marker = true ->
                     tryDelete_fs y u' = u').
  { intros Hd. by apply (tryDelete_fs_blocked y marker). }
  unfold sweep_fs at 1. rewrite Hy'.
  unfold sweep_fs in Hshrink, Hy1. rewrite Hy in Hshrink, Hy1.
  destruct (DenyRead marker) eqn:Hread; [by split; [|left]|].
  rewrite (DropLast7_marker a : DropLast7 y = Returned a) in *.
  destruct (find_file a (Files u)) as [actual|] eqn:Ha.
  - destruct (TryParse (Content marker)) as [tok|].
    + assert (Hva : FileTimeOffset <= LastWrite actual).
      { apply (Hvalid a). by apply find_file_Some_elem. }
      unfold ToFileTimeUtc in *.
      destruct (Z.ltb_spec (LastWrite actual - FileTimeOffset) 0); [lia|].
      assert (Hd : DenyDelete marker = true)
        by by apply (tryDelete_fs_survivor y marker _ Hy1).
      split; [|by right].
      destruct (find_file a (Files u')) as [actual'|] eqn:Ha'; [|by apply Hblocked].
      assert (actual' = actual) as ->.
      { pose proof (shrinks_find_Some _ _ _ _ Hshrink Ha') as H1.
        pose proof (shrinks_find_Some _ _ _ _ (shrinks_tryDelete_fs y _) H1) as H2.
        destruct (tok =? _).
        - pose proof (shrinks_find_Some _ _ _ _ (shrinks_tryDelete_fs a u) H2).
          congruence.
        - congruence. }
      destruct (Z.ltb_spec (LastWrite actual - FileTimeOffset) 0); [lia|].
      destruct (tok =? _); [|by apply Hblocked].
      rewrite (tryDelete_fs_blocked a actual); [by apply Hblocked|done|].
      apply (tryDelete_fs_survivor a actual u).
      eapply shrinks_find_Some; [apply shrinks_tryDelete_fs|].
      eapply shrinks_find_Some; [exact Hshrink|exact Ha'].
    + assert (Hd : DenyDelete marker = true)
        by by apply (tryDelete_fs_survivor y marker _ Hy1).
      split; [|by right].
      destruct (find_file a (Files u')); by apply Hblocked.
  - assert (Hd : DenyDelete marker = true)
      by by apply (tryDelete_fs_survivor y marker _ Hy1).
    split; [|by right].
    assert (Ha' : find_file a (Files u') = None).
    { eapply shrinks_find_None; [|exact Ha].
      eapply shrinks_trans; [apply shrinks_sweep_fs|].
      unfold sweep_fs. rewrite Hy, Hread.
      rewrite (DropLast7_marker a : DropLast7 y = Returned a), Ha. exact Hshrink. }
    rewrite Ha'. by apply Hblocked.
Qed.

Lemma sweep_all_stuck L u y marker :
  valid_times u ->
  y ∈ L -> ends_with ".delete" y = true ->
  find_file y (Files (sweep_all L u)) = Some marker ->
  sweep_fs y (sweep_all L u) = sweep_all L u /\
  (DenyRead marker = true \/ DenyDelete marker = true).
Proof.
  revert u. induction L as [|x L IH]; intros u Hvalid Hin Hends Hy.
  - by apply not_elem_of_nil in Hin.
  - simpl in *. apply elem_of_cons in Hin as [->|Hin].
    + apply ends_with_DropLast7 in Hends as (a & -> & _).
      apply (sweep_fs_stuck a u); [done|apply shrinks_sweep_all|done].
    + apply IH; try done.
      apply (valid_times_shrinks u); [apply shrinks_sweep_fs|done].
Qed.

Lemma sweep_all_fixed L s :
  (forall y, y ∈ L -> sweep_fs y s = s) -> sweep_all L s = s.
Proof.
  induction L as [|y L IH]; intros HL; [done|].
  simpl. rewrite (HL y) by apply list_elem_of_here.
  apply IH. intros y' Hy'. apply HL. by apply list_elem_of_further.
Qed.

(** C7 (amended). On every state in which each file's last write time is
    a file time (1601 or later, so that [ToFileTimeUtc] does not raise),
    [TryDeleteMarkedFiles] run twice in a row ends like the first run: the
    second run has the outcome of the first and changes nothing.  When the
    directory can be listed, the markers left in it after the first run
    are markers that could not be read or could not be deleted. *)
Theorem TryDeleteMarkedFiles_idempotent (s : MemFS) (d : string) :
  valid_times s ->
  TryDeleteMarkedFiles d (TryDeleteMarkedFiles d s).2 = TryDeleteMarkedFiles d s /\
  (listable d s = true ->
   forall y, y ∈ markers d (TryDeleteMarkedFiles d s).2 ->
     exists marker,
       find_file y (Files (TryDeleteMarkedFiles d s).2) = Some marker /\
       (DenyRead marker = true \/ DenyDelete marker = true)).
Proof.
  intros Hvalid. rewrite (TryDeleteMarkedFiles_mem d s).
  destruct (bool_decide (d ∈ Dirs s)) eqn:Hdir; cbn [negb].
  - destruct (listable d s) eqn:Hl; cbn [snd fst].
    + set (s1 := sweep_all (markers d s) s).
      assert (Hshrink : shrinks s s1) by apply shrinks_sweep_all.
      assert (Hstuck : forall y, y ∈ markers d s1 ->
        exists marker, find_file y (Files s1) = Some marker /\
          sweep_fs y s1 = s1 /\
          (DenyRead marker = true \/ DenyDelete marker = true)).
      { intros y Hy. pose proof (markers_spec d s1 y Hy) as [Hends Hfind].
        destruct (find_file y (Files s1)) as [marker|] eqn:Hfy; [|done].
        exists marker. split; [done|].
        apply sweep_all_stuck; try done. by apply (shrinks_markers d s s1). }
      split.
      * rewrite TryDeleteMarkedFiles_mem.
        replace (Dirs s1) with (Dirs s) by (by destruct Hshrink as [D ->]).
        replace (listable d s1) with (listable d s)
          by (by destruct Hshrink as [D ->]).
        rewrite Hdir, Hl. cbn [negb]. f_equal. apply sweep_all_fixed.
        intros y Hy. by destruct (Hstuck y Hy) as (marker & _ & ? & _).
      * intros _ y Hy. destruct (Hstuck y Hy) as (marker & Hf & _ & Hdeny).
        by exists marker.
    + split; [|done]. by rewrite TryDeleteMarkedFiles_mem, Hdir, Hl.
  - cbn [snd fst]. split.
    + by rewrite TryDeleteMarkedFiles_mem, Hdir.
    + unfold listable. by rewrite Hdir.
Qed.

Lemma TryDeleteMarkedFiles_idempotent_witness :
  TryDeleteMarkedFiles "d" (TryDeleteMarkedFiles "d" fs_stuck_marker).2
  = (Returned tt,
     mkFS [("d/a.delete",
            undeletable "3" (FileTimeOffset + 2) (FileTimeOffset + 4))]
          ["d"] [] (FileTimeOffset + 100)).
Proof.
  refine (eq_trans (proj1 (TryDeleteMarkedFiles_idempotent fs_stuck_marker "d" _)) _).
  - intros p f Hp. vm_compute in Hp.
    repeat (apply elem_of_cons in Hp as [Hp|Hp];
            [inversion Hp; subst; vm_compute; discriminate|]).
    by apply not_elem_of_nil in Hp.
  - reflexivity.
Defined.

(** ** Which calls of the delete primitives can raise *)

Lemma try_catch_returns {FS} (m : M FS unit) (s : FS) :
  try_catch m s = (Returned tt, (m s).2).
Proof. unfold try_catch. by destruct (m s) as [[[]|e] s']. Qed.

Lemma TryDelete_run {FS} `{ITemporaryFileSystem FS} (filePath : string) (s : FS) :
  TryDelete filePath s
  = (Returned tt, if FileExists filePath s then (Delete filePath s).2 else s).
Proof.
  unfold TryDelete, bind, gets, when.
  destruct (FileExists filePath s); [apply try_catch_returns|done].
Qed.

Lemma TryDeleteOrMark_returns {FS} `{ITemporaryFileSystem FS} (filePath : string)
    (s : FS) :
  exists s', TryDeleteOrMark filePath s = (Returned tt, s').
Proof.
  unfold TryDeleteOrMark, bind at 1. rewrite TryDelete_run.
  unfold bind, gets, when.
  match goal with |- context [FileExists filePath ?u] =>
    destruct (FileExists filePath u) end; [|by eexists].
  rewrite try_catch_returns. by eexists.
Qed.

Lemma Delete_raises {FS} `{ITemporaryFileSystem FS} (filePath : string)
    (s s' : FS) (e : Exn) :
  Delete filePath s = (Raised e, s') <->
  FileExists filePath s = true /\ DeleteFile filePath s = (Raised e, s').
Proof.
  unfold Delete, bind, gets, when.
  destruct (FileExists filePath s).
  - destruct (DeleteFile filePath s) as [[[]|e1] s1].
    + split; [|by intros [_ [=]]].
      destruct (FileExists (filePath +:+ ".delete") s1); [|done].
      by rewrite try_catch_returns.
    + split; [by intros [= -> ->]|by intros [_ [= -> ->]]].
  - unfold ret. split; [|by intros [[=] _]].
    destruct (FileExists (filePath +:+ ".delete") s); [|done].
    by rewrite try_catch_returns.
Qed.

(** X1. [TryDelete] swallows what [Delete] raises, on every file system:
    on a path that exists it returns and leaves the state [Delete] leaves,
    also when [Delete] raises half way; on a path that does not exist it
    returns without calling [Delete], so the state is as it was.  On such
    a path [TryDeleteOrMark] too leaves the state as it was: it writes no
    marker for a file that is not there. *)
Theorem TryDelete_swallows :
  forall (FS : Type) (I : ITemporaryFileSystem FS) (filePath : string) (s : FS),
    TryDelete filePath s
    = (Returned tt, if FileExists filePath s then (Delete filePath s).2 else s) /\
    (FileExists filePath s = false ->
     TryDeleteOrMark filePath s = (Returned tt, s)).
Proof.
  intros FS I filePath s. split; [apply TryDelete_run|].
  intros Hex. unfold TryDeleteOrMark. unfold bind at 1.
  rewrite TryDelete_run, Hex. unfold bind, gets. by rewrite Hex.
Qed.

(** X2. The overload [Delete(filePath, type)] raises in exactly one
    situation, on every file system: the type is [DeleteType.Delete], the
    file exists and [DeleteFile] raises for it; the exception and the
    state are those of that [DeleteFile].  A failure to delete or to write
    the marker never reaches the caller. *)
Theorem DeleteWith_raises_iff :
  forall (FS : Type) (I : ITemporaryFileSystem FS) (filePath : string)
         (type : DeleteType) (s s' : FS) (e : Exn),
    DeleteWith filePath type s = (Raised e, s') <->
    type = DeleteType_Delete /\ FileExists filePath s = true /\
    DeleteFile filePath s = (Raised e, s').
Proof.
  intros FS I filePath type s s' e. destruct type; simpl.
  - rewrite Delete_raises. tauto.
  - rewrite TryDelete_run. split; [done|by intros [[=] _]].
  - destruct (TryDeleteOrMark_returns filePath s) as [s1 ->].
    split; [done|by intros [[=] _]].
Qed.

Lemma foreach_try_returns {FS A} (l : list A) (body : A -> M FS unit) (s : FS) :
  (forall x u, exists u', body x u = (Returned tt, u')) ->
  exists s', foreach l body s = (Returned tt, s').
Proof.
  intros Hbody. revert s. induction l as [|x l IH]; intros s; simpl.
  - by eexists.
  - unfold bind. destruct (Hbody x s) as [u ->]. apply IH.
Qed.

Lemma sweepMarker_returns {FS} `{ITemporaryFileSystem FS} (name : string) (s : FS) :
  exists s', sweepMarker name s = (Returned tt, s').
Proof. unfold sweepMarker. rewrite try_catch_returns. by eexists. Qed.

(** X3. On every file system, [TryDeleteMarkedFiles] returns without
    touching anything when the directory does not exist, and otherwise
    raises exactly when listing the markers with [GetFiles] raises, with
    that exception and that state.  Whatever goes wrong with a single
    marker (reading it, a name shorter than the suffix, a file time that
    cannot be computed, a deletion) stays inside the loop. *)
Theorem TryDeleteMarkedFiles_raises_iff :
  forall (FS : Type) (I : ITemporaryFileSystem FS) (path : string) (s : FS),
    (DirectoryExists path s = false ->
     TryDeleteMarkedFiles path s = (Returned tt, s)) /\
    (forall (s' : FS) (e : Exn),
       TryDeleteMarkedFiles path s = (Raised e, s') <->
       DirectoryExists path s = true /\
       GetFiles path "*.delete" s = (Raised e, s')) /\
    (forall (names : list string) (s1 : FS),
       GetFiles path "*.delete" s = (Returned names, s1) ->
       exists s', TryDeleteMarkedFiles path s = (Returned tt, s')).
Proof.
  intros FS I path s. unfold TryDeleteMarkedFiles, bind, gets.
  destruct (DirectoryExists path s); simpl.
  - split; [done|].
    destruct (GetFiles path "*.delete" s) as [[names|e1] s1].
    + destruct (foreach_try_returns names sweepMarker s1 sweepMarker_returns)
        as [s2 Hs2].
      split.
      * intros s' e. rewrite Hs2. split; [done|by intros [_ [=]]].
      * intros names' s1' _. by exists s2.
    + split.
      * intros s' e. split; [by intros [= -> ->]|by intros [_ [= -> ->]]].
      * by intros names s1' [=].
  - split; [done|]. split.
    + intros s' e. unfold ret. split; [done|by intros [[=] _]].
    + intros names s1 _. by exists s.
Qed.

(** ** Sorting a listing from which entries have gone *)

Lemma insert_sorted_front t r :
  Forall (fun k => CreationTime k <= CreationTime t) r ->
  insert_sorted byCreationTime t r = t :: r.
Proof.
  destruct r as [|k r]; [done|]. intros Hr. simpl.
  apply Forall_cons_1 in Hr as [Hk _]. unfold byCreationTime.
  destruct (CreationTime t <? CreationTime k) eqn:E; [lia|done].
Qed.

Lemma insert_sorted_filter (P : TemporaryFileInfo -> Prop)
    `{forall x, Decision (P x)} t r :
  StronglySorted (flip not_newer) r ->
  filter P (insert_sorted byCreationTime t r)
  = if decide (P t) then insert_sorted byCreationTime t (filter P r)
    else filter P r.
Proof.
  induction 1 as [|k r Hr IH Hk]; simpl.
  - rewrite filter_cons, filter_nil. by case_decide.
  - unfold byCreationTime at 1.
    destruct (CreationTime t <? CreationTime k) eqn:E; simpl.
    + rewrite !filter_cons, IH. destruct (decide (P k)); [|done].
      case_decide; [|done]. simpl. unfold byCreationTime at 2. by rewrite E.
    + rewrite (filter_cons _ t). case_decide; [|done].
      rewrite insert_sorted_front; [done|].
      apply Forall_forall. intros y Hy.
      apply list_elem_of_filter in Hy as [_ Hy].
      rewrite elem_of_cons in Hy. destruct Hy as [->|Hy]; [lia|].
      rewrite Forall_forall in Hk. specialize (Hk y Hy).
      unfold flip, not_newer in Hk. lia.
Qed.

Lemma fold_insert_filter (P : TemporaryFileInfo -> Prop)
    `{forall x, Decision (P x)} l acc :
  StronglySorted (flip not_newer) acc ->
  filter P (fold_left (fun rkeys t => insert_sorted byCreationTime t rkeys) l acc)
  = fold_left (fun rkeys t => insert_sorted byCreationTime t rkeys)
      (filter P l) (filter P acc).
Proof.
  revert acc. induction l as [|x l IH]; intros acc Hacc; simpl; [done|].
  rewrite IH by by apply insert_sorted_desc.
  rewrite insert_sorted_filter by done. rewrite filter_cons.
  by case_decide.
Qed.

Lemma Array_Sort_filter (P : TemporaryFileInfo -> Prop)
    `{forall x, Decision (P x)} l :
  Array_Sort byCreationTime (filter P l) = filter P (Array_Sort byCreationTime l).
Proof.
  unfold Array_Sort. rewrite filter_reverse. f_equal.
  rewrite fold_insert_filter by constructor. done.
Qed.

Lemma count_pass_order_filter (P : TemporaryFileInfo -> Prop)
    `{forall x, Decision (P x)} maxf l :
  count_pass_order maxf (filter P l) = filter P (count_pass_order maxf l).
Proof.
  unfold count_pass_order. destruct (negb (maxf =? 0)); [|done].
  apply Array_Sort_filter.
Qed.

Lemma count_pass_order_length maxf l :
  length (count_pass_order maxf l) = length l.
Proof.
  unfold count_pass_order. destruct (negb (maxf =? 0)); [|done].
  apply Array_Sort_length.
Qed.

(** after entries have gone from a listing, the part beyond the cap lies
    within what is left of the old part beyond the cap *)
Lemma take_filter_beyond_cap {A} (P : A -> Prop) `{forall x, Decision (P x)}
    (S : list A) (k : nat) x :
  (k <= length S)%nat ->
  x ∈ take (length (filter P S) - k) (filter P S) ->
  x ∈ filter P (take (length S - k) S).
Proof.
  intros Hk Hx.
  rewrite <- (take_drop (length S - k) S) in Hx at 2.
  rewrite <- (take_drop (length S - k) S) in Hx at 1.
  rewrite filter_app in Hx. rewrite length_app in Hx.
  assert (length (filter P (drop (length S - k) S)) <= k)%nat as Hle.
  { etrans; [apply length_filter|]. rewrite length_drop. lia. }
  rewrite take_app_le in Hx by lia.
  by apply subseteq_take in Hx.
Qed.

(** ** What survives a pass, and running the passes again *)

Lemma without_fixed ps s :
  (forall e, e ∈ Files s -> e.1 ∈ ps -> blocked e.1 s = true) -> without ps s = s.
Proof.
  intros Hb. unfold without, set_files.
  rewrite filter_true_id; [by destruct s|].
  intros e He [Hin Hbl]. by rewrite (Hb e He Hin) in Hbl.
Qed.

Lemma blocked_without_true q ps s :
  blocked q s = true -> blocked q (without ps s) = true.
Proof.
  intros Hq. rewrite blocked_without; [done|]. intros [_ Hf]. congruence.
Qed.

Lemma elem_of_entries_without d ps s fi :
  fi ∈ entries d (without ps s) <->
  fi ∈ entries d s /\ ~ (FullName fi ∈ ps /\ blocked (FullName fi) s = false).
Proof. rewrite entries_without, list_elem_of_filter. tauto. Qed.

Lemma blocked_age_pass q d chk aet maxf now s :
  blocked q s = true -> blocked q (age_pass d chk aet maxf now s) = true.
Proof.
  destruct (age_pass_without d chk aet maxf now s) as (l & _ & ->).
  apply blocked_without_true.
Qed.

Lemma blocked_count_pass q d chk maxf s :
  blocked q s = true -> blocked q (count_pass d chk maxf s) = true.
Proof.
  destruct (count_pass_without d chk maxf s) as (l & _ & ->).
  apply blocked_without_true.
Qed.

(** an entry left by the age-based pass was there before, and if the pass
    was after it, its deletion raised *)
Lemma age_pass_survivor d chk aet maxf now s fi :
  fi ∈ entries d (age_pass d chk aet maxf now s) ->
  fi ∈ entries d s /\
  (age_enabled aet maxf = true -> CreationTime fi < now - aet ->
   EqualsIgnoreCase chk (Name fi) = false -> blocked (FullName fi) s = true).
Proof.
  unfold age_pass, age_enabled.
  destruct (negb (aet =? 0) && negb (maxf =? 0))%bool; [|by intros; split].
  rewrite delete_each_without, elem_of_entries_without.
  intros [Hfi Hkeep]. split; [done|]. intros _ Hold Hchk.
  destruct (blocked (FullName fi) s) eqn:Hb; [done|]. destruct Hkeep.
  split; [|done]. apply elem_of_candidates. exists fi.
  split; [|done]. by apply list_elem_of_filter.
Qed.

(** an entry left by the count-based pass was there before, and if the
    pass was after it, its deletion raised *)
Lemma count_pass_survivor d chk maxf s fi :
  fi ∈ entries d (count_pass d chk maxf s) ->
  fi ∈ entries d s /\
  (0 <= maxf ->
   fi ∈ take (length (entries d s) - Z.to_nat maxf)
          (count_pass_order maxf (entries d s)) ->
   EqualsIgnoreCase chk (Name fi) = false -> blocked (FullName fi) s = true).
Proof.
  unfold count_pass.
  destruct ((0 <=? maxf) && (maxf <? Z.of_nat (length (entries d s))))%bool eqn:Hact.
  - rewrite delete_each_without, elem_of_entries_without.
    intros [Hfi Hkeep]. split; [done|]. intros Hmax Hin Hchk.
    destruct (blocked (FullName fi) s) eqn:Hb; [done|]. destruct Hkeep.
    split; [|done]. apply elem_of_candidates. exists fi.
    split; [|done].
    replace (Z.to_nat (Z.of_nat (length (entries d s)) - maxf))
      with (length (entries d s) - Z.to_nat maxf)%nat by lia.
    done.
  - intros Hfi. split; [done|]. intros Hmax Hin.
    apply andb_false_iff in Hact as [Hact|Hact]; [lia|].
    replace (length (entries d s) - Z.to_nat maxf)%nat with 0%nat in Hin by lia.
    by apply not_elem_of_nil in Hin.
Qed.

(** the age-based pass changes nothing when the deletion of every expired
    entry raises *)
Lemma age_pass_fixed d chk aet maxf now s :
  (forall fi, fi ∈ entries d s -> age_enabled aet maxf = true ->
     CreationTime fi < now - aet -> EqualsIgnoreCase chk (Name fi) = false ->
     blocked (FullName fi) s = true) ->
  age_pass d chk aet maxf now s = s.
Proof.
  intros Hs. unfold age_pass.
  destruct (negb (aet =? 0) && negb (maxf =? 0))%bool eqn:Hage; [|done].
  rewrite delete_each_without. apply without_fixed.
  intros e _ Hin. apply elem_of_candidates in Hin as (fi & Hfi & <- & Hchk).
  apply list_elem_of_filter in Hfi as [Hold Hfi]. by apply Hs.
Qed.

(** the count-based pass changes nothing when the deletion of every entry
    beyond the cap raises *)
Lemma count_pass_fixed d chk maxf s :
  (forall fi, 0 <= maxf ->
     fi ∈ take (length (entries d s) - Z.to_nat maxf)
            (count_pass_order maxf (entries d s)) ->
     EqualsIgnoreCase chk (Name fi) = false -> blocked (FullName fi) s = true) ->
  count_pass d chk maxf s = s.
Proof.
  intros Hs. unfold count_pass.
  destruct ((0 <=? maxf) && (maxf <? Z.of_nat (length (entries d s))))%bool eqn:Hact;
    [|done].
  apply andb_true_iff in Hact as [Hmax Hn].
  rewrite delete_each_without. apply without_fixed.
  intros e _ Hin. apply elem_of_candidates in Hin as (fi & Hfi & <- & Hchk).
  apply Hs; [lia| |done].
  replace (length (entries d s) - Z.to_nat maxf)%nat
    with (Z.to_nat (Z.of_nat (length (entries d s)) - maxf)) by lia.
  done.
Qed.

Lemma count_pass_again d chk maxf s :
  count_pass d chk maxf (count_pass d chk maxf s) = count_pass d chk maxf s.
Proof.
  apply count_pass_fixed. intros fi Hmax Hin Hchk.
  apply blocked_count_pass.
  destruct ((0 <=? maxf) && (maxf <? Z.of_nat (length (entries d s))))%bool eqn:Hact.
  - assert (Hent : entries d (count_pass d chk maxf s)
                   = filter (fun fi => ~ (FullName fi ∈
                         candidates chk
                           (take (Z.to_nat (Z.of_nat (length (entries d s)) - maxf))
                              (count_pass_order maxf (entries d s)))
                       /\ blocked (FullName fi) s = false)) (entries d s)).
    { unfold count_pass. rewrite Hact, delete_each_without. apply entries_without. }
    rewrite Hent in Hin. rewrite count_pass_order_filter in Hin.
    rewrite <- (count_pass_order_length maxf (filter _ (entries d s))) in Hin.
    rewrite count_pass_order_filter in Hin.
    apply take_filter_beyond_cap in Hin;
      [|rewrite count_pass_order_length; apply andb_true_iff in Hact; lia].
    apply list_elem_of_filter in Hin as [Hkeep Hin].
    destruct (blocked (FullName fi) s) eqn:Hb; [done|]. destruct Hkeep.
    split; [|done]. apply elem_of_candidates. exists fi. split; [|done].
    rewrite count_pass_order_length in Hin.
    replace (Z.to_nat (Z.of_nat (length (entries d s)) - maxf))
      with (length (entries d s) - Z.to_nat maxf)%nat by lia.
    done.
  - assert (Hsame : count_pass d chk maxf s = s).
    { unfold count_pass. by rewrite Hact. }
    rewrite Hsame in Hin.
    apply andb_false_iff in Hact as [Hact|Hact]; [lia|].
    replace (length (entries d s) - Z.to_nat maxf)%nat with 0%nat in Hin by lia.
    by apply not_elem_of_nil in Hin.
Qed.

Lemma age_pass_after_passes d chk aet maxf now s :
  age_pass d chk aet maxf now
    (count_pass d chk maxf (age_pass d chk aet maxf now s))
  = count_pass d chk maxf (age_pass d chk aet maxf now s).
Proof.
  apply age_pass_fixed. intros fi Hfi Hage Hold Hchk.
  apply count_pass_survivor in Hfi as [Hfi _].
  apply age_pass_survivor in Hfi as [_ Hb].
  by apply blocked_count_pass, blocked_age_pass, Hb.
Qed.

Lemma passes_again d chk aet maxf now s :
  count_pass d chk maxf
    (age_pass d chk aet maxf now
       (count_pass d chk maxf (age_pass d chk aet maxf now s)))
  = count_pass d chk maxf (age_pass d chk aet maxf now s).
Proof. rewrite age_pass_after_passes. apply count_pass_again. Qed.

Lemma gate_open_passes d chk aet maxf now (s : MemFS) :
  gate_open d chk
    (count_pass d (check_name chk) maxf (age_pass d (check_name chk) aet maxf now s))
  = gate_open d chk s.
Proof.
  unfold gate_open. destruct (Nat.eqb (String.length chk) 0) eqn:Hlen; [done|].
  cbn [orb]. apply FileExists_eq_find.
  assert (Hchk : check_name chk = Trim (mem_GetFileName chk)).
  { unfold check_name. by rewrite Hlen. }
  rewrite Hchk. apply passes_sentinel.
Qed.

Lemma listable_passes d chk aet maxf now (s : MemFS) :
  listable d (count_pass d chk maxf (age_pass d chk aet maxf now s)) = listable d s.
Proof.
  destruct (age_pass_without d chk aet maxf now s) as (l1 & _ & ->).
  by destruct (count_pass_without d chk maxf (without (candidates chk l1) s))
    as (l2 & _ & ->).
Qed.

(** X4. [PurgeDirectory] is idempotent while the clock stands still: for
    every state of the in-memory file system and all arguments, a second
    call with the same arguments and the same reading of [DateTime.Now]
    ends as the first one did (the same exception, or the same return) and
    leaves the state the first call left.  What the first call could not
    delete the second cannot delete either, and the count-based pass,
    sorting what is left, finds beyond the cap only entries it skipped or
    failed on before.  ([Array.Sort] read as a stable sort.) *)
Theorem PurgeDirectory_idempotent (s : MemFS) (d : string) (aet : TimeSpan)
    (maxf : Z) (chk : string) (now : DateTime) :
  PurgeDirectory d aet maxf chk now (PurgeDirectory d aet maxf chk now s).2
  = PurgeDirectory d aet maxf chk now s.
Proof.
  rewrite (PurgeDirectory_mem d aet maxf chk now s).
  destruct (gate_open d chk s && expiry_fails aet maxf now)%bool eqn:Hfail.
  { simpl. by rewrite PurgeDirectory_mem, Hfail. }
  destruct (negb (enumerates d chk aet maxf now s)) eqn:Henum.
  { simpl. by rewrite PurgeDirectory_mem, Hfail, Henum. }
  destruct (listable d s) eqn:Hl.
  2: { simpl. by rewrite PurgeDirectory_mem, Hfail, Henum, Hl. }
  cbn [snd]. rewrite PurgeDirectory_mem.
  unfold enumerates in *. rewrite gate_open_passes, Hfail, Henum.
  by rewrite listable_passes, Hl, passes_again.
Qed.

(** X5. [PurgeDirectory] only ever deletes, and only where it may: for
    every state of the in-memory file system and all arguments, whether the
    call returns or raises, a file found afterwards was there before with
    the same content and times, a file outside the directory is as it was,
    a file whose name equals the check file name (ignoring case) is as it
    was, and the directories and the clock are untouched. *)
Theorem PurgeDirectory_only_deletes (s : MemFS) (d : string) (aet : TimeSpan)
    (maxf : Z) (chk : string) (now : DateTime) :
  let s' := (PurgeDirectory d aet maxf chk now s).2 in
  (forall p f, find_file p (Files s') = Some f -> find_file p (Files s) = Some f) /\
  (forall p, ~ in_directory d p -> find_file p (Files s') = find_file p (Files s)) /\
  (forall p, EqualsIgnoreCase (check_name chk) (mem_GetFileName p) = true ->
     find_file p (Files s') = find_file p (Files s)) /\
  Dirs s' = Dirs s /\ DenyList s' = DenyList s /\ Clock s' = Clock s.
Proof.
  intros s'. unfold s'. rewrite PurgeDirectory_mem.
  destruct (gate_open d chk s && expiry_fails aet maxf now)%bool; [done|].
  destruct (negb (enumerates d chk aet maxf now s)); [done|].
  destruct (listable d s); [|done]. cbn [snd].
  split; [|split; [|split]].
  - intros p f.
    destruct (age_pass_without d (check_name chk) aet maxf now s) as (l1 & _ & ->).
    destruct (count_pass_without d (check_name chk) maxf
                (without (candidates (check_name chk) l1) s)) as (l2 & _ & ->).
    rewrite !find_file_without. repeat case_decide; done.
  - intros p Hp. apply passes_frame. by left.
  - intros p Hp. apply passes_frame. by right.
  - destruct (age_pass_without d (check_name chk) aet maxf now s) as (l1 & _ & ->).
    by destruct (count_pass_without d (check_name chk) maxf
                   (without (candidates (check_name chk) l1) s)) as (l2 & _ & ->).
Qed.

(** ** What the purge leaves behind *)

Lemma length_filter_impl {A} (P Q : A -> Prop) `{forall x, Decision (P x)}
    `{forall x, Decision (Q x)} (l : list A) :
  (forall x, x ∈ l -> P x -> Q x) ->
  (length (filter P l) <= length (filter Q l))%nat.
Proof.
  induction l as [|x l IH]; intros HPQ; [done|].
  rewrite !filter_cons.
  assert (IH' : (length (filter P l) <= length (filter Q l))%nat).
  { apply IH. intros y Hy. apply HPQ. by apply list_elem_of_further. }
  destruct (decide (P x)) as [HP|HP].
  - rewrite decide_True by (apply HPQ; [apply list_elem_of_here|done]).
    simpl. lia.
  - destruct (decide (Q x)); simpl; lia.
Qed.

Lemma filter_none {A} (P : A -> Prop) `{forall x, Decision (P x)} (l : list A) :
  (forall x, x ∈ l -> ~ P x) -> filter P l = [].
Proof.
  induction l as [|x l IH]; intros HP; [done|].
  rewrite filter_cons, decide_False by (apply HP, list_elem_of_here).
  apply IH. intros y Hy. apply HP. by apply list_elem_of_further.
Qed.

Lemma blocked_entries_without d ps s fi :
  fi ∈ entries d (without ps s) ->
  blocked (FullName fi) (without ps s) = blocked (FullName fi) s.
Proof.
  intros Hfi. apply elem_of_entries_without in Hfi as [_ Hkeep].
  by apply blocked_without.
Qed.

Lemma blocked_entries_age_pass d chk aet maxf now s fi :
  fi ∈ entries d (age_pass d chk aet maxf now s) ->
  blocked (FullName fi) (age_pass d chk aet maxf now s) = blocked (FullName fi) s.
Proof.
  destruct (age_pass_without d chk aet maxf now s) as (l & _ & ->).
  apply blocked_entries_without.
Qed.

(** of the entries the count-based pass leaves, those it could have deleted
    are at most as many as the cap *)
Lemma count_pass_bound d chk maxf s :
  0 <= maxf ->
  (length (filter (fun fi => EqualsIgnoreCase chk (Name fi) = false /\
                             blocked (FullName fi) s = false)
             (entries d (count_pass d chk maxf s)))
   <= Z.to_nat maxf)%nat.
Proof.
  intros Hmax. unfold count_pass.
  destruct ((0 <=? maxf) && (maxf <? Z.of_nat (length (entries d s))))%bool eqn:Hact.
  - apply andb_true_iff in Hact as [_ Hn]. apply Z.ltb_lt in Hn.
    rewrite delete_each_without, entries_without.
    set (T := take (Z.to_nat (Z.of_nat (length (entries d s)) - maxf))
                (count_pass_order maxf (entries d s))).
    rewrite list_filter_filter.
    etrans; [apply (length_filter_impl _ (fun fi => fi ∉ T))|].
    { intros fi _ [[Hchk Hb] Hkeep] Hin. apply Hkeep. split; [|done].
      apply elem_of_candidates. by exists fi. }
    assert (Hperm : entries d s
                    ≡ₚ T ++ drop (Z.to_nat (Z.of_nat (length (entries d s)) - maxf))
                              (count_pass_order maxf (entries d s))).
    { unfold T. rewrite take_drop. unfold count_pass_order.
      destruct (negb (maxf =? 0)); [|done]. symmetry. apply Array_Sort_perm. }
    rewrite Hperm, filter_app.
    rewrite (filter_none _ T) by (intros x Hx Hnx; done).
    simpl. etrans; [apply length_filter|].
    rewrite length_drop, count_pass_order_length. lia.
  - apply andb_false_iff in Hact as [Hact|Hact]; [lia|].
    etrans; [apply length_filter|]. lia.
Qed.

Lemma passes_leave d chk aet maxf now s fi :
  fi ∈ entries d (count_pass d chk maxf (age_pass d chk aet maxf now s)) ->
  fi ∈ entries d (age_pass d chk aet maxf now s) /\
  (age_enabled aet maxf = true ->
   EqualsIgnoreCase chk (Name fi) = true \/ blocked (FullName fi) s = true \/
   now - aet <= CreationTime fi).
Proof.
  intros Hfi. apply count_pass_survivor in Hfi as [Hfi _]. split; [done|].
  apply age_pass_survivor in Hfi as [_ Hb]. intros Hage.
  destruct (EqualsIgnoreCase chk (Name fi)) eqn:Hchk; [by left|right].
  destruct (decide (CreationTime fi < now - aet)) as [Hold|Hnew]; [|right; lia].
  left. by apply Hb.
Qed.

Lemma passes_bound d chk aet maxf now s :
  0 <= maxf ->
  (length (filter (fun fi => EqualsIgnoreCase chk (Name fi) = false /\
                             blocked (FullName fi) s = false)
             (entries d (count_pass d chk maxf (age_pass d chk aet maxf now s))))
   <= Z.to_nat maxf)%nat.
Proof.
  intros Hmax.
  etrans; [|apply (count_pass_bound d chk maxf (age_pass d chk aet maxf now s) Hmax)].
  apply length_filter_impl. intros fi Hfi [Hchk Hb]. split; [done|].
  apply count_pass_survivor in Hfi as [Hfi _].
  by rewrite blocked_entries_age_pass.
Qed.

(** X6. [PurgeDirectoryDefault] on the in-memory file system, for a
    directory that holds the check file [.temporary] and can be listed, at
    a time at which one day before now is a date: the call returns, the
    check file is still there, every file left in the directory bears the
    name of the check file (ignoring case), or is a file whose deletion
    raises, or was created within the last day; and of the files left that
    are neither check file nor undeletable there are at most 1000.
    ([Array.Sort] read as a stable sort.) *)
Theorem PurgeDirectoryDefault_leaves (s : MemFS) (d : string) (now : DateTime) :
  FileExists (Combine d DefaultTemporaryCheckFile) s = true ->
  listable d s = true ->
  DefaultAutoExpireTime <= now <= MaxTicks ->
  exists s',
    PurgeDirectoryDefault d now s = (Returned tt, s') /\
    FileExists (Combine d DefaultTemporaryCheckFile) s' = true /\
    (forall fi, fi ∈ entries d s' ->
       EqualsIgnoreCase DefaultTemporaryCheckFile (Name fi) = true \/
       blocked (FullName fi) s = true \/
       now - DefaultAutoExpireTime <= CreationTime fi) /\
    (length (filter (fun fi =>
                       EqualsIgnoreCase DefaultTemporaryCheckFile (Name fi) = false /\
                       blocked (FullName fi) s = false) (entries d s'))
     <= 1000)%nat.
Proof.
  intros Hex Hl Hnow. unfold PurgeDirectoryDefault.
  assert (Hname : Trim (mem_GetFileName DefaultTemporaryCheckFile)
                  = DefaultTemporaryCheckFile) by reflexivity.
  eexists. split; [|split; [|split]].
  - apply PurgeDirectory_mem_runs; [done| |  |done].
    + change (@GetFileName MemFS MemFS_fs DefaultTemporaryCheckFile)
        with (mem_GetFileName DefaultTemporaryCheckFile). by rewrite Hname.
    + unfold expiry_fails, DateTime_Subtract.
      apply andb_false_iff. right.
      destruct ((now - DefaultAutoExpireTime <? 0)
                || (MaxTicks <? now - DefaultAutoExpireTime))%bool eqn:E; [|done].
      unfold DefaultAutoExpireTime in *. apply orb_true_iff in E. lia.
  - rewrite Hname. rewrite <- Hex. apply FileExists_eq_find.
    rewrite <- Hname at 1 3 4. apply passes_sentinel.
  - rewrite Hname. intros fi Hfi. by apply passes_leave in Hfi as [_ Hfi]; auto.
  - rewrite Hname. by apply (passes_bound d _ _ DefaultMaxFilesInDirectory).
Qed.

Lemma PurgeDirectoryDefault_leaves_witness :
  exists s',
    PurgeDirectoryDefault "d" (DefaultAutoExpireTime + 15) fs_temp = (Returned tt, s') /\
    FileExists "d/.temporary" s' = true /\
    FullName <$> entries "d" s' = ["d/.temporary"; "d/b"].
Proof.
  destruct (PurgeDirectoryDefault_leaves fs_temp "d" (DefaultAutoExpireTime + 15))
    as (s' & Hrun & Hs & _).
  - reflexivity.
  - reflexivity.
  - unfold DefaultAutoExpireTime, MaxTicks. lia.
  - exists s'. split; [done|]. split; [done|].
    vm_compute in Hrun. by injection Hrun as <-.
Defined.

Lemma length_entries_age_pass d chk aet maxf now s :
  (length (entries d (age_pass d chk aet maxf now s)) <= length (entries d s))%nat.
Proof.
  destruct (age_pass_without d chk aet maxf now s) as (l & _ & ->).
  rewrite entries_without. apply length_filter.
Qed.

Lemma count_pass_within_cap d chk maxf s :
  maxf < 0 \/ Z.of_nat (length (entries d s)) <= maxf ->
  count_pass d chk maxf s = s.
Proof.
  intros Hcap. unfold count_pass.
  destruct ((0 <=? maxf) && (maxf <? Z.of_nat (length (entries d s))))%bool eqn:Hact;
    [|done].
  apply andb_true_iff in Hact as [Hmax Hn]. lia.
Qed.

Lemma age_pass_spares_fresh d chk aet maxf now s p f :
  NoDup (Files s).*1 ->
  find_file p (Files s) = Some f ->
  aet = 0 \/ now - aet <= Created f ->
  find_file p (Files (age_pass d chk aet maxf now s)) = Some f.
Proof.
  intros Hnd Hp Hfresh. unfold age_pass.
  destruct (negb (aet =? 0) && negb (maxf =? 0))%bool eqn:Hage; [|done].
  rewrite delete_each_without, find_file_without_keep; [done|].
  intros Hin. apply elem_of_candidates in Hin as (fi & Hfi & Hname & _).
  apply list_elem_of_filter in Hfi as [Hold Hfi].
  apply elem_of_entries in Hfi as (p' & f' & Hp' & _ & ->). simpl in *. subst p'.
  apply find_file_Some_elem in Hp.
  assert ((p, f') = (p, f)) as [= ->]
    by (by apply (NoDup_fmap_inj_in fst (Files s))).
  apply andb_true_iff in Hage as [Haet _].
  destruct Hfresh as [->|Hfresh]; [done|lia].
Qed.

(** X7. While the directory holds no more files than the cap (or the cap
    is switched off by a negative value), [PurgeDirectory] deletes nothing
    but expired files: on the in-memory file system with no path listed
    twice, a file created at or after now minus [autoExpireTime], or any
    file when [autoExpireTime] is zero, is found afterwards as it was,
    whatever the other arguments and however the call ends. *)
Theorem PurgeDirectory_spares_fresh (s : MemFS) (d : string) (aet : TimeSpan)
    (maxf : Z) (chk : string) (now : DateTime) (p : string) (f : FileData) :
  NoDup (Files s).*1 ->
  maxf < 0 \/ Z.of_nat (length (entries d s)) <= maxf ->
  find_file p (Files s) = Some f ->
  aet = 0 \/ now - aet <= Created f ->
  find_file p (Files (PurgeDirectory d aet maxf chk now s).2) = Some f.
Proof.
  intros Hnd Hcap Hp Hfresh. rewrite PurgeDirectory_mem.
  destruct (gate_open d chk s && expiry_fails aet maxf now)%bool; [done|].
  destruct (negb (enumerates d chk aet maxf now s)); [done|].
  destruct (listable d s); [|done]. cbn [snd].
  rewrite count_pass_within_cap.
  - by apply age_pass_spares_fresh.
  - destruct Hcap as [Hcap|Hcap]; [by left|right].
    pose proof (length_entries_age_pass d (check_name chk) aet maxf now s). lia.
Qed.

Lemma PurgeDirectory_spares_fresh_witness :
  find_file "d/b" (Files (PurgeDirectory "d" 85 3 ".temporary" 100 fs_temp).2)
  = Some (plain "y" 20 20).
Proof.
  apply PurgeDirectory_spares_fresh.
  - vm_compute. repeat constructor; rewrite ?elem_of_cons, ?elem_of_nil;
      intuition discriminate.
  - right. vm_compute. discriminate.
  - reflexivity.
  - right. simpl. lia.
Defined.

(** ** The switches of the purge *)

(** X8. With [autoExpireTime] zero and a negative [maxFilesInDirectory]
    both passes are switched off: on every file system [PurgeDirectory]
    returns and leaves the state as it is.  It never lists the directory,
    so it returns also for a directory that does not exist, and whatever
    the check file name is. *)
Theorem PurgeDirectory_switched_off :
  forall (FS : Type) (I : ITemporaryFileSystem FS) (directoryToClean : string)
         (maxFilesInDirectory : Z) (checkFileName : string) (now : DateTime)
         (s : FS),
    maxFilesInDirectory < 0 ->
    PurgeDirectory directoryToClean 0 maxFilesInDirectory checkFileName now s
    = (Returned tt, s).
Proof.
  intros FS I d maxf chk now s Hmax.
  unfold PurgeDirectory, bind, gets.
  destruct (negb (Nat.eqb (String.length chk) 0) && _)%bool; [done|].
  simpl. unfold ret, when.
  destruct (0 <=? maxf) eqn:E; [lia|done].
Qed.

Lemma PurgeDirectory_switched_off_witness :
  PurgeDirectory "gone" 0 (-1) "" 100 fs_temp = (Returned tt, fs_temp).
Proof. apply PurgeDirectory_switched_off. lia. Defined.

(** X9. An empty [checkFileName] switches the safety check off.  On the
    in-memory file system, for a directory that can be listed and whose
    files can all be deleted, [PurgeDirectory] with an empty check file
    name and [maxFilesInDirectory = 0] returns and leaves no file of the
    directory (strictly: none with a non-empty name), whether or not a
    sentinel exists and whatever [autoExpireTime] is; a file called
    [.temporary] goes like any other.  Files outside the directory stay. *)
Theorem PurgeDirectory_no_check_file (s : MemFS) (d : string) (aet : TimeSpan)
    (now : DateTime) :
  listable d s = true ->
  all_deletable d s ->
  PurgeDirectory d aet 0 "" now s
  = (Returned tt,
     set_files (filter (fun e => ~ in_directory d e.1 \/ mem_GetFileName e.1 = "")) s).
Proof.
  intros Hl Hall. rewrite PurgeDirectory_mem.
  unfold gate_open, enumerates, expiry_fails, age_enabled, gate_open.
  rewrite andb_false_r. simpl. rewrite Hl.
  f_equal. unfold age_pass. rewrite andb_false_r.
  change (check_name "") with "".
  assert (Hall' : without (candidates "" (entries d s)) s
                  = set_files (filter (fun e => ~ in_directory d e.1 \/
                                                mem_GetFileName e.1 = "")) s).
  { rewrite (without_all_deletable d) by (done || apply from_dir_entries).
    unfold set_files. f_equal. apply filter_ext_in. intros [p f] Hp. simpl.
    rewrite (elem_of_candidates_entries d "" s p f Hp).
    assert (Hempty : EqualsIgnoreCase "" (mem_GetFileName p) = true
                     <-> mem_GetFileName p = "").
    { unfold EqualsIgnoreCase. destruct (mem_GetFileName p); simpl; [done|].
      split; discriminate. }
    destruct (EqualsIgnoreCase "" (mem_GetFileName p));
      destruct (decide (in_directory d p)); intuition congruence. }
  unfold count_pass, count_pass_order. simpl (0 <=? 0). cbn [andb negb].
  destruct (0 <? Z.of_nat (length (entries d s))) eqn:Hcount.
  - rewrite Z.sub_0_r, Nat2Z.id, firstn_all, delete_each_without. done.
  - rewrite <- Hall'. apply Z.ltb_ge in Hcount.
    destruct (entries d s); [|cbn [length] in Hcount; lia].
    by rewrite without_nil.
Qed.

Lemma PurgeDirectory_no_check_file_witness :
  PurgeDirectory "d" 7 0 "" 100 fs_temp
  = (Returned tt, mkFS [("e/keep", plain "z" 1 1)] ["d"; "e"] [] 100).
Proof.
  rewrite PurgeDirectory_no_check_file.
  - reflexivity.
  - reflexivity.
  - intros p f Hp _. vm_compute in Hp.
    repeat (apply elem_of_cons in Hp as [Hp|Hp]; [by inversion Hp|]).
    by apply not_elem_of_nil in Hp.
Defined.

(** ** The three ways to delete a file *)

Lemma TryDeleteOrMark_mem p (s : MemFS) :
  TryDeleteOrMark p s = (Returned tt, tryDeleteOrMark_fs p s).
Proof.
  unfold TryDeleteOrMark. unfold bind at 1. rewrite TryDelete_mem.
  unfold tryDeleteOrMark_fs. cbn zeta.
  unfold bind at 1. unfold gets. simpl.
  destruct (mem_FileExists p (tryDelete_fs p s)) eqn:Hex; [|done].
  unfold when. rewrite try_catch_returns. f_equal.
  unfold write_marker_fs. unfold mem_FileExists in Hex.
  destruct (find_file p (Files (tryDelete_fs p s))) as [f|] eqn:Hp; [|done].
  unfold bind, lift. simpl. unfold mem_GetLastWriteTimeUtc. rewrite Hp.
  by destruct (ToFileTimeUtc (LastWrite f)).
Qed.

Lemma delete_quiet_absent p s :
  find_file p (Files s) = None -> delete_quiet p s = s.
Proof. intros Hp. unfold delete_quiet. by rewrite Hp. Qed.

Lemma delete_quiet_again p s : delete_quiet p (delete_quiet p s) = delete_quiet p s.
Proof.
  destruct (find_file p (Files s)) as [f|] eqn:Hp.
  - destruct (DenyDelete f) eqn:Hd.
    + assert (Hs : delete_quiet p s = s) by (unfold delete_quiet; by rewrite Hp, Hd).
      by rewrite !Hs.
    + apply delete_quiet_absent. unfold delete_quiet. rewrite Hp, Hd.
      simpl. apply find_file_remove_eq.
  - by rewrite !(delete_quiet_absent p s).
Qed.

Lemma find_file_tryDelete_fs_gone p f s :
  find_file p (Files s) = Some f -> DenyDelete f = false ->
  find_file p (Files (tryDelete_fs p s)) = None.
Proof.
  intros Hp Hd. unfold tryDelete_fs. rewrite Hp, Hd.
  rewrite find_file_delete_quiet_ne by (symmetry; apply append_marker_ne).
  simpl. apply find_file_remove_eq.
Qed.

Lemma tryDelete_fs_again p s : tryDelete_fs p (tryDelete_fs p s) = tryDelete_fs p s.
Proof.
  destruct (find_file p (Files s)) as [f|] eqn:Hp.
  - destruct (DenyDelete f) eqn:Hd.
    + by rewrite !(tryDelete_fs_blocked p f s).
    + apply tryDelete_fs_absent. by apply (find_file_tryDelete_fs_gone p f).
  - by rewrite !(tryDelete_fs_absent p s).
Qed.

Lemma DeleteWith_deletable (s : MemFS) (p : string) (type : DeleteType) :
  FileExists p s = true ->
  blocked p s = false ->
  DeleteWith p type s
  = (Returned tt, delete_quiet (p +:+ ".delete") (set_files (remove_file p) s)).
Proof.
  intros Hex Hb. destruct (FileExists_find p s Hex) as [f Hp].
  assert (Hd : DenyDelete f = false) by (unfold blocked in Hb; by rewrite Hp in Hb).
  assert (Htry : tryDelete_fs p s
                 = delete_quiet (p +:+ ".delete") (set_files (remove_file p) s)).
  { unfold tryDelete_fs. by rewrite Hp, Hd. }
  destruct type; simpl.
  - rewrite Delete_mem, Hb. unfold delete_quiet at 2. by rewrite Hp, Hd.
  - by rewrite TryDelete_mem, Htry.
  - rewrite TryDeleteOrMark_mem. unfold tryDeleteOrMark_fs, mem_FileExists.
    cbn zeta. rewrite (find_file_tryDelete_fs_gone p f) by done. by rewrite Htry.
Qed.

(** X10. When the file exists and its deletion does not raise, the three
    delete types do the same on the in-memory file system: each returns
    and leaves one and the same state, in which the file is gone, its
    marker is gone too unless the marker's own deletion raises, and every
    other file is as it was.  No marker is written. *)
Theorem DeleteWith_types_agree (s : MemFS) (p : string) :
  FileExists p s = true ->
  blocked p s = false ->
  exists s',
    (forall type : DeleteType, DeleteWith p type s = (Returned tt, s')) /\
    FileExists p s' = false /\
    (blocked (p +:+ ".delete") s = false -> FileExists (p +:+ ".delete") s' = false) /\
    (forall q, q <> p -> q <> p +:+ ".delete" ->
       find_file q (Files s') = find_file q (Files s)).
Proof.
  intros Hex Hb. pose proof (append_marker_ne p) as Hne.
  exists (delete_quiet (p +:+ ".delete") (set_files (remove_file p) s)).
  split; [|split; [|split]].
  - intros type. by apply DeleteWith_deletable.
  - apply find_None_FileExists.
    rewrite find_file_delete_quiet_ne by congruence.
    unfold set_files. cbn [Files]. apply find_file_remove_eq.
  - intros Hm. rewrite FileExists_delete_quiet, decide_True by done.
    apply andb_false_iff. right. unfold blocked, set_files in *. cbn [Files].
    by rewrite find_file_remove_ne.
  - intros q Hq Hqm. rewrite find_file_delete_quiet_ne by done.
    unfold set_files. cbn [Files]. by apply find_file_remove_ne.
Qed.

Lemma DeleteWith_types_agree_witness :
  exists s',
    (forall type : DeleteType,
       DeleteWith "d/a" type fs_marked_file = (Returned tt, s')) /\
    FileExists "d/a" s' = false /\
    FileExists "d/a.delete" s' = false.
Proof.
  destruct (DeleteWith_types_agree fs_marked_file "d/a")
    as (s' & Hall & Hgone & Hmarker & _).
  - reflexivity.
  - reflexivity.
  - exists s'. split; [exact Hall|]. split; [exact Hgone|].
    apply Hmarker. reflexivity.
Defined.

Lemma find_file_replace q p g (l : list (string * FileData)) :
  find_file q (replace_file p g l) =
    if decide (q = p) then (fun _ => g) <$> find_file p l else find_file q l.
Proof.
  unfold replace_file. induction l as [|[k f] l IH].
  - by case_decide.
  - rewrite fmap_cons. cbn [fst snd find_file].
    destruct (decide (k = p)) as [->|Hk]; cbn [find_file].
    + destruct (decide (p = q)) as [->|Hq].
      * by rewrite !decide_True.
      * rewrite IH. by rewrite !decide_False by congruence.
    + destruct (decide (k = q)) as [->|Hq].
      * by rewrite !decide_False.
      * apply IH.
Qed.

Lemma replace_file_again p g (l : list (string * FileData)) :
  replace_file p g (replace_file p g l) = replace_file p g l.
Proof.
  unfold replace_file. rewrite <- list_fmap_compose. apply list_fmap_ext.
  intros i [k f] _. simpl. destruct (decide (k = p)) as [->|Hk]; simpl.
  - by rewrite decide_True.
  - by rewrite decide_False.
Qed.

Lemma replace_file_absent p g (l : list (string * FileData)) :
  find_file p l = None -> replace_file p g l = l.
Proof.
  unfold replace_file. induction l as [|[k f] l IH]; intros Hp; [done|].
  rewrite fmap_cons. simpl in *. destruct (decide (k = p)); [done|].
  by rewrite IH.
Qed.

Lemma replace_file_app p g (l1 l2 : list (string * FileData)) :
  replace_file p g (l1 ++ l2) = replace_file p g l1 ++ replace_file p g l2.
Proof. unfold replace_file. apply fmap_app. Qed.

(** writing the marker touches no other path *)
Lemma find_file_WriteAllText_ne q m text (s : MemFS) :
  q <> m ->
  find_file q (Files (mem_WriteAllText m text s).2) = find_file q (Files s).
Proof.
  intros Hq. unfold mem_WriteAllText.
  destruct (find_file m (Files s)) as [g|] eqn:Hm.
  - destruct (DenyWrite g); [done|]. simpl.
    rewrite find_file_replace. by rewrite decide_False.
  - match goal with |- context [if ?c then _ else _] => destruct c end; [|done].
    simpl. rewrite find_file_app_new.
    destruct (find_file q (Files s)); [done|]. by rewrite decide_False.
Qed.

(** writing the same text again changes nothing *)
Lemma WriteAllText_again m text (s : MemFS) :
  (mem_WriteAllText m text (mem_WriteAllText m text s).2).2
  = (mem_WriteAllText m text s).2.
Proof.
  unfold mem_WriteAllText at 2.
  destruct (find_file m (Files s)) as [g|] eqn:Hm.
  - destruct (DenyWrite g) eqn:Hw.
    + simpl. unfold mem_WriteAllText. by rewrite Hm, Hw.
    + simpl. unfold mem_WriteAllText. simpl.
      rewrite find_file_replace, decide_True, Hm by done. simpl. rewrite Hw.
      simpl. unfold set_files. simpl. by rewrite replace_file_again.
  - match goal with |- context [if ?c then _ else _] => destruct c eqn:Hparent end.
    + simpl. unfold mem_WriteAllText. simpl.
      rewrite find_file_app_new, Hm, decide_True by done. simpl.
      unfold set_files. simpl.
      rewrite replace_file_app, (replace_file_absent m _ (Files s)) by done.
      unfold replace_file. simpl. rewrite Hparent. simpl.
      by destruct (decide (m = m)).
    + simpl. unfold mem_WriteAllText. by rewrite Hm, Hparent.
Qed.

Lemma find_file_write_marker_ne q p (s : MemFS) :
  q <> p +:+ ".delete" ->
  find_file q (Files (write_marker_fs p s)) = find_file q (Files s).
Proof.
  intros Hq. unfold write_marker_fs.
  destruct (find_file p (Files s)) as [f|]; [|done].
  destruct (ToFileTimeUtc (LastWrite f)); [|done].
  by apply find_file_WriteAllText_ne.
Qed.

Lemma write_marker_again p (s : MemFS) :
  write_marker_fs p (write_marker_fs p s) = write_marker_fs p s.
Proof.
  assert (Hp : find_file p (Files (write_marker_fs p s)) = find_file p (Files s)).
  { apply find_file_write_marker_ne. symmetry. apply append_marker_ne. }
  unfold write_marker_fs at 1. rewrite Hp.
  unfold write_marker_fs.
  destruct (find_file p (Files s)) as [f|]; [|done].
  destruct (ToFileTimeUtc (LastWrite f)); [|done].
  apply WriteAllText_again.
Qed.

Lemma tryDeleteOrMark_fs_again p (s : MemFS) :
  tryDeleteOrMark_fs p (tryDeleteOrMark_fs p s) = tryDeleteOrMark_fs p s.
Proof.
  unfold tryDeleteOrMark_fs at 2. cbn zeta. unfold mem_FileExists.
  destruct (find_file p (Files (tryDelete_fs p s))) as [f|] eqn:Hp.
  - assert (Hd : DenyDelete f = true) by (by apply (tryDelete_fs_survivor p f s)).
    assert (Hp' : find_file p (Files (write_marker_fs p (tryDelete_fs p s))) = Some f).
    { rewrite find_file_write_marker_ne; [done|]. symmetry. apply append_marker_ne. }
    unfold tryDeleteOrMark_fs. cbn zeta.
    rewrite (tryDelete_fs_blocked p f _ Hp' Hd).
    unfold mem_FileExists. rewrite Hp', Hp. apply write_marker_again.
  - unfold tryDeleteOrMark_fs. cbn zeta.
    rewrite (tryDelete_fs_absent p _ Hp). unfold mem_FileExists. by rewrite Hp.
Qed.

(** X11. Each of the three ways to delete is idempotent on the in-memory
    file system: calling [Delete(filePath, type)] a second time, with
    nothing else happening in between and the clock of the file system
    standing still, ends as the first call did and leaves the state the
    first call left.  In particular a file that is still held keeps one
    marker, with the same token. *)
Theorem DeleteWith_idempotent (s : MemFS) (p : string) (type : DeleteType) :
  DeleteWith p type (DeleteWith p type s).2 = DeleteWith p type s.
Proof.
  destruct type; simpl.
  - rewrite (Delete_mem p s). destruct (blocked p s) eqn:Hb.
    + simpl. by rewrite Delete_mem, Hb.
    + cbn [snd]. rewrite Delete_mem.
      assert (Hgone : find_file p (Files (delete_quiet (p +:+ ".delete")
                                            (delete_quiet p s))) = None).
      { rewrite find_file_delete_quiet_ne by (symmetry; apply append_marker_ne).
        unfold delete_quiet, blocked in *.
        destruct (find_file p (Files s)) as [f|] eqn:Hp; [|done].
        rewrite Hb. simpl. apply find_file_remove_eq. }
      unfold blocked at 1. rewrite Hgone.
      by rewrite (delete_quiet_absent p _ Hgone), delete_quiet_again.
  - rewrite (TryDelete_mem p s). cbn [snd].
    by rewrite TryDelete_mem, tryDelete_fs_again.
  - rewrite (TryDeleteOrMark_mem p s). cbn [snd].
    by rewrite TryDeleteOrMark_mem, tryDeleteOrMark_fs_again.
Qed.

Lemma find_file_tryDelete_fs_ne q p s :
  q <> p -> q <> p +:+ ".delete" ->
  find_file q (Files (tryDelete_fs p s)) = find_file q (Files s).
Proof.
  intros Hq Hm. unfold tryDelete_fs.
  destruct (find_file p (Files s)) as [f|]; [|done].
  destruct (DenyDelete f); [done|].
  rewrite find_file_delete_quiet_ne by done. simpl.
  by apply find_file_remove_ne.
Qed.

Lemma find_file_tryDelete_fs_self p s :
  find_file p (Files (tryDelete_fs p s)) = None \/
  tryDelete_fs p s = s.
Proof.
  destruct (find_file p (Files s)) as [f|] eqn:Hp.
  - destruct (DenyDelete f) eqn:Hd.
    + right. by apply (tryDelete_fs_blocked p f).
    + left. by apply (find_file_tryDelete_fs_gone p f).
  - right. by apply tryDelete_fs_absent.
Qed.

(** X12. [TryDeleteOrMark] keeps to the file and its marker: on the
    in-memory file system, for every state and path, every file at a path
    other than [filePath] and [filePath + ".delete"] is afterwards as it
    was; and the file at [filePath] is either gone, the state then being
    the one [TryDelete] leaves, with no marker written, or exactly as it
    was, its deletion having raised, and then nothing but the marker can
    have changed. *)
Theorem TryDeleteOrMark_frame (s : MemFS) (p : string) :
  let s' := (TryDeleteOrMark p s).2 in
  (forall q, q <> p -> q <> p +:+ ".delete" ->
     find_file q (Files s') = find_file q (Files s)) /\
  ((find_file p (Files s') = None /\ s' = (TryDelete p s).2) \/
   (find_file p (Files s') = find_file p (Files s) /\ blocked p s = true /\
    forall q, q <> p +:+ ".delete" -> find_file q (Files s') = find_file q (Files s))).
Proof.
  intros s'. unfold s'. rewrite TryDeleteOrMark_mem, TryDelete_mem. cbn [snd].
  unfold tryDeleteOrMark_fs, mem_FileExists. cbn zeta. split.
  - intros q Hq Hm.
    destruct (find_file p (Files (tryDelete_fs p s)));
      [rewrite find_file_write_marker_ne by done|];
      by apply find_file_tryDelete_fs_ne.
  - destruct (find_file p (Files (tryDelete_fs p s))) as [f|] eqn:Hp; [|by left].
    right. pose proof (tryDelete_fs_survivor p f s Hp) as Hd.
    destruct (find_file_tryDelete_fs_self p s) as [Hgone|Hsame]; [congruence|].
    rewrite Hsame in *. split; [|split].
    + apply find_file_write_marker_ne. symmetry. apply append_marker_ne.
    + unfold blocked. by rewrite Hp.
    + intros q Hq. by apply find_file_write_marker_ne.
Qed.

(** X13. Two ways in which [TryDeleteOrMark] fails without a trace: the
    file is there, its deletion raises, and either its last write time
    lies before 1601, so that [ToFileTimeUtc] raises, or a marker is
    already there and cannot be overwritten.  On the in-memory file system
    the call then returns and leaves the state as it is; no marker is
    written or renewed. *)
Theorem TryDeleteOrMark_unmarked (s : MemFS) (p : string) (f : FileData) :
  find_file p (Files s) = Some f ->
  DenyDelete f = true ->
  LastWrite f < FileTimeOffset \/
  (exists g, find_file (p +:+ ".delete") (Files s) = Some g /\ DenyWrite g = true) ->
  TryDeleteOrMark p s = (Returned tt, s).
Proof.
  intros Hp Hd Hwhy. rewrite TryDeleteOrMark_mem. f_equal.
  unfold tryDeleteOrMark_fs. cbn zeta.
  rewrite (tryDelete_fs_blocked p f s Hp Hd).
  unfold mem_FileExists, write_marker_fs. rewrite Hp.
  unfold ToFileTimeUtc.
  destruct (LastWrite f - FileTimeOffset <? 0) eqn:E; [done|].
  destruct Hwhy as [Hold|(g & Hm & Hw)]; [lia|].
  unfold mem_WriteAllText. by rewrite Hm, Hw.
Qed.

Lemma TryDeleteOrMark_unmarked_witness :
  TryDeleteOrMark "d/a"
    (mkFS [("d/a", undeletable "x" 5 77)] ["d"] [] (FileTimeOffset + 100))
  = (Returned tt,
     mkFS [("d/a", undeletable "x" 5 77)] ["d"] [] (FileTimeOffset + 100)).
Proof.
  apply (TryDeleteOrMark_unmarked _ "d/a" (undeletable "x" 5 77)).
  - reflexivity.
  - reflexivity.
  - left. reflexivity.
Defined.

(** ** What the sweep removes and what it leaves *)

(** the files a sweep of directory [d] may remove, given the state [s] it
    starts from: markers of [d], and files of [d] that have a marker *)
Lemma sweep_all_removes d s L u :
  (forall y, y ∈ L -> y ∈ markers d s) ->
  (exists D0, u = drop_keys D0 s /\
     forall p, p ∈ D0 -> in_directory d p /\
       (ends_with ".delete" p = true \/ FileExists (p +:+ ".delete") s = true)) ->
  exists D, sweep_all L u = drop_keys D s /\
    forall p, p ∈ D -> in_directory d p /\
      (ends_with ".delete" p = true \/ FileExists (p +:+ ".delete") s = true).
Proof.
  revert u. induction L as [|y L IH]; intros u HL Hu; [done|].
  simpl. apply IH.
  { intros z Hz. apply HL. by apply list_elem_of_further. }
  destruct Hu as (D0 & -> & HD0).
  assert (Hy : y ∈ markers d s) by apply HL, list_elem_of_here.
  pose proof (markers_spec d s y Hy) as [Hends Hfind].
  apply elem_of_markers in Hy as (_ & Hd & _).
  destruct (ends_with_DropLast7 y Hends) as (a & -> & _).
  destruct (sweep_fs_drop_keys a (drop_keys D0 s)) as (D & HD & ->).
  exists (D0 ++ D). split; [by rewrite drop_keys_drop_keys|].
  intros p Hp. apply elem_of_app in Hp as [Hp|Hp]; [by apply HD0|].
  apply HD in Hp. rewrite !elem_of_cons in Hp.
  destruct Hp as [->|[->|[->|Hp]]].
  - split; [by apply in_directory_marker|]. right. simpl. unfold mem_FileExists.
    by destruct (find_file (a +:+ ".delete") (Files s)).
  - split; [done|]. left. apply ends_with_append.
  - split; [by apply in_directory_marker|]. left. apply ends_with_append.
  - by apply not_elem_of_nil in Hp.
Qed.

(** X14. The sweep only takes away, and only markers and marked files: on
    the in-memory file system, for every state and directory, whether the
    call returns or raises, the state after [TryDeleteMarkedFiles] is the
    state before without the files at some paths, and each of these paths
    lies in the directory and either ends in [.delete] or had a marker
    beside it when the call began.  So no file is created or changed, no
    file of another directory is touched, and a file that is not a marker
    and has no marker stays. *)
Theorem TryDeleteMarkedFiles_removes_only (s : MemFS) (d : string) :
  exists D,
    (TryDeleteMarkedFiles d s).2 = drop_keys D s /\
    forall p, p ∈ D -> in_directory d p /\
      (ends_with ".delete" p = true \/ FileExists (p +:+ ".delete") s = true).
Proof.
  assert (Hnone : exists D, s = drop_keys D s /\
            forall p, p ∈ D -> in_directory d p /\
              (ends_with ".delete" p = true \/ FileExists (p +:+ ".delete") s = true)).
  { exists []. split; [by rewrite drop_keys_nil|].
    intros p Hp. by apply not_elem_of_nil in Hp. }
  rewrite TryDeleteMarkedFiles_mem.
  destruct (negb (bool_decide (d ∈ Dirs s))); [done|].
  destruct (listable d s); [|done]. cbn [snd].
  by apply (sweep_all_removes d s).
Qed.

(** ** Stale markers *)

Lemma tryDelete_fs_marker_gone p marker u :
  ends_with ".delete" p = false ->
  find_file (p +:+ ".delete") (Files u) = Some marker ->
  DenyDelete marker = false ->
  find_file (p +:+ ".delete") (Files (tryDelete_fs (p +:+ ".delete") u)) = None /\
  find_file p (Files (tryDelete_fs (p +:+ ".delete") u)) = find_file p (Files u).
Proof.
  intros Hp Hm Hd. split.
  - by apply (find_file_tryDelete_fs_gone _ marker).
  - apply find_file_tryDelete_fs_ne; by apply not_marker_ne.
Qed.

Section StaleMarker.
Variables (s : MemFS) (p : string) (marker : FileData).
Hypothesis Hp : ends_with ".delete" p = false.
Hypothesis Hread : DenyRead marker = false.
Hypothesis Hdel : DenyDelete marker = false.
Hypothesis Hstale :
  find_file p (Files s) = None \/ TryParse (Content marker) = None.

Lemma stale_own u :
  stale_pending s p marker u -> stale_settled s p (sweep_fs (p +:+ ".delete") u).
Proof.
  intros [Hfile [Hm|Hm]]; unfold sweep_fs; rewrite Hm; [|by split].
  rewrite Hread, DropLast7_marker.
  destruct (tryDelete_fs_marker_gone p marker u Hp Hm Hdel) as [Hgone Hkeep].
  assert (Hdone : stale_settled s p (tryDelete_fs (p +:+ ".delete") u)).
  { split; [by rewrite Hkeep|done]. }
  destruct (find_file p (Files u)) as [actual|] eqn:Ha; [|done].
  destruct Hstale as [Hnone|Hparse]; [congruence|]. by rewrite Hparse.
Qed.

Lemma stale_other a u :
  a <> p ->
  (find_file p (Files (sweep_fs (a +:+ ".delete") u)) = find_file p (Files u)) /\
  (forall m, find_file (p +:+ ".delete") (Files u) = m ->
     find_file (p +:+ ".delete") (Files (sweep_fs (a +:+ ".delete") u)) = m \/
     find_file (p +:+ ".delete") (Files (sweep_fs (a +:+ ".delete") u)) = None).
Proof.
  intros Ha. destruct (sweep_fs_drop_keys a u) as (D & HD & ->).
  rewrite !find_file_drop_keys. split.
  - rewrite decide_False; [done|]. intros Hin. apply HD in Hin.
    rewrite !elem_of_cons in Hin.
    destruct Hin as [->|[Hin|[Hin|Hin]]]; [done| | |by apply not_elem_of_nil in Hin];
      by apply (not_marker_ne p) in Hin.
  - intros m Hm. case_decide; auto.
Qed.

Lemma stale_step_pending y u :
  ends_with ".delete" y = true ->
  stale_pending s p marker u -> stale_pending s p marker (sweep_fs y u).
Proof.
  intros Hy Hu. destruct (ends_with_DropLast7 y Hy) as (a & -> & _).
  destruct (decide (a = p)) as [->|Ha].
  - destruct (stale_own u Hu) as [H1 H2]. split; [done|by right].
  - destruct Hu as [Hfile Hm]. destruct (stale_other a u Ha) as [H1 H2].
    split; [by rewrite H1|].
    destruct Hm as [Hm|Hm]; destruct (H2 _ Hm); auto.
Qed.

Lemma stale_step_settled y u :
  ends_with ".delete" y = true ->
  stale_settled s p u -> stale_settled s p (sweep_fs y u).
Proof.
  intros Hy [Hfile Hm]. destruct (ends_with_DropLast7 y Hy) as (a & -> & _).
  destruct (decide (a = p)) as [->|Ha].
  - apply stale_own. split; [done|by right].
  - destruct (stale_other a u Ha) as [H1 H2].
    split; [by rewrite H1|]. by destruct (H2 _ Hm).
Qed.

Lemma stale_sweep_all L u :
  (forall y, y ∈ L -> ends_with ".delete" y = true) ->
  (stale_settled s p u -> stale_settled s p (sweep_all L u)) /\
  (stale_pending s p marker u -> p +:+ ".delete" ∈ L -> stale_settled s p (sweep_all L u)).
Proof.
  revert u. induction L as [|y L IH]; intros u HL.
  { split; [done|]. intros _ Hin. by apply not_elem_of_nil in Hin. }
  assert (Hy : ends_with ".delete" y = true) by apply HL, list_elem_of_here.
  assert (HL' : forall z, z ∈ L -> ends_with ".delete" z = true).
  { intros z Hz. apply HL. by apply list_elem_of_further. }
  destruct (IH (sweep_fs y u) HL') as [IHs IHp]. simpl. split.
  - intros Hu. by apply IHs, stale_step_settled.
  - intros Hu Hin. apply elem_of_cons in Hin as [<-|Hin].
    + by apply IHs, stale_own.
    + apply IHp; [|done]. by apply stale_step_pending.
Qed.

End StaleMarker.

(** X15. A stale marker is cleaned up and its file is left alone.  On the
    in-memory file system, let the directory be listable and let
    [p + ".delete"] be a marker in it that can be read and deleted, [p]
    not itself ending in [.delete].  If the file [p] is gone, or if the
    marker's text is not a number [long.TryParse] accepts, then
    [TryDeleteMarkedFiles] returns, the marker is gone, and [p] is as it
    was: still missing, or still there with the same content and times. *)
Theorem TryDeleteMarkedFiles_stale_marker (s : MemFS) (d p : string)
    (marker : FileData) :
  ends_with ".delete" p = false ->
  in_directory d p -> listable d s = true ->
  find_file (p +:+ ".delete") (Files s) = Some marker ->
  DenyRead marker = false -> DenyDelete marker = false ->
  find_file p (Files s) = None \/ TryParse (Content marker) = None ->
  exists s',
    TryDeleteMarkedFiles d s = (Returned tt, s') /\
    find_file (p +:+ ".delete") (Files s') = None /\
    find_file p (Files s') = find_file p (Files s).
Proof.
  intros Hp Hd Hl Hm Hread Hdel Hstale.
  exists (sweep_all (markers d s) s). split.
  - rewrite TryDeleteMarkedFiles_mem, Hl. unfold listable in Hl.
    apply andb_true_iff in Hl as [-> _]. done.
  - assert (Hends : forall y, y ∈ markers d s -> ends_with ".delete" y = true).
    { intros y Hy. by apply markers_spec in Hy as [? _]. }
    destruct (stale_sweep_all s p marker Hp Hread Hdel Hstale (markers d s) s Hends)
      as [_ Hsettle].
    destruct Hsettle as [Hfile Hgone]; [by split; [|left]| |done].
    apply elem_of_markers. split; [|split].
    + exists marker. by apply find_file_Some_elem.
    + by apply in_directory_marker.
    + rewrite GetFileName_marker. apply ends_with_append.
Qed.

Lemma TryDeleteMarkedFiles_stale_marker_witness :
  exists s',
    TryDeleteMarkedFiles "d"
      (mkFS [("d/a", plain "x" 1 1); ("d/a.delete", plain "soon" 2 2)] ["d"] [] 100)
    = (Returned tt, s') /\
    find_file "d/a.delete" (Files s') = None /\
    find_file "d/a" (Files s') = Some (plain "x" 1 1).
Proof.
  apply (TryDeleteMarkedFiles_stale_marker
           (mkFS [("d/a", plain "x" 1 1); ("d/a.delete", plain "soon" 2 2)] ["d"] [] 100)
           "d" "d/a" (plain "soon" 2 2)); try reflexivity.
  right. reflexivity.
Defined.

(** ** Markers the sweep cannot deal with *)

Lemma sweep_fs_absent y u : find_file y (Files u) = None -> sweep_fs y u = u.
Proof. intros Hy. unfold sweep_fs. by rewrite Hy. Qed.

Lemma sweep_fs_skips p actual marker u :
  marker_pending p actual marker u ->
  DenyRead marker = true \/
  (exists token, TryParse (Content marker) = Some token) /\
  LastWrite actual < FileTimeOffset ->
  sweep_fs (p +:+ ".delete") u = u.
Proof.
  intros (Ha & Hm & _) Hskip. unfold sweep_fs. rewrite Hm.
  destruct (DenyRead marker) eqn:Hread; [done|].
  destruct Hskip as [?|[[token Hparse] Hold]]; [done|].
  rewrite DropLast7_marker, Ha, Hparse. unfold ToFileTimeUtc.
  destruct (LastWrite actual - FileTimeOffset <? 0) eqn:E; [done|lia].
Qed.

Lemma sweep_all_skips p actual marker L u :
  ends_with ".delete" p = false ->
  (forall y, y ∈ L -> ends_with ".delete" y = true) ->
  DenyRead marker = true \/
  (exists token, TryParse (Content marker) = Some token) /\
  LastWrite actual < FileTimeOffset ->
  marker_pending p actual marker u ->
  marker_pending p actual marker (sweep_all L u).
Proof.
  intros Hp HL Hskip. revert u. induction L as [|y L IH]; intros u Hu; [done|].
  simpl. apply IH.
  { intros z Hz. apply HL. by apply list_elem_of_further. }
  assert (Hy : ends_with ".delete" y = true) by apply HL, list_elem_of_here.
  destruct (ends_with_DropLast7 y Hy) as (a & -> & _).
  destruct (decide (a +:+ ".delete" = p +:+ ".delete")) as [->|Hne1].
  { by rewrite (sweep_fs_skips p actual marker). }
  destruct (decide (a +:+ ".delete" = (p +:+ ".delete") +:+ ".delete")) as [->|Hne2].
  { rewrite sweep_fs_absent; [done|]. by destruct Hu as (_ & _ & ?). }
  by apply sweep_other_marker_pending.
Qed.

(** X16. Markers the sweep never gets rid of.  On the in-memory file
    system, let the file [p] (not itself ending in [.delete]) and its
    marker be there, the marker having no marker of its own.  If the
    marker cannot be read, or if its text is a number and the file was
    last written before 1601 (so that [ToFileTimeUtc] raises), then
    [TryDeleteMarkedFiles] returns and leaves both the file and the marker
    exactly as they were: the exception ends the turn for this marker
    before the marker is deleted. *)
Theorem TryDeleteMarkedFiles_skips (s : MemFS) (d p : string)
    (actual marker : FileData) :
  ends_with ".delete" p = false ->
  listable d s = true ->
  find_file p (Files s) = Some actual ->
  find_file (p +:+ ".delete") (Files s) = Some marker ->
  find_file ((p +:+ ".delete") +:+ ".delete") (Files s) = None ->
  DenyRead marker = true \/
  (exists token, TryParse (Content marker) = Some token) /\
  LastWrite actual < FileTimeOffset ->
  exists s',
    TryDeleteMarkedFiles d s = (Returned tt, s') /\
    find_file p (Files s') = Some actual /\
    find_file (p +:+ ".delete") (Files s') = Some marker.
Proof.
  intros Hp Hl Ha Hm Hmm Hskip.
  exists (sweep_all (markers d s) s). split.
  - rewrite TryDeleteMarkedFiles_mem, Hl. unfold listable in Hl.
    apply andb_true_iff in Hl as [-> _]. done.
  - assert (Hends : forall y, y ∈ markers d s -> ends_with ".delete" y = true).
    { intros y Hy. by apply markers_spec in Hy as [? _]. }
    destruct (sweep_all_skips p actual marker (markers d s) s Hp Hends Hskip)
      as (Ha' & Hm' & _); done.
Qed.

Lemma TryDeleteMarkedFiles_skips_witness :
  exists s',
    TryDeleteMarkedFiles "d"
      (mkFS [("d/a", plain "x" 1 1); ("d/a.delete", plain "77" 2 2)] ["d"] [] 100)
    = (Returned tt, s') /\
    find_file "d/a" (Files s') = Some (plain "x" 1 1) /\
    find_file "d/a.delete" (Files s') = Some (plain "77" 2 2).
Proof.
  apply (TryDeleteMarkedFiles_skips
           (mkFS [("d/a", plain "x" 1 1); ("d/a.delete", plain "77" 2 2)] ["d"] [] 100)
           "d" "d/a" (plain "x" 1 1) (plain "77" 2 2)); try reflexivity.
  right. split; [by exists 77|reflexivity].
Defined.

(** ** RandomFileCode *)

Lemma foldGuidBytes_run (guidBytes : list Z) :
  length guidBytes = 16%nat ->
  foldGuidBytes guidBytes (replicate 8 0)
  = (Returned tt,
     zip_with (fun low high => to_byte (Z.lxor low high))
       (take 8 guidBytes) (drop 8 guidBytes)).
Proof.
  intros Hlen.
  do 16 (destruct guidBytes as [|? guidBytes]; [discriminate Hlen|]).
  destruct guidBytes; [|discriminate Hlen]. reflexivity.
Qed.

Lemma lxor_byte (a b : Z) :
  0 <= a < 256 -> 0 <= b < 256 -> to_byte (Z.lxor a b) = Z.lxor a b.
Proof.
  intros Ha Hb. unfold to_byte. apply Z.mod_small.
  assert (Hnn : 0 <= Z.lxor a b) by (apply Z.lxor_nonneg; lia).
  split; [done|].
  destruct (decide (Z.lxor a b = 0)) as [->|Hz]; [lia|].
  change 256 with (2 ^ 8). apply Z.log2_lt_pow2; [lia|].
  eapply Z.le_lt_trans; [apply Z.log2_lxor; lia|].
  apply Z.max_lub_lt.
  - destruct (decide (a = 0)) as [->|?]; [done|]. apply Z.log2_lt_pow2; lia.
  - destruct (decide (b = 0)) as [->|?]; [done|]. apply Z.log2_lt_pow2; lia.
Qed.

(** X17. What [RandomFileCode] hands to the encoder.  For the 16 bytes of
    a GUID the loop never leaves its arrays, and the call returns
    [Base32.Encode] of an array of exactly 8 bytes, the byte at index [i]
    being the exclusive or of the GUID's bytes at [i] and [i + 8]; the
    cast to [byte] cuts nothing off.  This holds whatever the encoder is. *)
Theorem RandomFileCode_folds (Base32_Encode : list Z -> string)
    (guidBytes : list Z) :
  length guidBytes = 16%nat ->
  (forall b, b ∈ guidBytes -> 0 <= b < 256) ->
  exists eightBytes,
    RandomFileCode Base32_Encode guidBytes = Returned (Base32_Encode eightBytes) /\
    length eightBytes = 8%nat /\
    (forall b, b ∈ eightBytes -> 0 <= b < 256) /\
    (forall (i : nat) low high,
       (i < 8)%nat ->
       guidBytes !! i = Some low -> guidBytes !! (i + 8)%nat = Some high ->
       eightBytes !! i = Some (Z.lxor low high)).
Proof.
  intros Hlen Hbytes.
  exists (zip_with (fun low high => to_byte (Z.lxor low high))
            (take 8 guidBytes) (drop 8 guidBytes)).
  split; [|split; [|split]].
  - unfold RandomFileCode. by rewrite foldGuidBytes_run.
  - rewrite length_zip_with, length_take, length_drop. lia.
  - intros b Hb. apply elem_of_lookup_zip_with in Hb as (i & low & high & -> & _ & _).
    unfold to_byte. apply Z.mod_pos_bound. lia.
  - intros i low high Hi Hlow Hhigh.
    rewrite lookup_zip_with, lookup_take, lookup_drop by lia.
    rewrite decide_True by done.
    replace (8 + i)%nat with (i + 8)%nat by lia.
    rewrite Hlow. simpl. rewrite Hhigh. simpl. f_equal. apply lxor_byte; apply Hbytes.
    + by apply (list_elem_of_lookup_2 _ i).
    + by apply (list_elem_of_lookup_2 _ (i + 8)).
Qed.

Lemma RandomFileCode_folds_witness :
  exists eightBytes : list Z,
    RandomFileCode (fun bytes => if decide (bytes = [254; 2; 0; 8; 0; 3; 7; 136])
                                 then "folded" else "other")
      [1; 2; 3; 4; 5; 6; 7; 8; 255; 0; 3; 12; 5; 5; 0; 128]
    = Returned "folded" /\
    length eightBytes = 8%nat.
Proof.
  destruct (RandomFileCode_folds
              (fun bytes => if decide (bytes = [254; 2; 0; 8; 0; 3; 7; 136])
                            then "folded" else "other")
              [1; 2; 3; 4; 5; 6; 7; 8; 255; 0; 3; 12; 5; 5; 0; 128])
    as (eightBytes & Hrun & Hlen & _).
  - reflexivity.
  - intros b Hb. rewrite !elem_of_cons in Hb.
    repeat (destruct Hb as [->|Hb]; [lia|]). by apply not_elem_of_nil in Hb.
  - exists eightBytes. split; [reflexivity|exact Hlen].
Defined.

(** X18. [RandomFileCode] keeps half of the GUID: the GUID whose two
    halves of 8 bytes are exchanged gets the same code, whatever the
    encoder is, so different GUIDs can share a code. *)
Theorem RandomFileCode_halves (Base32_Encode : list Z -> string)
    (guidBytes : list Z) :
  length guidBytes = 16%nat ->
  RandomFileCode Base32_Encode (drop 8 guidBytes ++ take 8 guidBytes)
  = RandomFileCode Base32_Encode guidBytes.
Proof.
  intros Hlen. unfold RandomFileCode.
  rewrite !foldGuidBytes_run;
    [|done|rewrite length_app, length_take, length_drop; lia].
  destruct guidBytes as [|z [|z0 [|z1 [|z2 [|z3 [|z4 [|z5 [|z6 [|z7 [|z8 [|z9
    [|z10 [|z11 [|z12 [|z13 [|z14 [|]]]]]]]]]]]]]]]]]; try discriminate Hlen.
  simpl.
  by rewrite (Z.lxor_comm z7), (Z.lxor_comm z8), (Z.lxor_comm z9),
    (Z.lxor_comm z10), (Z.lxor_comm z11), (Z.lxor_comm z12), (Z.lxor_comm z13),
    (Z.lxor_comm z14).
Qed.

Lemma RandomFileCode_halves_witness :
  RandomFileCode (fun _ => "code")
    (drop 8 [1; 2; 3; 4; 5; 6; 7; 8; 255; 0; 3; 12; 5; 5; 0; 128]
     ++ take 8 [1; 2; 3; 4; 5; 6; 7; 8; 255; 0; 3; 12; 5; 5; 0; 128])
  = RandomFileCode (fun _ => "code")
      [1; 2; 3; 4; 5; 6; 7; 8; 255; 0; 3; 12; 5; 5; 0; 128].
Proof. apply RandomFileCode_halves. reflexivity. Defined.

(** ** Marking a file and deleting it later *)

(** X19. A marker does not outlive an explicit delete.  On the in-memory
    file system, let the deletion of the file [p] raise, so that
    [TryDeleteOrMark] writes its marker; once the file has been let go of,
    [Delete(p, type)] with any of the three types returns and removes the
    file together with the marker, and every other file is as it was
    before the two calls. *)
Theorem TryDeleteOrMark_then_Delete (s : MemFS) (p d : string) (f : FileData)
    (type : DeleteType) :
  find_file p (Files s) = Some f ->
  DenyDelete f = true ->
  FileTimeOffset <= LastWrite f ->
  in_directory d p -> listable d s = true ->
  find_file (p +:+ ".delete") (Files s) = None ->
  exists s1 s2,
    TryDeleteOrMark p s = (Returned tt, s1) /\
    FileExists p s1 = true /\
    FileExists (p +:+ ".delete") s1 = true /\
    DeleteWith p type (release p s1) = (Returned tt, s2) /\
    FileExists p s2 = false /\
    FileExists (p +:+ ".delete") s2 = false /\
    (forall q, q <> p -> q <> p +:+ ".delete" ->
       find_file q (Files s2) = find_file q (Files s)).
Proof.
  intros Hp Hd Hvalid Hdir Hl Hm.
  pose proof (append_marker_ne p) as Hne.
  set (s1 := mark p (LastWrite f) s).
  assert (Hm1 : find_file (p +:+ ".delete") (Files s1)
                = Some (marker_of (LastWrite f) (Clock s)))
    by (by apply find_file_mark_new).
  assert (Hp1 : find_file p (Files s1) = Some f).
  { unfold s1. rewrite find_file_mark_ne; [done|congruence]. }
  assert (Hp2 : find_file p (Files (release p s1)) = Some (released f)).
  { unfold release. by rewrite find_file_modify, decide_True, Hp1. }
  assert (Hm2 : find_file (p +:+ ".delete") (Files (release p s1))
                = Some (marker_of (LastWrite f) (Clock s))).
  { unfold release. by rewrite find_file_modify, decide_False. }
  exists s1, (delete_quiet (p +:+ ".delete") (set_files (remove_file p) (release p s1))).
  split; [by apply (TryDeleteOrMark_mem_held d)|].
  split; [simpl; unfold mem_FileExists; by rewrite Hp1|].
  split; [simpl; unfold mem_FileExists; by rewrite Hm1|].
  split; [|split; [|split]].
  - apply DeleteWith_deletable.
    + simpl. unfold mem_FileExists. by rewrite Hp2.
    + unfold blocked. by rewrite Hp2.
  - apply find_None_FileExists.
    rewrite find_file_delete_quiet_ne by congruence.
    unfold set_files. cbn [Files]. apply find_file_remove_eq.
  - rewrite FileExists_delete_quiet, decide_True by done.
    apply andb_false_iff. right. unfold blocked, set_files. cbn [Files].
    by rewrite find_file_remove_ne, Hm2.
  - intros q Hq Hqm. rewrite find_file_delete_quiet_ne by done.
    unfold set_files. cbn [Files].
    rewrite find_file_remove_ne by done. unfold release.
    rewrite find_file_modify, decide_False by done.
    by apply find_file_mark_ne.
Qed.

Lemma TryDeleteOrMark_then_Delete_witness :
  exists s1 s2,
    TryDeleteOrMark "d/a" fs_held = (Returned tt, s1) /\
    FileExists "d/a" s1 = true /\
    FileExists "d/a.delete" s1 = true /\
    DeleteWith "d/a" DeleteType_TryDelete (release "d/a" s1) = (Returned tt, s2) /\
    FileExists "d/a" s2 = false /\
    FileExists "d/a.delete" s2 = false.
Proof.
  destruct (TryDeleteOrMark_then_Delete fs_held "d/a" "d"
              (undeletable "x" (FileTimeOffset + 5) (FileTimeOffset + 77))
              DeleteType_TryDelete)
    as (s1 & s2 & H1 & H2 & H3 & H4 & H5 & H6 & _); try reflexivity.
  - unfold FileTimeOffset. simpl. lia.
  - by exists s1, s2.
Defined.

(** ** The name of the check file *)

(** X20. Of [checkFileName] only the file name counts, without the white
    space around it: on every file system, two non-empty check file names
    with the same trimmed [GetFileName] make [PurgeDirectory] do the same.
    A directory part in [checkFileName] is ignored; the check file is
    always looked for inside [directoryToClean]. *)
Theorem PurgeDirectory_check_file_name :
  forall (FS : Type) (I : ITemporaryFileSystem FS) (directoryToClean : string)
         (autoExpireTime : TimeSpan) (maxFilesInDirectory : Z)
         (checkFileName1 checkFileName2 : string) (now : DateTime) (s : FS),
    checkFileName1 <> "" -> checkFileName2 <> "" ->
    Trim (GetFileName checkFileName1) = Trim (GetFileName checkFileName2) ->
    PurgeDirectory directoryToClean autoExpireTime maxFilesInDirectory
      checkFileName1 now s
    = PurgeDirectory directoryToClean autoExpireTime maxFilesInDirectory
        checkFileName2 now s.
Proof.
  intros FS I d aet maxf chk1 chk2 now s H1 H2 Hname. unfold PurgeDirectory.
  destruct chk1 as [|c1 r1]; [done|]. destruct chk2 as [|c2 r2]; [done|].
  cbn [String.length Nat.eqb negb]. by rewrite Hname.
Qed.

Lemma PurgeDirectory_check_file_name_witness :
  PurgeDirectory "d" 0 1 "elsewhere/ .temporary " 100 fs_temp
  = PurgeDirectory "d" 0 1 ".temporary" 100 fs_temp.
Proof. apply PurgeDirectory_check_file_name; [discriminate|discriminate|reflexivity]. Defined.

(** ** The two passes together *)

Lemma find_file_elem_NoDup p f (l : list (string * FileData)) :
  NoDup l.*1 -> (p, f) ∈ l -> find_file p l = Some f.
Proof.
  induction l as [|[q g] l IH]; intros Hnd Hin.
  - by apply not_elem_of_nil in Hin.
  - rewrite fmap_cons in Hnd. apply NoDup_cons in Hnd as [Hq Hnd]. simpl in *.
    apply elem_of_cons in Hin as [[= -> ->]|Hin].
    + by rewrite decide_True.
    + rewrite decide_False; [by apply IH|].
      intros ->. apply Hq. apply list_elem_of_fmap. by exists (p, f).
Qed.

Lemma NoDup_without ps s : NoDup (Files s).*1 -> NoDup (Files (without ps s)).*1.
Proof.
  intros Hnd. unfold without. simpl.
  apply (sublist_NoDup _ ((Files s).*1)); [done|].
  apply fmap_sublist, sublist_filter.
Qed.

Lemma NoDup_age_pass d chk aet maxf now s :
  NoDup (Files s).*1 -> NoDup (Files (age_pass d chk aet maxf now s)).*1.
Proof.
  destruct (age_pass_without d chk aet maxf now s) as (l & _ & ->).
  apply NoDup_without.
Qed.

(** in a listing without repeated paths, a path is a candidate exactly
    when its entry is one *)
Lemma candidates_NoDup chk (E l : list TemporaryFileInfo) fi :
  NoDup (FullName <$> E) -> l ⊆ E -> fi ∈ E ->
  FullName fi ∈ candidates chk l <->
  fi ∈ l /\ EqualsIgnoreCase chk (Name fi) = false.
Proof.
  intros Hnd Hl Hfi. rewrite elem_of_candidates. split.
  - intros (fj & Hfj & Hname & Hc).
    assert (fj = fi) as -> by (apply (NoDup_fmap_inj_in FullName E); auto).
    done.
  - intros [Hin Hc]. by exists fi.
Qed.

(** the age-based pass, when every file can be deleted, leaves exactly the
    entries that are not expired or bear the name of the check file *)
Lemma entries_age_pass_all_deletable d chk aet maxf now s :
  NoDup (Files s).*1 -> all_deletable d s ->
  age_enabled aet maxf = true ->
  entries d (age_pass d chk aet maxf now s)
  = filter (fun fi => now - aet <= CreationTime fi \/
                      EqualsIgnoreCase chk (Name fi) = true) (entries d s).
Proof.
  intros Hnd Hall Hage. unfold age_pass. unfold age_enabled in Hage. rewrite Hage.
  rewrite delete_each_without, entries_without.
  apply filter_ext_in. intros fi Hfi.
  pose proof (from_dir_entries d s fi Hfi) as [_ Hdir].
  rewrite (blocked_all_deletable d s _ Hall Hdir).
  rewrite (candidates_NoDup chk (entries d s));
    [|by apply NoDup_entries|apply list_subseteq_filter|done].
  rewrite list_elem_of_filter.
  destruct (EqualsIgnoreCase chk (Name fi)).
  - split; [by right|]. by intros _ [[_ ?] _].
  - split.
    + intros Hn. left. destruct (decide (CreationTime fi < now - aet)); [|lia].
      exfalso. apply Hn. tauto.
    + intros [Hnew|?] [[[Hold _] _] _]; [lia|done].
Qed.

(** X21. The count-based pass counts what the age-based pass has left.  On
    the in-memory file system (no path listed twice, the check file
    present, the directory listable, every deletion succeeding, a non-zero
    [autoExpireTime] whose expiry limit is a date, a non-zero cap): if the
    cap is negative, or if the entries that are not expired, together with
    those bearing the check file name, are no more than the cap, then
    [PurgeDirectory] returns and leaves exactly those entries in the
    directory, however many files the directory held before. *)
Theorem PurgeDirectory_age_then_count (s : MemFS) (d : string) (aet : TimeSpan)
    (maxf : Z) (chk : string) (now limit : DateTime) :
  chk <> "" ->
  FileExists (Combine d (Trim (GetFileName chk))) s = true ->
  listable d s = true ->
  all_deletable d s ->
  NoDup (Files s).*1 ->
  aet <> 0 -> maxf <> 0 ->
  DateTime_Subtract now aet = Returned limit ->
  let sentinel := Trim (mem_GetFileName chk) in
  let fresh :=
    filter (fun fi => limit <= CreationTime fi \/
                      EqualsIgnoreCase sentinel (Name fi) = true) (entries d s) in
  maxf < 0 \/ Z.of_nat (length fresh) <= maxf ->
  exists s',
    PurgeDirectory d aet maxf chk now s = (Returned tt, s') /\
    entries d s' = fresh.
Proof.
  intros Hne Hex Hl Hall Hnd Haet Hmax Hsub sentinel fresh Hcap.
  pose proof (DateTime_Subtract_Returned _ _ _ Hsub) as ->.
  assert (Hage : age_enabled aet maxf = true).
  { unfold age_enabled. apply andb_true_iff.
    split; apply negb_true_iff, Z.eqb_neq; lia. }
  assert (Hent : entries d (age_pass d sentinel aet maxf now s) = fresh)
    by (by apply entries_age_pass_all_deletable).
  eexists. split.
  - apply PurgeDirectory_mem_runs; [done|done| |done].
    unfold expiry_fails. by rewrite Hsub, andb_false_r.
  - fold sentinel. rewrite count_pass_within_cap; [done|].
    destruct Hcap as [Hcap|Hcap]; [by left|right]. by rewrite Hent.
Qed.

Lemma PurgeDirectory_age_then_count_witness :
  exists s',
    PurgeDirectory "d" 85 2 ".temporary" 100 fs_temp = (Returned tt, s') /\
    FullName <$> entries "d" s' = ["d/.temporary"; "d/b"].
Proof.
  destruct (PurgeDirectory_age_then_count fs_temp "d" 85 2 ".temporary" 100 15)
    as (s' & Hrun & Hent); try done.
  - intros p f Hp _. vm_compute in Hp.
    repeat (apply elem_of_cons in Hp as [Hp|Hp]; [by inversion Hp|]).
    by apply not_elem_of_nil in Hp.
  - vm_compute. repeat constructor; rewrite ?elem_of_cons, ?elem_of_nil;
      intuition discriminate.
  - right. vm_compute. discriminate.
  - exists s'. split; [done|]. by rewrite Hent.
Defined.

(** ** The newest files *)

(** what lies within the cap of a listing lies within the cap of what is
    left of it *)
Lemma drop_filter_within_cap {A} (P : A -> Prop) `{forall x, Decision (P x)}
    (S : list A) (k : nat) x :
  x ∈ drop (length S - k) S -> P x ->
  x ∈ drop (length (filter P S) - k) (filter P S).
Proof.
  intros Hx HP.
  rewrite <- (take_drop (length S - k) S) at 2.
  rewrite <- (take_drop (length S - k) S) at 1.
  rewrite filter_app, length_app.
  assert (length (filter P (drop (length S - k) S)) <= k)%nat as Hle.
  { etrans; [apply length_filter|]. rewrite length_drop. lia. }
  rewrite drop_app_le by lia. apply elem_of_app. right.
  by apply list_elem_of_filter.
Qed.

Lemma count_pass_keeps_newest d chk maxf s fi :
  NoDup (Files s).*1 -> 0 < maxf ->
  fi ∈ drop (length (entries d s) - Z.to_nat maxf)
         (Array_Sort byCreationTime (entries d s)) ->
  find_file (FullName fi) (Files (count_pass d chk maxf s))
  = find_file (FullName fi) (Files s).
Proof.
  intros Hnd Hmax Hfi. unfold count_pass.
  destruct ((0 <=? maxf) && (maxf <? Z.of_nat (length (entries d s))))%bool; [|done].
  rewrite delete_each_without. apply find_file_without_keep.
  unfold count_pass_order.
  replace (negb (maxf =? 0)) with true
    by (symmetry; apply negb_true_iff, Z.eqb_neq; lia).
  replace (Z.to_nat (Z.of_nat (length (entries d s)) - maxf))
    with (length (entries d s) - Z.to_nat maxf)%nat by lia.
  set (n := (length (entries d s) - Z.to_nat maxf)%nat) in *.
  set (sorted := Array_Sort byCreationTime (entries d s)) in *.
  assert (Hperm : take n sorted ++ drop n sorted ≡ₚ entries d s).
  { rewrite take_drop. apply Array_Sort_perm. }
  rewrite (candidates_prefix chk (entries d s) (take n sorted) (drop n sorted));
    [tauto|by apply NoDup_entries|done|].
  rewrite <- Hperm. apply elem_of_app. by right.
Qed.

(** X22. The count-based pass never takes one of the newest files.  On
    the in-memory file system with no path listed twice and a positive
    cap [maxFilesInDirectory], an entry among the last [maxFilesInDirectory]
    of the listing sorted by creation time is, after [PurgeDirectory],
    exactly as it was, provided the age-based pass is not after it
    ([autoExpireTime] is zero, or the entry was created at or after now
    minus [autoExpireTime]).  This holds for every check file name, whether
    deletions of other files succeed or raise, and however the call ends.
    ([Array.Sort] read as a stable sort.) *)
Theorem PurgeDirectory_keeps_newest (s : MemFS) (d : string) (aet : TimeSpan)
    (maxf : Z) (chk : string) (now : DateTime) (fi : TemporaryFileInfo) :
  NoDup (Files s).*1 ->
  0 < maxf ->
  fi ∈ drop (length (entries d s) - Z.to_nat maxf)
         (Array_Sort byCreationTime (entries d s)) ->
  aet = 0 \/ now - aet <= CreationTime fi ->
  find_file (FullName fi) (Files (PurgeDirectory d aet maxf chk now s).2)
  = find_file (FullName fi) (Files s).
Proof.
  intros Hnd Hmax Hnew Hfresh. rewrite PurgeDirectory_mem.
  destruct (gate_open d chk s && expiry_fails aet maxf now)%bool; [done|].
  destruct (negb (enumerates d chk aet maxf now s)); [done|].
  destruct (listable d s); [|done]. cbn [snd].
  set (c := check_name chk).
  assert (Hin : fi ∈ entries d s).
  { apply subseteq_drop in Hnew. by rewrite Array_Sort_perm in Hnew. }
  destruct (proj1 (elem_of_entries d s fi) Hin) as (p & f & Hpf & Hdir & ->).
  cbn [FullName info_of fst] in *. cbn [CreationTime info_of snd] in Hfresh.
  pose proof (find_file_elem_NoDup p f _ Hnd Hpf) as Hfind.
  assert (Hage : find_file p (Files (age_pass d c aet maxf now s)) = Some f)
    by (by apply age_pass_spares_fresh).
  rewrite Hfind, <- Hage.
  apply (count_pass_keeps_newest d c maxf _ (info_of (p, f)));
    [by apply NoDup_age_pass|done|].
  destruct (age_pass_without d c aet maxf now s) as (l & _ & Hs1).
  assert (Hent : entries d (age_pass d c aet maxf now s)
                 = filter (fun fi => ~ (FullName fi ∈ candidates c l /\
                                        blocked (FullName fi) s = false))
                     (entries d s)).
  { rewrite Hs1. apply entries_without. }
  rewrite Hent, Array_Sort_filter.
  rewrite <- (Array_Sort_length byCreationTime (filter _ (entries d s))).
  rewrite Array_Sort_filter.
  apply drop_filter_within_cap; [by rewrite Array_Sort_length|].
  assert (Hstill : info_of (p, f) ∈ entries d (age_pass d c aet maxf now s)).
  { apply elem_of_entries. exists p, f. split; [|done].
    by apply find_file_Some_elem. }
  rewrite Hent in Hstill. by apply list_elem_of_filter in Hstill as [? _].
Qed.

Lemma PurgeDirectory_keeps_newest_witness :
  find_file "d/c" (Files (PurgeDirectory "d" 0 2 ".temporary" 100 fs_stuck).2)
  = Some (plain "z" 90 90).
Proof.
  apply (PurgeDirectory_keeps_newest fs_stuck "d" 0 2 ".temporary" 100
           (mkInfo "c" "d/c" 90)).
  - vm_compute. repeat constructor; rewrite ?elem_of_cons, ?elem_of_nil;
      intuition discriminate.
  - lia.
  - match goal with
    | |- _ ∈ ?l => let l' := eval vm_compute in l in change l with l'
    end.
    rewrite !elem_of_cons. auto.
  - by left.
Defined.

(** ** Marking a file again *)

(** X23. Marking again renews the token.  On the in-memory file system,
    let the deletion of the file [p] raise and let a marker that can be
    overwritten be there already, whatever its text.  Then
    [TryDeleteOrMark] returns, the marker's text is the decimal file time
    of the file's last write as it is now, which [long.TryParse] reads
    back as that number, the marker keeps its creation time and its
    permissions, and every other file is as it was. *)
Theorem TryDeleteOrMark_renews_marker (s : MemFS) (p : string) (f g : FileData) :
  find_file p (Files s) = Some f ->
  DenyDelete f = true ->
  FileTimeOffset <= LastWrite f <= MaxTicks ->
  find_file (p +:+ ".delete") (Files s) = Some g ->
  DenyWrite g = false ->
  let token := LastWrite f - FileTimeOffset in
  exists s',
    TryDeleteOrMark p s = (Returned tt, s') /\
    find_file (p +:+ ".delete") (Files s')
    = Some (mkFile (ToInvariant token) (Created g) (Clock s)
              (DenyDelete g) (DenyRead g) false) /\
    TryParse (ToInvariant token) = Some token /\
    (forall q, q <> p +:+ ".delete" -> find_file q (Files s') = find_file q (Files s)).
Proof.
  intros Hp Hd Hvalid Hm Hw token.
  exists (tryDeleteOrMark_fs p s). split; [apply TryDeleteOrMark_mem|].
  assert (Hs' : tryDeleteOrMark_fs p s
                = set_files
                    (replace_file (p +:+ ".delete")
                       (mkFile (ToInvariant token) (Created g) (Clock s)
                          (DenyDelete g) (DenyRead g) (DenyWrite g))) s).
  { unfold tryDeleteOrMark_fs. cbn zeta.
    rewrite (tryDelete_fs_blocked p f s Hp Hd).
    unfold mem_FileExists, write_marker_fs. rewrite Hp. unfold ToFileTimeUtc.
    destruct (LastWrite f - FileTimeOffset <? 0) eqn:E; [lia|].
    unfold mem_WriteAllText. by rewrite Hm, Hw. }
  rewrite Hs'. unfold set_files. cbn [Files]. split; [|split].
  - by rewrite find_file_replace, decide_True, Hm, Hw.
  - apply TryParse_ToInvariant. unfold token, MaxTicks, FileTimeOffset in *. lia.
  - intros q Hq. by rewrite find_file_replace, decide_False.
Qed.

Lemma TryDeleteOrMark_renews_marker_witness :
  exists s',
    TryDeleteOrMark "d/a"
      (mkFS [("d/a", undeletable "x" (FileTimeOffset + 5) (FileTimeOffset + 77));
             ("d/a.delete", plain "12" (FileTimeOffset + 20) (FileTimeOffset + 20))]
         ["d"] [] (FileTimeOffset + 100))
    = (Returned tt, s') /\
    find_file "d/a.delete" (Files s')
    = Some (plain "77" (FileTimeOffset + 20) (FileTimeOffset + 100)).
Proof.
  destruct (TryDeleteOrMark_renews_marker
              (mkFS [("d/a", undeletable "x" (FileTimeOffset + 5) (FileTimeOffset + 77));
                     ("d/a.delete",
                      plain "12" (FileTimeOffset + 20) (FileTimeOffset + 20))]
                 ["d"] [] (FileTimeOffset + 100))
              "d/a"
              (undeletable "x" (FileTimeOffset + 5) (FileTimeOffset + 77))
              (plain "12" (FileTimeOffset + 20) (FileTimeOffset + 20)))
    as (s' & Hrun & Hmarker & _); try reflexivity.
  - unfold FileTimeOffset, MaxTicks. simpl. lia.
  - exists s'. split; [exact Hrun|]. etrans; [exact Hmarker|reflexivity].
Defined.
